(** * AudioTranscription: the discovery and transcription pipeline of [main.py]

    A shallow embedding of [src/main.py] and of the library behaviour it
    relies on (posixpath, json, a file system, logging, the remote
    generative-AI service), followed by the properties of the two functions
    of the script: [get_audio_file_paths] and [extract_json_from_audio].

    Layout:
    - Python values: strings as code-point lists, exceptions, outcomes;
    - [posixpath]: [join], [basename], [splitext], [split];
    - [json]: values, the encoder of [json.dump(..., indent=4)], the decoder
      of [json.loads];
    - the file system: a tree of directories and files, path resolution,
      [os.listdir], [os.makedirs], [open(..., "w")];
    - the environment of the script (content-type guessing, the remote
      service) and the state the script threads through its calls;
    - the two functions of [main.py];
    - a concrete environment used to run the model on examples;
    - lemmas and theorems. *)

From Stdlib Require Import List NArith ZArith Lia Bool String Ascii.
From Stdlib Require Import DecimalN DecimalPos DecimalFacts.
Import ListNotations.

Set Warnings "-register-all".
Local Open Scope N_scope.

(* ================================================================== *)
(** ** Python values *)
(* ================================================================== *)

(** A Python [str] is a sequence of code points. *)
Definition pystr := list N.

(** [py "abc"] is the Python string literal ["abc"] (ASCII only). *)
Definition py (s : string) : pystr := map N_of_ascii (list_ascii_of_string s).

Arguments py s : simpl never.

Definition pystr_eqb (a b : pystr) : bool :=
  if list_eq_dec N.eq_dec a b then true else false.

(** [s.startswith(prefix)]. *)
Fixpoint startswith (s prefix : pystr) : bool :=
  match prefix, s with
  | [], _ => true
  | _ :: _, [] => false
  | p :: prefix', c :: s' => (c =? p) && startswith s' prefix'
  end.

(** [s.endswith(suffix)]. *)
Definition endswith (s suffix : pystr) : bool :=
  startswith (rev s) (rev suffix).

(** [s.rfind(c)] for a one-character needle: the highest index of [c] in
    [s], or [-1].  [rfind_from i] numbers the first element [i]. *)
Fixpoint rfind_from (i : Z) (s : pystr) (c : N) : Z :=
  match s with
  | [] => (-1)%Z
  | x :: r =>
      let j := rfind_from (i + 1) r c in
      if (0 <=? j)%Z then j else if x =? c then i else (-1)%Z
  end.

Definition rfind (s : pystr) (c : N) : Z := rfind_from 0 s c.

(** The slices [s[:i]], [s[i:]] and [s[i:j]] for non-negative indices. *)
Definition slice_to (s : pystr) (i : Z) : pystr := firstn (Z.to_nat i) s.
Definition slice_from (s : pystr) (i : Z) : pystr := skipn (Z.to_nat i) s.
Definition slice (s : pystr) (i j : Z) : pystr := slice_from (slice_to s j) i.

(** [s.lstrip(c)] and [s.rstrip(c)]. *)
Fixpoint lstrip (s : pystr) (c : N) : pystr :=
  match s with
  | [] => []
  | x :: r => if x =? c then lstrip r c else s
  end.

Definition rstrip (s : pystr) (c : N) : pystr := rev (lstrip (rev s) c).

(** *** Exceptions *)

(** The exception classes the script can meet.  [OtherException] stands for
    any further class derived from [Exception] (the remote client's errors),
    [OtherBaseException] for any further class derived from [BaseException]
    only. *)
Inductive exn_class : Type :=
| PlainException
| AttributeError
| ValueError
| JSONDecodeError
| FileNotFoundError
| FileExistsError
| NotADirectoryError
| IsADirectoryError
| OtherException (name : pystr)
| KeyboardInterrupt
| SystemExit
| GeneratorExit
| OtherBaseException (name : pystr).

(** [issubclass(cls, Exception)]: what [except Exception] catches. *)
Definition is_Exception (c : exn_class) : bool :=
  match c with
  | KeyboardInterrupt | SystemExit | GeneratorExit | OtherBaseException _ => false
  | _ => true
  end.

(** An exception object: its class and [str(e)].  The message texts of the
    exceptions raised by library code are indicative only. *)
Record exn : Type := mk_exn { class_of : exn_class; message : pystr }.

(** The result of running a piece of Python: a value, a raised exception, or
    no result at all ([NoFuel]: the polling loop of the readiness wait did
    not finish within the fuel given to the model). *)
Inductive outcome (A : Type) : Type :=
| Ret (a : A)
| Raise (e : exn)
| NoFuel.

Arguments Ret {A} a.
Arguments Raise {A} e.
Arguments NoFuel {A}.

(* ================================================================== *)
(** ** posixpath *)
(* ================================================================== *)

Definition sep : N := 47.      (* "/" *)
Definition extsep : N := 46.   (* "." *)

(** [os.path.join(a, b)]. *)
Definition join (a b : pystr) : pystr :=
  if startswith b [sep] then b
  else if match a with [] => true | _ => endswith a [sep] end then a ++ b
  else a ++ sep :: b.

(** [os.path.basename(p)]: [p[p.rfind('/') + 1:]]. *)
Definition basename (p : pystr) : pystr :=
  let i := (rfind p sep + 1)%Z in
  slice_from p i.

(** [os.path.split(p)]. *)
Definition split (p : pystr) : pystr * pystr :=
  let i := (rfind p sep + 1)%Z in
  let head := slice_to p i in
  let tail := slice_from p i in
  let head :=
    if match head with [] => false | _ => negb (forallb (N.eqb sep) head) end
    then rstrip head sep else head in
  (head, tail).

(** [os.path.splitext(p)] ([genericpath._splitext] with [sep = '/'],
    [altsep = None], [extsep = '.']): the extension starts at the last dot
    of the last component, unless only dots precede it there. *)
Definition splitext (p : pystr) : pystr * pystr :=
  let sepIndex := rfind p sep in
  let dotIndex := rfind p extsep in
  if (sepIndex <? dotIndex)%Z then
    (* skip all leading dots *)
    if existsb (fun c => negb (c =? extsep)) (slice p (sepIndex + 1) dotIndex)
    then (slice_to p dotIndex, slice_from p dotIndex)
    else (p, [])
  else (p, []).

(* ================================================================== *)
(** ** json *)
(* ================================================================== *)

(** Code points with a role in JSON text. *)
Abbreviation c_tab := 9 (only parsing).
Abbreviation c_newline := 10 (only parsing).
Abbreviation c_return := 13 (only parsing).
Abbreviation c_space := 32 (only parsing).
Abbreviation c_quote := 34 (only parsing).       (* the double quote *)
Abbreviation c_plus := 43 (only parsing).
Abbreviation c_comma := 44 (only parsing).
Abbreviation c_minus := 45 (only parsing).
Abbreviation c_dot := 46 (only parsing).
Abbreviation c_slash := 47 (only parsing).
Abbreviation c_zero := 48 (only parsing).
Abbreviation c_nine := 57 (only parsing).
Abbreviation c_colon := 58 (only parsing).
Abbreviation c_E := 69 (only parsing).
Abbreviation c_lbracket := 91 (only parsing).
Abbreviation c_backslash := 92 (only parsing).
Abbreviation c_rbracket := 93 (only parsing).
Abbreviation c_e := 101 (only parsing).
Abbreviation c_u := 117 (only parsing).
Abbreviation c_lbrace := 123 (only parsing).
Abbreviation c_rbrace := 125 (only parsing).

(** *** Floats

    The script never computes with floats: it receives them from
    [json.loads] and hands them to [json.dump].  The model keeps the three
    special values apart and leaves the finite values abstract: a
    [FloatModel] gives the type of finite floats, [float.__repr__] on them,
    and [float(literal)] on the text of a JSON number. *)

Inductive pyfloat (F : Type) : Type :=
| FNaN
| FInf
| FNegInf
| FFinite (f : F).

Arguments FNaN {F}.
Arguments FInf {F}.
Arguments FNegInf {F}.
Arguments FFinite {F} f.

Class FloatModel : Type := {
  finite_float : Type;
  float_repr : finite_float -> pystr;
  float_of_literal : pystr -> pyfloat finite_float
}.

(** *** Values

    What [json.loads] returns: [None], [bool], [int], [float], [str],
    [list], and [dict] with [str] keys (a [dict] keeps insertion order, so
    it is an association list; its keys are distinct). *)

Inductive json {FM : FloatModel} : Type :=
| JNull
| JBool (b : bool)
| JInt (z : Z)
| JFloat (f : pyfloat finite_float)
| JStr (s : pystr)
| JList (l : list json)
| JDict (d : list (pystr * json)).

Arguments JNull {FM}.
Arguments JBool {FM} b.
Arguments JInt {FM} z.
Arguments JFloat {FM} f.
Arguments JStr {FM} s.
Arguments JList {FM} l.
Arguments JDict {FM} d.

(** *** Numbers as text *)

Definition is_digit (c : N) : bool := (c_zero <=? c) && (c <=? c_nine).

Fixpoint uint_chars (d : Decimal.uint) : pystr :=
  match d with
  | Decimal.Nil => []
  | Decimal.D0 d => 48 :: uint_chars d
  | Decimal.D1 d => 49 :: uint_chars d
  | Decimal.D2 d => 50 :: uint_chars d
  | Decimal.D3 d => 51 :: uint_chars d
  | Decimal.D4 d => 52 :: uint_chars d
  | Decimal.D5 d => 53 :: uint_chars d
  | Decimal.D6 d => 54 :: uint_chars d
  | Decimal.D7 d => 55 :: uint_chars d
  | Decimal.D8 d => 56 :: uint_chars d
  | Decimal.D9 d => 57 :: uint_chars d
  end.

(** The decimal digits of a natural number, without leading zeros. *)
Definition digits_of_N (n : N) : pystr := uint_chars (N.to_uint n).

(** The number a string of decimal digits denotes. *)
Definition N_of_digits (s : pystr) : N :=
  fold_left (fun acc c => 10 * acc + (c - c_zero)) s 0.

(** [int.__repr__]. *)
Definition intstr (z : Z) : pystr :=
  if (z <? 0)%Z then c_minus :: digits_of_N (Z.abs_N z) else digits_of_N (Z.abs_N z).

(** [int(s)] on the integer part of a JSON number: an optional minus sign
    and digits. *)
Definition parse_int (s : pystr) : Z :=
  match s with
  | c :: r => if c =? c_minus then (- Z.of_N (N_of_digits r))%Z else Z.of_N (N_of_digits s)
  | [] => 0%Z
  end.

(** The longest prefix of digits, and what follows it. *)
Fixpoint span_digits (s : pystr) : pystr * pystr :=
  match s with
  | c :: r =>
      if is_digit c then let (d, rest) := span_digits r in (c :: d, rest)
      else ([], s)
  | [] => ([], [])
  end.

(** [NUMBER_RE.match] at the start of [s].  The pattern has three groups:
    the integer part (an optional minus sign, then either a single zero or
    a non-zero digit followed by digits), an optional fraction (a dot and at
    least one digit) and an optional exponent ([e] or [E], an optional sign
    and at least one digit).  The result is the three groups (an absent
    group is empty) and the text after the match. *)
Definition match_natural (s : pystr) : option (pystr * pystr) :=
  match s with
  | c :: r =>
      if c =? c_zero then Some ([c], r)
      else if is_digit c then let (d, rest) := span_digits r in Some (c :: d, rest)
      else None
  | [] => None
  end.

Definition match_integer (s : pystr) : option (pystr * pystr) :=
  match s with
  | c :: r =>
      if c =? c_minus then
        match match_natural r with
        | Some (d, rest) => Some (c :: d, rest)
        | None => None
        end
      else match_natural s
  | [] => None
  end.

Definition match_frac (s : pystr) : pystr * pystr :=
  match s with
  | c :: r =>
      if c =? c_dot then
        match span_digits r with
        | ([], _) => ([], s)
        | (d, rest) => (c :: d, rest)
        end
      else ([], s)
  | [] => ([], s)
  end.

Definition match_sign (s : pystr) : pystr * pystr :=
  match s with
  | g :: r => if (g =? c_minus) || (g =? c_plus) then ([g], r) else ([], s)
  | [] => ([], s)
  end.

Definition match_exp (s : pystr) : pystr * pystr :=
  match s with
  | c :: r =>
      if (c =? c_e) || (c =? c_E) then
        let (sign, r') := match_sign r in
        match span_digits r' with
        | ([], _) => ([], s)
        | (d, rest) => (c :: sign ++ d, rest)
        end
      else ([], s)
  | [] => ([], s)
  end.

Definition match_number (s : pystr) : option (pystr * pystr * pystr * pystr) :=
  match match_integer s with
  | Some (integer, s1) =>
      let (frac, s2) := match_frac s1 in
      let (exp, s3) := match_exp s2 in
      Some (integer, frac, exp, s3)
  | None => None
  end.

(** A string that is, as a whole, a JSON number with a fraction or an
    exponent: the texts [json.loads] hands to [float]. *)
Definition is_float_literal (s : pystr) : bool :=
  match match_number s with
  | Some (_, frac, exp, []) =>
      match frac, exp with [], [] => false | _, _ => true end
  | _ => false
  end.

(** *** The encoder: [json.dump(obj, f, indent=4)]

    With an indent the encoder runs [_make_iterencode] with the separators
    [(',', ': ')] and, by default, [ensure_ascii=True]. *)

Definition hexdigit (d : N) : N := if d <? 10 then 48 + d else 87 + d.

(** ['{0:04x}'.format(n)] for [n < 0x10000]. *)
Definition hex4 (n : N) : pystr :=
  [hexdigit (n / 4096 mod 16); hexdigit (n / 256 mod 16);
   hexdigit (n / 16 mod 16); hexdigit (n mod 16)].

Definition u_escape (n : N) : pystr := c_backslash :: c_u :: hex4 n.

(** What [ESCAPE_ASCII.sub(replace, s)] puts in place of one character.
    The pattern matches the backslash, the double quote and every character
    outside the range from the space to the tilde; [ESCAPE_DCT] gives the
    short escapes, every other match becomes a [\uXXXX] escape (two of them
    for a code point above the basic plane). *)
Definition escape_ascii (c : N) : pystr :=
  if c =? c_backslash then [c_backslash; c_backslash]
  else if c =? c_quote then [c_backslash; c_quote]
  else if (32 <=? c) && (c <=? 126) then [c]
  else if c =? 8 then [c_backslash; 98]          (* \b *)
  else if c =? 12 then [c_backslash; 102]        (* \f *)
  else if c =? 10 then [c_backslash; 110]        (* \n *)
  else if c =? 13 then [c_backslash; 114]        (* \r *)
  else if c =? 9 then [c_backslash; 116]         (* \t *)
  else if c <? 65536 then u_escape c
  else
    (* surrogate pair *)
    let n := c - 65536 in
    let s1 := N.lor 55296 (N.land (N.shiftr n 10) 1023) in
    let s2 := N.lor 56320 (N.land n 1023) in
    u_escape s1 ++ u_escape s2.

(** [py_encode_basestring_ascii]. *)
Definition encode_basestring_ascii (s : pystr) : pystr :=
  c_quote :: flat_map escape_ascii s ++ [c_quote].

(** [", ".join]-like joining of chunks. *)
Fixpoint join_with (separator : pystr) (chunks : list pystr) : pystr :=
  match chunks with
  | [] => []
  | [x] => x
  | x :: rest => x ++ separator ++ join_with separator rest
  end.

Section Encoder.
Context {FM : FloatModel}.

(** [floatstr]. *)
Definition floatstr (f : pyfloat finite_float) : pystr :=
  match f with
  | FNaN => py "NaN"
  | FInf => py "Infinity"
  | FNegInf => py "-Infinity"
  | FFinite x => float_repr x
  end.

(** ['\n' + _indent * _current_indent_level] with [_indent = ' ' * indent]. *)
Definition newline_indent (indent level : nat) : pystr :=
  c_newline :: repeat c_space (indent * level).

(** [_iterencode(o, _current_indent_level)], all chunks concatenated. *)
Fixpoint iterencode (indent level : nat) (o : json) : pystr :=
  match o with
  | JNull => py "null"
  | JBool true => py "true"
  | JBool false => py "false"
  | JInt z => intstr z
  | JFloat f => floatstr f
  | JStr s => encode_basestring_ascii s
  | JList [] => py "[]"
  | JList l =>
      c_lbracket :: newline_indent indent (S level)
      ++ join_with (c_comma :: newline_indent indent (S level))
           (map (iterencode indent (S level)) l)
      ++ newline_indent indent level ++ [c_rbracket]
  | JDict [] => py "{}"
  | JDict d =>
      c_lbrace :: newline_indent indent (S level)
      ++ join_with (c_comma :: newline_indent indent (S level))
           (map (fun kv => encode_basestring_ascii (fst kv) ++ c_colon :: c_space
                           :: iterencode indent (S level) (snd kv)) d)
      ++ newline_indent indent level ++ [c_rbrace]
  end.

(** The text [json.dump(obj, f, indent=indent)] writes to [f]. *)
Definition json_dump_text (obj : json) (indent : nat) : pystr :=
  iterencode indent 0 obj.

End Encoder.

(** *** The decoder: [json.loads]

    The scanner of [json.decoder] and [json.scanner], on the text that
    remains to be read instead of an index into the text.  [None] stands for
    a [JSONDecodeError]. *)

(** [WHITESPACE_STR]. *)
Definition is_ws (c : N) : bool :=
  (c =? c_space) || (c =? c_tab) || (c =? c_newline) || (c =? c_return).

(** [WHITESPACE.match(s, end).end()]. *)
Fixpoint skip_ws (s : pystr) : pystr :=
  match s with
  | c :: r => if is_ws c then skip_ws r else s
  | [] => []
  end.

Definition hexval (c : N) : option N :=
  if is_digit c then Some (c - 48)
  else if (97 <=? c) && (c <=? 102) then Some (c - 87)
  else if (65 <=? c) && (c <=? 70) then Some (c - 55)
  else None.

(** [_decode_uXXXX] on the four characters after the [u]. *)
Definition hex4_value (a b c d : N) : option N :=
  match hexval a, hexval b, hexval c, hexval d with
  | Some a, Some b, Some c, Some d => Some (((a * 16 + b) * 16 + c) * 16 + d)
  | _, _, _, _ => None
  end.

(** The table [BACKSLASH]. *)
Definition backslash_escape (esc : N) : option N :=
  if esc =? c_quote then Some c_quote
  else if esc =? c_backslash then Some c_backslash
  else if esc =? c_slash then Some c_slash
  else if esc =? 98 then Some 8
  else if esc =? 102 then Some 12
  else if esc =? 110 then Some 10
  else if esc =? 114 then Some 13
  else if esc =? 116 then Some 9
  else None.

Definition is_high_surrogate (c : N) : bool := (55296 <=? c) && (c <=? 56319).
Definition is_low_surrogate (c : N) : bool := (56320 <=? c) && (c <=? 57343).
Definition is_surrogate (c : N) : bool := (55296 <=? c) && (c <=? 57343).

(** [0x10000 + (((uni - 0xd800) << 10) | (uni2 - 0xdc00))]. *)
Definition join_surrogates (uni uni2 : N) : N :=
  65536 + N.lor (N.shiftl (uni - 55296) 10) (uni2 - 56320).

(** [py_scanstring(s, end, strict=True)]: [s] starts just after the opening
    quote; the result is the decoded string and the text after the closing
    quote. *)
Fixpoint scanstring (s : pystr) : option (pystr * pystr) :=
  let emit (c : N) (r : option (pystr * pystr)) :=
    match r with
    | Some (str, rest) => Some (c :: str, rest)
    | None => None
    end in
  match s with
  | [] => None                                  (* unterminated string *)
  | c :: s1 =>
      if c =? c_quote then Some ([], s1)
      else if c =? c_backslash then
        match s1 with
        | [] => None
        | esc :: s2 =>
            if esc =? c_u then
              match s2 with
              | h1 :: h2 :: h3 :: h4 :: s3 =>
                  match hex4_value h1 h2 h3 h4 with
                  | None => None
                  | Some uni =>
                      if is_high_surrogate uni && startswith s3 [c_backslash; c_u] then
                        match s3 with
                        | _ :: _ :: g1 :: g2 :: g3 :: g4 :: s4 =>
                            match hex4_value g1 g2 g3 g4 with
                            | None => None
                            | Some uni2 =>
                                if is_low_surrogate uni2
                                then emit (join_surrogates uni uni2) (scanstring s4)
                                else emit uni (scanstring s3)
                            end
                        | _ => None
                        end
                      else emit uni (scanstring s3)
                  end
              | _ => None
              end
            else
              match backslash_escape esc with
              | Some ch => emit ch (scanstring s2)
              | None => None
              end
        end
      else if c <? 32 then None                 (* strict: control character *)
      else emit c (scanstring s1)
  end.

Section Decoder.
Context {FM : FloatModel}.

(** [dict(pairs)]: a later pair with the key of an earlier one replaces its
    value and keeps its place. *)
Fixpoint dict_set (d : list (pystr * json)) (k : pystr) (v : json) : list (pystr * json) :=
  match d with
  | [] => [(k, v)]
  | (k', v') :: r =>
      if pystr_eqb k' k then (k', v) :: r else (k', v') :: dict_set r k v
  end.

Definition dict_of_pairs (pairs : list (pystr * json)) : list (pystr * json) :=
  fold_left (fun d kv => dict_set d (fst kv) (snd kv)) pairs [].

(** [JSONArray] and [JSONObject] take the scanner as an argument, as in
    [json.decoder]. *)
Variable scan_once : pystr -> option (json * pystr).

(** The [while True] loop of [JSONArray]; [s] starts at a value and [n]
    bounds the number of iterations. *)
Fixpoint array_loop (n : nat) (s : pystr) : option (list json * pystr) :=
  match n with
  | O => None
  | S n' =>
      match scan_once s with
      | None => None                            (* expecting value *)
      | Some (value, s1) =>
          match skip_ws s1 with
          | c :: s2 =>
              if c =? c_rbracket then Some ([value], s2)
              else if c =? c_comma then
                match array_loop n' (skip_ws s2) with
                | Some (values, rest) => Some (value :: values, rest)
                | None => None
                end
              else None                         (* expecting ',' delimiter *)
          | [] => None
          end
      end
  end.

(** [JSONArray]; [s] starts just after the opening bracket. *)
Definition JSONArray (n : nat) (s : pystr) : option (json * pystr) :=
  match skip_ws s with
  | c :: s1 =>
      if c =? c_rbracket then Some (JList [], s1)
      else
        match array_loop n (skip_ws s) with
        | Some (values, rest) => Some (JList values, rest)
        | None => None
        end
  | [] => None
  end.

(** The [while True] loop of [JSONObject]; [s] starts just after the
    opening quote of a key. *)
Fixpoint object_loop (n : nat) (s : pystr) : option (list (pystr * json) * pystr) :=
  match n with
  | O => None
  | S n' =>
      match scanstring s with
      | None => None
      | Some (key, s1) =>
          match skip_ws s1 with
          | c :: s2 =>
              if c =? c_colon then
                match scan_once (skip_ws s2) with
                | None => None                  (* expecting value *)
                | Some (value, s3) =>
                    match skip_ws s3 with
                    | d :: s4 =>
                        if d =? c_rbrace then Some ([(key, value)], s4)
                        else if d =? c_comma then
                          match skip_ws s4 with
                          | q :: s5 =>
                              if q =? c_quote then
                                match object_loop n' s5 with
                                | Some (pairs, rest) => Some ((key, value) :: pairs, rest)
                                | None => None
                                end
                              else None         (* expecting property name *)
                          | [] => None
                          end
                        else None               (* expecting ',' delimiter *)
                    | [] => None
                    end
                end
              else None                         (* expecting ':' delimiter *)
          | [] => None
          end
      end
  end.

(** [JSONObject]; [s] starts just after the opening brace. *)
Definition JSONObject (n : nat) (s : pystr) : option (json * pystr) :=
  match skip_ws s with
  | c :: s1 =>
      if c =? c_quote then
        match object_loop n s1 with
        | Some (pairs, rest) => Some (JDict (dict_of_pairs pairs), rest)
        | None => None
        end
      else if c =? c_rbrace then Some (JDict [], s1)
      else None                                 (* expecting property name *)
  | [] => None
  end.

End Decoder.

(** [_scan_once]: one JSON value at the start of [s].  [fuel] bounds the
    nesting depth and the length of arrays and objects; the length of the
    text is always enough. *)
Fixpoint scan_once {FM : FloatModel} (fuel : nat) (s : pystr) : option (json * pystr) :=
  match fuel with
  | O => None
  | S fuel' =>
      match s with
      | [] => None
      | nextchar :: s1 =>
          if nextchar =? c_quote then
            match scanstring s1 with
            | Some (str, rest) => Some (JStr str, rest)
            | None => None
            end
          else if nextchar =? c_lbrace then JSONObject (scan_once fuel') fuel' s1
          else if nextchar =? c_lbracket then JSONArray (scan_once fuel') fuel' s1
          else if startswith s (py "null") then Some (JNull, skipn 4 s)
          else if startswith s (py "true") then Some (JBool true, skipn 4 s)
          else if startswith s (py "false") then Some (JBool false, skipn 5 s)
          else
            match match_number s with
            | Some (integer, frac, exp, rest) =>
                match frac, exp with
                | [], [] => Some (JInt (parse_int integer), rest)
                | _, _ => Some (JFloat (float_of_literal (integer ++ frac ++ exp)), rest)
                end
            | None =>
                if startswith s (py "NaN") then Some (JFloat FNaN, skipn 3 s)
                else if startswith s (py "Infinity") then Some (JFloat FInf, skipn 8 s)
                else if startswith s (py "-Infinity") then Some (JFloat FNegInf, skipn 9 s)
                else None
            end
      end
  end.

(** [json.loads(s)] for a [str]: whitespace, one value, whitespace. *)
Definition json_loads {FM : FloatModel} (s : pystr) : outcome json :=
  if startswith s [65279] then
    Raise (mk_exn JSONDecodeError (py "Unexpected UTF-8 BOM (decode using utf-8-sig)"))
  else
    match scan_once (S (List.length s)) (skip_ws s) with
    | None => Raise (mk_exn JSONDecodeError (py "Expecting value"))
    | Some (obj, rest) =>
        match skip_ws rest with
        | [] => Ret obj
        | _ :: _ => Raise (mk_exn JSONDecodeError (py "Extra data"))
        end
    end.

(* ================================================================== *)
(** ** The file system *)
(* ================================================================== *)

(** A tree of directories and regular files.  The entries of a directory
    are kept in the order [os.listdir] reports them.  There are no symbolic
    links and no permissions: every failure of the model is a missing entry
    or an entry of the wrong kind. *)
Inductive node : Type :=
| File (data : pystr)
| Dir (entries : list (pystr * node)).

(** A location in the tree: the names from the root down. *)
Definition location := list pystr.

Record filesystem : Type := mk_fs {
  root : node;
  cwd : location          (* the current directory of the process *)
}.

Fixpoint assoc (k : pystr) (es : list (pystr * node)) : option node :=
  match es with
  | [] => None
  | (k', n) :: r => if pystr_eqb k' k then Some n else assoc k r
  end.

Fixpoint lookup (t : node) (key : location) : option node :=
  match key with
  | [] => Some t
  | k :: ks =>
      match t with
      | Dir es => match assoc k es with Some child => lookup child ks | None => None end
      | File _ => None
      end
  end.

(** Replace the entry [k], or add it after the last entry. *)
Fixpoint set_entry (k : pystr) (n : node) (es : list (pystr * node)) : list (pystr * node) :=
  match es with
  | [] => [(k, n)]
  | (k', n') :: r =>
      if pystr_eqb k' k then (k', n) :: r else (k', n') :: set_entry k n r
  end.

(** Put [n] at [key]; the parent of [key] must be a directory of the tree,
    otherwise nothing changes. *)
Fixpoint update (t : node) (key : location) (n : node) : node :=
  match key with
  | [] => n
  | k :: ks =>
      match t with
      | Dir es =>
          match assoc k es with
          | Some child => Dir (set_entry k (update child ks n) es)
          | None => match ks with [] => Dir (set_entry k n es) | _ :: _ => t end
          end
      | File _ => t
      end
  end.

(** The components of a path: the pieces between the slashes. *)
Fixpoint components (p : pystr) : list pystr :=
  match p with
  | [] => [[]]
  | c :: r =>
      if c =? sep then [] :: components r
      else match components r with
           | h :: t => (c :: h) :: t
           | [] => [[c]]
           end
  end.

(** What a path resolves to. *)
Inductive resolved : Type :=
| Found (key : location) (n : node)
    (* the path names the node [n], at [key] *)
| Missing (parent : location) (name : pystr) (trailing_slash : bool)
    (* the directory [parent] exists and has no entry [name] *)
| NoEntry      (* ENOENT *)
| NotDir.      (* ENOTDIR *)

Definition is_dot (c : pystr) : bool := pystr_eqb c [extsep].
Definition is_dotdot (c : pystr) : bool := pystr_eqb c [extsep; extsep].
Definition is_empty {A : Type} (l : list A) : bool :=
  match l with [] => true | _ :: _ => false end.

(** Path resolution, component by component, from the location [cur]. *)
Fixpoint walk (t : node) (cur : location) (comps : list pystr) : resolved :=
  match comps with
  | [] => match lookup t cur with Some n => Found cur n | None => NoEntry end
  | c :: rest =>
      match lookup t cur with
      | Some (Dir es) =>
          if is_empty c || is_dot c then walk t cur rest
          else if is_dotdot c then walk t (removelast cur) rest
          else
            match assoc c es with
            | Some _ => walk t (cur ++ [c]) rest
            | None =>
                if forallb is_empty rest
                then Missing cur c (negb (is_empty rest)) else NoEntry
            end
      | Some (File _) => NotDir
      | None => NoEntry
      end
  end.

Definition resolve (fs : filesystem) (p : pystr) : resolved :=
  match p with
  | [] => NoEntry
  | _ :: _ => walk (root fs) (if startswith p [sep] then [] else cwd fs) (components p)
  end.

(** [os.path.exists], [os.path.isfile], [os.path.isdir]. *)
Definition path_exists (fs : filesystem) (p : pystr) : bool :=
  match resolve fs p with Found _ _ => true | _ => false end.

Definition isfile (fs : filesystem) (p : pystr) : bool :=
  match resolve fs p with Found _ (File _) => true | _ => false end.

Definition isdir (fs : filesystem) (p : pystr) : bool :=
  match resolve fs p with Found _ (Dir _) => true | _ => false end.

(** The content of the regular file at [p], if there is one. *)
Definition read_file (fs : filesystem) (p : pystr) : option pystr :=
  match resolve fs p with Found _ (File data) => Some data | _ => None end.

Definition os_error (c : exn_class) (p : pystr) : exn := mk_exn c p.

(** [os.listdir(p)].  Of its errors the tree can give two: a missing entry
    and an entry that is no directory. *)
Definition os_listdir (fs : filesystem) (p : pystr) : outcome (list pystr) :=
  match resolve fs p with
  | Found _ (Dir es) => Ret (map fst es)
  | Found _ (File _) => Raise (os_error NotADirectoryError p)
  | NotDir => Raise (os_error NotADirectoryError p)
  | _ => Raise (os_error FileNotFoundError p)
  end.

(** [os.mkdir(p)]. *)
Definition os_mkdir (p : pystr) (fs : filesystem) : outcome unit * filesystem :=
  match resolve fs p with
  | Found _ _ => (Raise (os_error FileExistsError p), fs)
  | Missing parent name _ =>
      (Ret tt, mk_fs (update (root fs) (parent ++ [name]) (Dir [])) (cwd fs))
  | NoEntry => (Raise (os_error FileNotFoundError p), fs)
  | NotDir => (Raise (os_error NotADirectoryError p), fs)
  end.

(** The last step of [os.makedirs]: [os.mkdir(name)], where an [OSError] is
    passed over when [exist_ok] holds and [name] is a directory. *)
Definition mkdir_exist_ok (name : pystr) (exist_ok : bool) (fs : filesystem)
  : outcome unit * filesystem :=
  match os_mkdir name fs with
  | (Raise e, fs') =>
      (* except OSError *)
      if negb exist_ok || negb (isdir fs' name) then (Raise e, fs') else (Ret tt, fs')
  | r => r
  end.

(** The head and the tail [os.makedirs] works with: [os.path.split(name)],
    and the split of the head when the tail is empty. *)
Definition makedirs_parts (name : pystr) : pystr * pystr :=
  let (head, tail) := split name in
  if is_empty tail then split head else (head, tail).

(** [os.makedirs(name, exist_ok=exist_ok)], as in [os.py]: create the head
    of the path first when it does not exist, then the directory itself.
    The recursion is on the head, which is shorter than [name]; [fuel]
    bounds it. *)
Fixpoint makedirs_rec (fuel : nat) (name : pystr) (exist_ok : bool) (fs : filesystem)
  : outcome unit * filesystem :=
  let (head, tail) := makedirs_parts name in
  if negb (is_empty head) && negb (is_empty tail) && negb (path_exists fs head) then
    match fuel with
    | O => (NoFuel, fs)
    | S fuel' =>
        match makedirs_rec fuel' head exist_ok fs with
        | (Ret _, fs1) =>
            (* xxx/newdir/. exists if xxx/newdir exists *)
            if is_dot tail then (Ret tt, fs1) else mkdir_exist_ok name exist_ok fs1
        | (Raise e, fs1) =>
            match class_of e with
            | FileExistsError =>
                if is_dot tail then (Ret tt, fs1) else mkdir_exist_ok name exist_ok fs1
            | _ => (Raise e, fs1)
            end
        | (NoFuel, fs1) => (NoFuel, fs1)
        end
    end
  else mkdir_exist_ok name exist_ok fs.

Definition os_makedirs (name : pystr) (exist_ok : bool) (fs : filesystem)
  : outcome unit * filesystem :=
  makedirs_rec (List.length name) name exist_ok fs.

(** [open(p, "w", encoding="utf-8")]: the file is created, or emptied when
    it exists.  The file object is the location of the file. *)
Definition open_w (p : pystr) (fs : filesystem) : outcome location * filesystem :=
  match resolve fs p with
  | Found key (File _) => (Ret key, mk_fs (update (root fs) key (File [])) (cwd fs))
  | Found _ (Dir _) => (Raise (os_error IsADirectoryError p), fs)
  | Missing parent name false =>
      (Ret (parent ++ [name]),
       mk_fs (update (root fs) (parent ++ [name]) (File [])) (cwd fs))
  | Missing _ _ true => (Raise (os_error IsADirectoryError p), fs)
  | NoEntry => (Raise (os_error FileNotFoundError p), fs)
  | NotDir => (Raise (os_error NotADirectoryError p), fs)
  end.

(** [f.write(text)] on a file opened by [open_w]: the text is added at the
    end of the file. *)
Definition file_write (f : location) (text : pystr) (fs : filesystem) : filesystem :=
  match lookup (root fs) f with
  | Some (File data) => mk_fs (update (root fs) f (File (data ++ text))) (cwd fs)
  | _ => fs
  end.

(* ================================================================== *)
(** ** The environment of the script *)
(* ================================================================== *)

(** The processing state of an uploaded file, as the remote service reports
    it. *)
Inductive file_state : Type :=
| StateProcessing
| StateActive
| StateFailed.

(** The handle of an uploaded file. *)
Record UploadedAsset : Type := mk_asset {
  asset_name : pystr;
  asset_mime_type : pystr
}.

(** What the upload call returns: one handle, or a list of handles. *)
Inductive upload_value : Type :=
| SingleFile (f : UploadedAsset)
| FileList (l : list UploadedAsset).

(** [if not isinstance(uploaded_parts, list): uploaded_parts = [uploaded_parts]]. *)
Definition ensure_list (uploaded_parts : upload_value) : list UploadedAsset :=
  match uploaded_parts with
  | SingleFile f => [f]      (* not a list: wrapped in a list *)
  | FileList l => l          (* a list already *)
  end.

(** [genai.GenerativeModel(model_name=..., generation_config=...,
    system_instruction=...)]. *)
Record GenerativeModel {FM : FloatModel} : Type := mk_model {
  gm_model_name : pystr;
  gm_generation_config : json;
  gm_system_instruction : pystr
}.

Arguments mk_model {FM} gm_model_name gm_generation_config gm_system_instruction.
Arguments gm_model_name {FM} g.
Arguments gm_generation_config {FM} g.
Arguments gm_system_instruction {FM} g.

(** One entry of a chat history: [{"role": ..., "parts": ...}]. *)
Record Content : Type := mk_content {
  role : pystr;
  parts : list UploadedAsset
}.

(** [model.start_chat(history=...)]. *)
Record ChatSession {FM : FloatModel} : Type := mk_chat {
  chat_model : GenerativeModel;
  history : list Content
}.

Arguments mk_chat {FM} chat_model history.
Arguments chat_model {FM} c.
Arguments history {FM} c.

(** The response of [send_message]; reading [response.text] can raise. *)
Record Response : Type := mk_response {
  text : outcome pystr
}.

(** What the script does not define itself: content-type guessing by file
    name, and the remote service with a state of its own.  Every remote
    call can return, raise any exception, or never return. *)
Record Env {FM : FloatModel} : Type := mk_env {
  guess_type : pystr -> option pystr;
    (* [mimetypes.guess_type(path)[0]] *)
  Remote : Type;
  remote_upload : filesystem -> pystr -> pystr -> Remote -> outcome upload_value * Remote;
    (* storing the bytes of a local file, tagged with a MIME type *)
  remote_get_state : UploadedAsset -> Remote -> outcome file_state * Remote;
    (* one readiness poll *)
  remote_sleep : Remote -> outcome unit * Remote;
    (* the wait between two polls *)
  remote_send_message : ChatSession -> pystr -> Remote -> outcome Response * Remote
    (* one turn of a chat session *)
}.

Arguments mk_env {FM} guess_type Remote remote_upload remote_get_state remote_sleep
  remote_send_message.
Arguments guess_type {FM} e path.
Arguments Remote {FM} e.
Arguments remote_upload {FM} e fs path mime_type r.
Arguments remote_get_state {FM} e file r.
Arguments remote_sleep {FM} e r.
Arguments remote_send_message {FM} e chat prompt r.

(** The calls to the remote side, in the order they were made, with their
    results. *)
Inductive event : Type :=
| EvUpload (path mime_type : pystr) (result : outcome upload_value)
| EvGetState (file : UploadedAsset) (result : outcome file_state)
| EvSleep
| EvStartChat (history_parts : list UploadedAsset)
| EvSendMessage (history_parts : list UploadedAsset) (prompt : pystr)
    (result : outcome Response).

(** The lines [logging] writes. *)
Inductive level : Type := INFO | WARNING | ERROR.
Definition log_record : Type := (level * pystr)%type.

(** *** Reading the calls

    A scan of the calls keeps the handles of the last upload, as the list
    the script makes of them, and the handles that reported the ready state
    since the last wait, the last upload or the last poll with another
    answer.  A chat that uses handles passes the scan only if they are the
    handles of the last upload and a round of polls has just reported each
    of them ready. *)

Definition asset_eqb (a b : UploadedAsset) : bool :=
  pystr_eqb (asset_name a) (asset_name b)
  && pystr_eqb (asset_mime_type a) (asset_mime_type b).

Fixpoint assets_eqb (l1 l2 : list UploadedAsset) : bool :=
  match l1, l2 with
  | [], [] => true
  | a :: r1, b :: r2 => asset_eqb a b && assets_eqb r1 r2
  | _, _ => false
  end.

Record readiness : Type := mk_readiness {
  awaited : option (list UploadedAsset);
  ready_now : list UploadedAsset
}.

Definition scan_chat (k : readiness) (history_parts : list UploadedAsset) : option readiness :=
  match awaited k with
  | Some l =>
      if assets_eqb l history_parts && assets_eqb (ready_now k) history_parts
      then Some k else None
  | None => None
  end.

Definition scan_event (k : readiness) (ev : event) : option readiness :=
  match ev with
  | EvUpload _ _ (Ret v) => Some (mk_readiness (Some (ensure_list v)) [])
  | EvUpload _ _ _ => Some (mk_readiness None [])
  | EvGetState a (Ret StateActive) => Some (mk_readiness (awaited k) (ready_now k ++ [a]))
  | EvGetState _ _ => Some (mk_readiness (awaited k) [])
  | EvSleep => Some (mk_readiness (awaited k) [])
  | EvStartChat ps => scan_chat k ps
  | EvSendMessage ps _ _ => scan_chat k ps
  end.

Fixpoint scan_events (k : readiness) (evs : list event) : option readiness :=
  match evs with
  | [] => Some k
  | ev :: rest =>
      match scan_event k ev with
      | Some k' => scan_events k' rest
      | None => None
      end
  end.

(** No chat of the trace uses handles before their readiness wait is over. *)
Definition ready_before_chat (evs : list event) : bool :=
  match scan_events (mk_readiness None []) evs with
  | Some _ => true
  | None => false
  end.

Section Script.
Context {FM : FloatModel}.
Variable E : Env.

(** Everything the script reads and changes. *)
Record State : Type := mk_state {
  fs : filesystem;
  log : list log_record;
  trace : list event;
  remote : Remote E
}.

(** A piece of the script: from a state to an outcome and a state.  A
    raised exception keeps the changes made before it. *)
Definition M (A : Type) : Type := State -> outcome A * State.

Definition ret {A : Type} (a : A) : M A := fun st => (Ret a, st).

Definition bind {A B : Type} (m : M A) (k : A -> M B) : M B :=
  fun st =>
    match m st with
    | (Ret a, st') => k a st'
    | (Raise e, st') => (Raise e, st')
    | (NoFuel, st') => (NoFuel, st')
    end.

Definition raise {A : Type} (e : exn) : M A := fun st => (Raise e, st).

Definition no_fuel {A : Type} : M A := fun st => (NoFuel, st).

(** [try: body except Exception as e: handler(e)]. *)
Definition try_except_Exception (body : M unit) (handler : exn -> M unit) : M unit :=
  fun st =>
    match body st with
    | (Raise e, st') =>
        if is_Exception (class_of e) then handler e st' else (Raise e, st')
    | r => r
    end.

(** A pure computation that can raise. *)
Definition lift {A : Type} (r : outcome A) : M A := fun st => (r, st).

(** A file-system operation. *)
Definition on_fs {A : Type} (op : filesystem -> outcome A * filesystem) : M A :=
  fun st =>
    let (r, fs') := op (fs st) in
    (r, mk_state fs' (log st) (trace st) (remote st)).

(** A remote call; the event built from its result is recorded. *)
Definition on_remote {A : Type} (op : Remote E -> outcome A * Remote E)
    (ev : outcome A -> event) : M A :=
  fun st =>
    let (r, remote') := op (remote st) in
    (r, mk_state (fs st) (log st) (trace st ++ [ev r]) remote').

Definition record_event (ev : event) : M unit :=
  fun st => (Ret tt, mk_state (fs st) (log st) (trace st ++ [ev]) (remote st)).

Definition logging (l : level) (msg : pystr) : M unit :=
  fun st => (Ret tt, mk_state (fs st) (log st ++ [(l, msg)]) (trace st) (remote st)).

End Script.

Arguments mk_state {FM E} fs log trace remote.
Arguments fs {FM E} s.
Arguments log {FM E} s.
Arguments trace {FM E} s.
Arguments remote {FM E} s.
Arguments bind {FM E A B} m k.
Arguments try_except_Exception {FM E} body handler.
Arguments on_remote {FM E A} op ev.
Arguments ret {FM E A} a.
Arguments raise {FM E A} e.
Arguments no_fuel {FM E A}.
Arguments lift {FM E A} r.
Arguments on_fs {FM E A} op.
Arguments record_event {FM E} ev.
Arguments logging {FM E} l msg.

Notation "x <- m ;; k" := (bind m (fun x => k))
  (at level 61, m at next level, right associativity).
Notation "m ;;; k" := (bind m (fun _ => k))
  (at level 61, right associativity).

(* ================================================================== *)
(** ** main.py *)
(* ================================================================== *)

Section Main.
Context {FM : FloatModel}.
Variable E : Env.

(** [value.startswith(prefix)] where [value] may be [None]: the attribute
    lookup on [None] raises [AttributeError]. *)
Definition attr_startswith (value : option pystr) (prefix : pystr) : outcome bool :=
  match value with
  | Some s => Ret (startswith s prefix)
  | None =>
      Raise (mk_exn AttributeError (py "'NoneType' object has no attribute 'startswith'"))
  end.

(** The [for filename in os.listdir(directory)] loop of
    [get_audio_file_paths]. *)
Fixpoint audio_files_loop (fs : filesystem) (directory : pystr) (names : list pystr)
    (audio_files : list pystr) : outcome (list pystr) :=
  match names with
  | [] => Ret audio_files
  | filename :: names' =>
      let filepath := join directory filename in
      if isfile fs filepath then
        match attr_startswith (guess_type E filepath) (py "audio/") with
        | Ret true => audio_files_loop fs directory names' (audio_files ++ [filepath])
        | Ret false => audio_files_loop fs directory names' audio_files
        | Raise e => Raise e
        | NoFuel => NoFuel
        end
      else audio_files_loop fs directory names' audio_files
  end.

(** [get_audio_file_paths(directory)]. *)
Definition get_audio_file_paths (directory : pystr) (fs : filesystem) : outcome (list pystr) :=
  match os_listdir fs directory with
  | Ret names => audio_files_loop fs directory names []
  | Raise e => Raise e
  | NoFuel => NoFuel
  end.

(** Modelled from the spec: [upload_to_gemini] of [Functions/utils.py],
    which is not among the sources.  The upload operation takes a local
    file path and a MIME type string and returns one or more opaque asset
    handles. *)
Definition upload_to_gemini (path mime_type : pystr) : M E upload_value :=
  fun st =>
    on_remote (remote_upload E (fs st) path mime_type) (EvUpload path mime_type) st.

(** One round of polls over the handles: [true] when every handle reported
    the ready state; a handle in the failed state raises. *)
Fixpoint poll_round (files : list UploadedAsset) : M E bool :=
  match files with
  | [] => ret true
  | f :: rest =>
      s <- on_remote (remote_get_state E f) (EvGetState f) ;;
      match s with
      | StateFailed =>
          raise (mk_exn PlainException (py "File " ++ asset_name f ++ py " failed to process"))
      | StateActive => poll_round rest
      | StateProcessing => _ <- poll_round rest ;; ret false
      end
  end.

(** Modelled from the spec: [wait_for_files_active] of [Functions/utils.py],
    which is not among the sources.  The caller polls, with a wait between
    two polls, until all handles are in the ready state or any reaches the
    failed state; a failed handle is a processing error for the file.
    There is no timeout: [fuel] bounds the number of rounds the model
    follows. *)
Fixpoint wait_for_files_active (fuel : nat) (files : list UploadedAsset) : M E unit :=
  match fuel with
  | O => no_fuel
  | S fuel' =>
      ready <- poll_round files ;;
      if ready then ret tt
      else on_remote (remote_sleep E) (fun _ => EvSleep) ;;; wait_for_files_active fuel' files
  end.

(** [model.start_chat(history=history)]: builds the session, no request is
    sent yet. *)
Definition start_chat (model : GenerativeModel) (history : list Content) : M E ChatSession :=
  record_event (EvStartChat (flat_map parts history)) ;;;
  ret (mk_chat model history).

(** [chat_session.send_message(prompt)]. *)
Definition send_message (chat_session : ChatSession) (prompt : pystr) : M E Response :=
  on_remote (remote_send_message E chat_session prompt)
    (EvSendMessage (flat_map parts (history chat_session)) prompt).

(** The constants of [extract_json_from_audio]. *)
Definition generation_config : json :=
  JDict [(py "temperature", JFloat (float_of_literal (py "0.2")));
         (py "top_p", JFloat (float_of_literal (py "0.95")));
         (py "top_k", JInt 40);
         (py "max_output_tokens", JInt 8192);
         (py "response_mime_type", JStr (py "application/json"))].

Definition system_prompt : pystr := py "
        You are a highly accurate and reliable transcription and analysis system. Your primary purpose is to analyze audio files, extract the spoken content, and provide a precise transcription of the conversation. Ensure that the transcription:
        1. Clearly identifies different speakers when possible.
        2. Accurately captures spoken words, including pauses, filler words, and nuances where appropriate.
        3. Correctly handles technical terms, proper nouns, and contextual details.
        4. Retains formatting for readability while maintaining fidelity to the original speech.
        
        You should aim to deliver results optimized for clarity and accuracy, even in cases of overlapping dialogue, background noise, or accents.
    ".

(** The output path of one input file:
    [os.path.join(output_directory,
                  os.path.splitext(os.path.basename(file_path))[0] + ".json")]. *)
Definition json_path_of (output_directory file_path : pystr) : pystr :=
  join output_directory (fst (splitext (basename file_path)) ++ py ".json").

(** The body of the [try] block for one file. *)
Definition process_body (fuel : nat) (model : GenerativeModel)
    (_user_prompt output_directory file_path : pystr) : M E unit :=
  let mime_type := guess_type E file_path in
  is_audio <- lift (attr_startswith mime_type (py "audio/")) ;;
  if negb is_audio then
    logging WARNING (py "Skipping non-audio file: " ++ file_path)
    (* continue *)
  else
    let mime_type := match mime_type with Some t => t | None => [] end in
    logging INFO (py "Uploading: " ++ file_path) ;;;
    uploaded_parts <- upload_to_gemini file_path mime_type ;;
    let uploaded_parts := ensure_list uploaded_parts in
    wait_for_files_active fuel uploaded_parts ;;;
    chat_session <- start_chat model [mk_content (py "user") uploaded_parts] ;;
    response <- send_message chat_session _user_prompt ;;
    let json_path := json_path_of output_directory file_path in
    f <- on_fs (open_w json_path) ;;
    (* with the file open: *)
    response_text <- lift (text response) ;;
    obj <- lift (json_loads response_text) ;;
    on_fs (fun fs => (Ret tt, file_write f (json_dump_text obj 4) fs)) ;;;
    logging INFO (py "Saved transcription to: " ++ json_path).

(** One iteration of the loop: the [try] block and its handler. *)
Definition process_file (fuel : nat) (model : GenerativeModel)
    (_user_prompt output_directory file_path : pystr) : M E unit :=
  try_except_Exception
    (process_body fuel model _user_prompt output_directory file_path)
    (fun e => logging ERROR (py "Error processing " ++ file_path ++ py ": " ++ message e)).

(** [for file_path in tqdm(file_paths, ...)]. *)
Fixpoint process_files (fuel : nat) (model : GenerativeModel)
    (_user_prompt output_directory : pystr) (file_paths : list pystr) : M E unit :=
  match file_paths with
  | [] => ret tt
  | file_path :: rest =>
      process_file fuel model _user_prompt output_directory file_path ;;;
      process_files fuel model _user_prompt output_directory rest
  end.

(** [extract_json_from_audio(file_paths, _user_prompt, output_directory,
    model_name)]. *)
Definition extract_json_from_audio (fuel : nat) (file_paths : list pystr)
    (_user_prompt output_directory model_name : pystr) : M E unit :=
  let model := mk_model model_name generation_config system_prompt in
  on_fs (os_makedirs output_directory true) ;;;
  process_files fuel model _user_prompt output_directory file_paths.

(** The default of the parameter [model_name]. *)
Definition default_model_name : pystr := py "gemini-1.5-flash".

End Main.

(** The script run as a program: discovery in [AudioData], then the
    pipeline into [TextOutput]. *)
Definition user_prompt : pystr := py "
        Please analyze the provided audio file and transcribe the conversation with high accuracy.
        - Identify and label different speakers if discernible (e.g., Speaker 1, Speaker 2).
        - Capture all spoken words, including filler words (e.g., um, ah) and hesitations.
        - Ensure correct spelling of technical terms and proper nouns.
        - If overlapping speech occurs, indicate it clearly.
        - Provide timestamps at regular intervals or speaker changes for easy reference.
    ".

Definition main {FM : FloatModel} (E : Env) (fuel : nat) : M E unit :=
  fun st =>
    match get_audio_file_paths E (py "AudioData") (fs st) with
    | Ret audio_paths =>
        extract_json_from_audio E fuel audio_paths user_prompt (py "TextOutput")
          default_model_name st
    | Raise e => (Raise e, st)
    | NoFuel => (NoFuel, st)
    end.

(* ================================================================== *)
(** ** A concrete environment *)
(* ================================================================== *)

(** Environments given by tables, to run the model on examples. *)

(** A float model with the finite values [n + 0.5] only: [float_repr]
    writes [n.5], and [float] reads the integer part of a literal. *)
Definition half_repr (n : N) : pystr := digits_of_N n ++ [c_dot; 53].

Definition half_of_literal (s : pystr) : pyfloat N :=
  FFinite (N_of_digits (fst (span_digits s))).

Definition half_floats : FloatModel :=
  {| finite_float := N; float_repr := half_repr; float_of_literal := half_of_literal |}.

(** Content types by extension, as [mimetypes.guess_type] finds them in its
    table. *)
Fixpoint table_get (k : pystr) (t : list (pystr * pystr)) : option pystr :=
  match t with
  | [] => None
  | (k', v) :: r => if pystr_eqb k' k then Some v else table_get k r
  end.

Definition types_map : list (pystr * pystr) :=
  [(py ".wav", py "audio/x-wav"); (py ".mp3", py "audio/mpeg");
   (py ".flac", py "audio/x-flac"); (py ".txt", py "text/plain");
   (py ".json", py "application/json")].

Definition guess_by_extension (path : pystr) : option pystr :=
  table_get (snd (splitext path)) types_map.

(** A remote service that follows a script: the result of an upload is
    given by the path and the MIME type, the state of a handle by its name and the number of
    waits so far, the reply by the handles of the chat.  Its state is the
    number of waits. *)
Definition scripted_env {FM : FloatModel}
    (uploads : pystr -> pystr -> outcome upload_value)
    (states : pystr -> nat -> outcome file_state)
    (sleeps : nat -> outcome unit)
    (replies : list UploadedAsset -> outcome Response) : Env :=
  {| guess_type := guess_by_extension;
     Remote := nat;
     remote_upload := fun _ path mime_type clock => (uploads path mime_type, clock);
     remote_get_state := fun a clock => (states (asset_name a) clock, clock);
     remote_sleep := fun clock => (sleeps clock, S clock);
     remote_send_message :=
       fun chat _ clock => (replies (flat_map parts (history chat)), clock) |}.

(** The directory of the end-to-end scenario of the specification, with a
    file without extension and a subdirectory besides. *)
Definition demo_tree : node :=
  Dir [(py "home",
        Dir [(py "project",
              Dir [(py "AudioData",
                    Dir [(py "call1.wav", File (py "RIFF"));
                         (py "notes.txt", File (py "notes"));
                         (py "call2.mp3", File (py "ID3"));
                         (py "archive", Dir [])]);
                   (py "Unsorted",
                    Dir [(py "call3.wav", File (py "RIFF"));
                         (py "README", File (py "read me"))])])])].

Definition demo_fs : filesystem := mk_fs demo_tree [py "home"; py "project"].

Definition asset_of (path mime_type : pystr) : UploadedAsset :=
  mk_asset (py "files/" ++ basename path) mime_type.

(** Uploads succeed with one handle, except for [call2.mp3], whose upload
    returns a list of two handles. *)
Definition demo_uploads (path mime_type : pystr) : outcome upload_value :=
  if pystr_eqb (basename path) (py "call2.mp3")
  then Ret (FileList [asset_of path mime_type; mk_asset (py "files/extra") mime_type])
  else Ret (SingleFile (asset_of path mime_type)).

(** [files/call1.wav] is ready after one wait; [files/extra] fails after
    two; [files/stuck] never leaves the processing state; every other
    handle is ready at once. *)
Definition demo_states (name : pystr) (clock : nat) : outcome file_state :=
  if pystr_eqb name (py "files/call1.wav") then
    Ret (match clock with O => StateProcessing | S _ => StateActive end)
  else if pystr_eqb name (py "files/extra") then
    Ret (match clock with O | S O => StateProcessing | _ => StateFailed end)
  else if pystr_eqb name (py "files/stuck") then Ret StateProcessing
  else Ret StateActive.

Definition demo_sleeps (clock : nat) : outcome unit := Ret tt.

(** The reply for [call1.wav] is the object of the scenario; the reply for
    [call3.wav] is not JSON; other replies hold a text with a character
    outside ASCII. *)
Definition demo_reply_call1 : pystr :=
  [c_lbrace; c_quote] ++ py "speakers" ++ [c_quote; c_colon; c_space; c_lbracket; c_quote]
  ++ py "S1" ++ [c_quote; c_rbracket; c_comma; c_space; c_quote] ++ py "text"
  ++ [c_quote; c_colon; c_space; c_quote] ++ py "hello" ++ [c_quote; c_rbrace].

Definition demo_reply_other : pystr :=
  [c_lbrace; c_quote] ++ py "text" ++ [c_quote; c_colon; c_quote; 233; 128512; c_quote;
   c_comma; c_quote] ++ py "t" ++ [c_quote; c_colon] ++ py "[12.5, -3]" ++ [c_rbrace].

Definition demo_replies (files : list UploadedAsset) : outcome Response :=
  match files with
  | f :: _ =>
      if pystr_eqb (asset_name f) (py "files/call1.wav")
      then Ret (mk_response (Ret demo_reply_call1))
      else if pystr_eqb (asset_name f) (py "files/call3.wav")
      then Ret (mk_response (Ret (py "Sorry, I cannot transcribe this.")))
      else Ret (mk_response (Ret demo_reply_other))
  | [] => Ret (mk_response (Ret (py "{}")))
  end.

Definition demo_env : @Env half_floats :=
  @scripted_env half_floats demo_uploads demo_states demo_sleeps demo_replies.

Definition demo_state : @State half_floats demo_env :=
  @mk_state half_floats demo_env demo_fs [] [] O.

(* ================================================================== *)
(** ** The scenario, continued *)
(* ================================================================== *)

(** The state of the scenario once the output directory is there. *)
Definition prepared_state : @State half_floats demo_env :=
  snd (@on_fs half_floats demo_env unit (os_makedirs (py "TextOutput") true) demo_state).

(** The uploads of the scenario, interrupted from the keyboard during the
    upload of [call1.wav]. *)
Definition interrupted_uploads (path mime_type : pystr) : outcome upload_value :=
  if pystr_eqb (basename path) (py "call1.wav")
  then Raise (mk_exn KeyboardInterrupt [])
  else demo_uploads path mime_type.

Definition interrupted_env : @Env half_floats :=
  @scripted_env half_floats interrupted_uploads demo_states demo_sleeps demo_replies.

Definition interrupted_state : @State half_floats interrupted_env :=
  @mk_state half_floats interrupted_env demo_fs [] [] O.

(* ================================================================== *)
(** ** Vocabulary of the statements *)
(* ================================================================== *)

(** *** Texts *)

(** A character of ASCII. *)
Definition is_ascii (c : N) : bool := c <? 128.

Definition ascii_str (s : pystr) : Prop := Forall (fun c => c < 128) s.

(** One step of reading a decimal numeral. *)
Definition add_digit (acc c : N) : N := 10 * acc + (c - 48).

(** Text that does not go on the number before it. *)
Definition no_digit_first (rest : pystr) : Prop :=
  match rest with [] => True | c :: _ => is_digit c = false end.

(** What follows a value in the text the encoder writes: nothing, a comma
    or a newline. *)
Definition delimited (rest : pystr) : Prop :=
  match rest with [] => True | c :: _ => c = 44 \/ c = 10 end.

(** The two surrogates the encoder writes for a code point above the basic
    plane. *)
Definition high_of (c : N) : N := N.lor 55296 (N.land (N.shiftr (c - 65536) 10) 1023).
Definition low_of (c : N) : N := N.lor 56320 (N.land (c - 65536) 1023).

(** No high surrogate is directly followed by a low one. *)
Fixpoint no_surrogate_pair (s : pystr) : bool :=
  match s with
  | c :: r =>
      negb (is_high_surrogate c
            && match r with c2 :: _ => is_low_surrogate c2 | [] => false end)
      && no_surrogate_pair r
  | [] => true
  end.

(** A string of code points of Unicode that the decoder does not change:
    see [json_ok]. *)
Definition str_ok (s : pystr) : bool :=
  forallb (fun c => c <? 1114112) s && no_surrogate_pair s.

(** The local function [emit] of [scanstring]. *)
Definition emit (c : N) (r : option (pystr * pystr)) : option (pystr * pystr) :=
  match r with
  | Some (str, rest) => Some (c :: str, rest)
  | None => None
  end.

(** what may follow the escape of a high surrogate *)
Definition not_low_escape (T : pystr) : Prop :=
  startswith T [92; 117] = true ->
  exists g1 g2 g3 g4 T' u2,
    T = 92 :: 117 :: g1 :: g2 :: g3 :: g4 :: T'
    /\ hex4_value g1 g2 g3 g4 = Some u2 /\ is_low_surrogate u2 = false.

(** The keys differ from one another. *)
Fixpoint keys_unique (keys : list pystr) : bool :=
  match keys with
  | [] => true
  | k :: r => negb (existsb (pystr_eqb k) r) && keys_unique r
  end.

(** not white space, and none of the closing brackets *)
Definition opens_value (c : N) : Prop :=
  is_ws c = false /\ c <> 93 /\ c < 128.

(** a number starts with a minus sign or a digit *)
Definition starts_number (s : pystr) : Prop :=
  exists c t, s = c :: t /\ (c = 45 \/ is_digit c = true).

(** *** JSON values *)

Section JsonInd.
Context {FM : FloatModel}.
Variable P : json -> Prop.
Hypothesis Hnull : P JNull.
Hypothesis Hbool : forall b, P (JBool b).
Hypothesis Hint : forall z, P (JInt z).
Hypothesis Hfloat : forall f, P (JFloat f).
Hypothesis Hstr : forall s, P (JStr s).
Hypothesis Hlist : forall l, Forall P l -> P (JList l).
Hypothesis Hdict : forall d, Forall (fun kv => P (snd kv)) d -> P (JDict d).

(** Induction on a value with the induction hypothesis for every item of a
    list and every value of an object. *)
Fixpoint json_induction (o : json) : P o :=
  match o with
  | JNull => Hnull
  | JBool b => Hbool b
  | JInt z => Hint z
  | JFloat f => Hfloat f
  | JStr s => Hstr s
  | JList l =>
      Hlist l ((fix all (l : list json) : Forall P l :=
                  match l with
                  | [] => Forall_nil P
                  | x :: r => Forall_cons x (json_induction x) (all r)
                  end) l)
  | JDict d =>
      Hdict d ((fix all (d : list (pystr * json)) : Forall (fun kv => P (snd kv)) d :=
                  match d with
                  | [] => Forall_nil _
                  | kv :: r => Forall_cons kv (json_induction (snd kv)) (all r)
                  end) d)
  end.

End JsonInd.

(** The number of values in a value: enough fuel for [scan_once]. *)
Fixpoint json_size {FM : FloatModel} (o : json) : nat :=
  match o with
  | JList l => S (list_sum (map json_size l))
  | JDict d => S (list_sum (map (fun kv => json_size (snd kv)) d))
  | _ => 1
  end.

(** A value [json.loads] can give back: its strings hold code points of
    Unicode, none holds a high surrogate directly followed by a low one
    (the decoder would join the two escapes), and the keys of an object
    differ. *)
Fixpoint json_ok {FM : FloatModel} (o : json) : bool :=
  match o with
  | JStr s => str_ok s
  | JList l => forallb json_ok l
  | JDict d =>
      forallb (fun kv => str_ok (fst kv) && json_ok (snd kv)) d
      && keys_unique (map fst d)
  | _ => true
  end.

Section FloatLaws.
Context {FM : FloatModel}.

(** what the model asks of [float.__repr__]: the text is a JSON number with
    a fraction or an exponent *)
Definition float_repr_lexical : Prop :=
  forall x, is_float_literal (float_repr x) = true.

(** what the model asks of [float]: reading the text of [repr] gives the
    number back *)
Definition float_repr_exact : Prop :=
  forall x, float_of_literal (float_repr x) = FFinite x.

End FloatLaws.

Section Encoded.
Context {FM : FloatModel}.
Variable scan : pystr -> option (json * pystr).
Variables indent level : nat.

(** what follows an item of an encoded array *)
Definition after_items (l : list json) (rest : pystr) : pystr :=
  match l with
  | [] => newline_indent indent level ++ 93 :: rest
  | _ => 44 :: newline_indent indent (S level)
         ++ join_with (44 :: newline_indent indent (S level))
              (map (iterencode indent (S level)) l)
         ++ newline_indent indent level ++ 93 :: rest
  end.

(** the scanner reads back the encoding of [y] *)
Definition reads_back (y : json) : Prop :=
  forall r, delimited r -> scan (iterencode indent (S level) y ++ r) = Some (y, r).

(** The text of one entry of an object. *)
Definition entry (kv : pystr * json) : pystr :=
  encode_basestring_ascii (fst kv) ++ 58 :: 32 :: iterencode indent (S level) (snd kv).

(** what follows an entry of an encoded object *)
Definition after_entries (d : list (pystr * json)) (rest : pystr) : pystr :=
  match d with
  | [] => newline_indent indent level ++ 125 :: rest
  | _ => 44 :: newline_indent indent (S level)
         ++ join_with (44 :: newline_indent indent (S level)) (map entry d)
         ++ newline_indent indent level ++ 125 :: rest
  end.

(** the scanner reads back the key and the value of an entry *)
Definition entry_reads_back (kv : pystr * json) : Prop :=
  str_ok (fst kv) = true /\ reads_back (snd kv).

End Encoded.

(** *** The file system *)

(** [key] can be created or replaced in [t]: its parent is a directory. *)
Definition parent_is_dir (t : node) (key : location) : Prop :=
  match key with
  | [] => True
  | _ :: _ => exists es, lookup t (removelast key) = Some (Dir es)
  end.

(** The nodes at [k] before and after a change are the same, or both are
    directories. *)
Definition alike (o o' : option node) : Prop :=
  o' = o \/ exists es es', o = Some (Dir es) /\ o' = Some (Dir es').

(** [a] is the beginning of [b]. *)
Fixpoint is_prefix (a b : location) : bool :=
  match a, b with
  | [], _ => true
  | x :: a', y :: b' => pystr_eqb x y && is_prefix a' b'
  | _ :: _, [] => false
  end.

(** The regular files of [fs'] are those of [fs], with the same content. *)
Definition same_files (fs fs' : filesystem) : Prop :=
  cwd fs' = cwd fs
  /\ forall key data,
       lookup (root fs') key = Some (File data) <-> lookup (root fs) key = Some (File data).

(** *** Runs of the script *)

(** The events of a readiness wait. *)
Definition is_poll (ev : event) : Prop :=
  match ev with EvGetState _ _ | EvSleep => True | _ => False end.

(** A poll that finds the handle ready. *)
Definition active_poll (f : UploadedAsset) : event := EvGetState f (Ret StateActive).

(** A poll that finds the handle failed. *)
Definition failed_poll (ev : event) : Prop :=
  match ev with EvGetState _ (Ret StateFailed) => True | _ => False end.

(** a poll of one of the handles [files], or a wait between two rounds *)
Definition poll_of (files : list UploadedAsset) (ev : event) : Prop :=
  match ev with
  | EvGetState a _ => In a files
  | EvSleep => True
  | _ => False
  end.

Section Runs.
Context {FM : FloatModel}.
Variable E : Env.

(** The model [extract_json_from_audio] builds. *)
Definition the_model (model_name : pystr) : GenerativeModel :=
  mk_model model_name generation_config system_prompt.

(** The state after the handler of the loop has logged [e] for
    [file_path]. *)
Definition log_error (file_path : pystr) (e : exn) (st : State E) : State E :=
  mk_state (fs st) (log st ++ [(ERROR, py "Error processing " ++ file_path ++ py ": " ++ message e)])
    (trace st) (remote st).

(** same file system and log, and a longer trace *)
Definition extends (st st' : State E) (evs : list event) : Prop :=
  fs st' = fs st /\ log st' = log st /\ trace st' = trace st ++ evs.

(** The possible runs of the [try] block, step by step. *)
Inductive replied_run (out fp : pystr) :
    outcome Response -> State E -> outcome unit -> State E -> Prop :=
| run_send_raises e st4 : replied_run out fp (Raise e) st4 (Raise e) st4
| run_send_hangs st4 : replied_run out fp NoFuel st4 NoFuel st4
| run_open_fails response st4 ro fs5 :
    open_w (json_path_of out fp) (fs st4) = (ro, fs5) ->
    (forall f, ro <> Ret f) ->
    replied_run out fp (Ret response) st4
      (match ro with Raise e => Raise e | _ => NoFuel end)
      (mk_state fs5 (log st4) (trace st4) (remote st4))
| run_text_fails response st4 f fs5 :
    open_w (json_path_of out fp) (fs st4) = (Ret f, fs5) ->
    (forall t, text response <> Ret t) ->
    replied_run out fp (Ret response) st4
      (match text response with Raise e => Raise e | _ => NoFuel end)
      (mk_state fs5 (log st4) (trace st4) (remote st4))
| run_json_fails response st4 f fs5 t e :
    open_w (json_path_of out fp) (fs st4) = (Ret f, fs5) ->
    text response = Ret t ->
    json_loads t = Raise e ->
    replied_run out fp (Ret response) st4 (Raise e)
      (mk_state fs5 (log st4) (trace st4) (remote st4))
| run_saved response st4 f fs5 t obj :
    open_w (json_path_of out fp) (fs st4) = (Ret f, fs5) ->
    text response = Ret t ->
    json_loads t = Ret obj ->
    replied_run out fp (Ret response) st4 (Ret tt)
      (mk_state (file_write f (json_dump_text obj 4) fs5)
         (log st4 ++ [(INFO, py "Saved transcription to: " ++ json_path_of out fp)])
         (trace st4) (remote st4)).

Inductive waited_run (model : GenerativeModel) (prompt out fp : pystr) (files : list UploadedAsset) :
    outcome unit -> State E -> outcome unit -> State E -> Prop :=
| run_wait_raises e st2 : waited_run model prompt out fp files (Raise e) st2 (Raise e) st2
| run_wait_hangs st2 : waited_run model prompt out fp files NoFuel st2 NoFuel st2
| run_chatting st2 rs st4 r st' :
    send_message E (mk_chat model [mk_content (py "user") files]) prompt
      (mk_state (fs st2) (log st2) (trace st2 ++ [EvStartChat files]) (remote st2))
    = (rs, st4) ->
    replied_run out fp rs st4 r st' ->
    waited_run model prompt out fp files (Ret tt) st2 r st'.

Inductive uploaded_run (fuel : nat) (model : GenerativeModel) (prompt out fp : pystr) :
    outcome upload_value -> State E -> outcome unit -> State E -> Prop :=
| run_upload_raises e st1 : uploaded_run fuel model prompt out fp (Raise e) st1 (Raise e) st1
| run_upload_hangs st1 : uploaded_run fuel model prompt out fp NoFuel st1 NoFuel st1
| run_waiting v st1 rw st2 r st' :
    wait_for_files_active E fuel (ensure_list v) st1 = (rw, st2) ->
    waited_run model prompt out fp (ensure_list v) rw st2 r st' ->
    uploaded_run fuel model prompt out fp (Ret v) st1 r st'.

Inductive body_run (fuel : nat) (model : GenerativeModel) (prompt out fp : pystr)
    (st : State E) : outcome unit -> State E -> Prop :=
| run_no_type :
    guess_type E fp = None ->
    body_run fuel model prompt out fp st
      (Raise (mk_exn AttributeError (py "'NoneType' object has no attribute 'startswith'"))) st
| run_skipped t :
    guess_type E fp = Some t -> startswith t (py "audio/") = false ->
    body_run fuel model prompt out fp st (Ret tt)
      (mk_state (fs st) (log st ++ [(WARNING, py "Skipping non-audio file: " ++ fp)])
         (trace st) (remote st))
| run_uploading t ru st1 r st' :
    guess_type E fp = Some t -> startswith t (py "audio/") = true ->
    upload_to_gemini E fp t
      (mk_state (fs st) (log st ++ [(INFO, py "Uploading: " ++ fp)]) (trace st) (remote st))
    = (ru, st1) ->
    uploaded_run fuel model prompt out fp ru st1 r st' ->
    body_run fuel model prompt out fp st r st'.

(** the reference classification: a regular file whose guessed content type
    starts with the audio prefix; an undeterminable type counts as not audio *)
Definition audio_entry (fs : filesystem) (filepath : pystr) : bool :=
  isfile fs filepath
  && match guess_type E filepath with
     | Some t => startswith t (py "audio/")
     | None => false
     end.

(** a regular file whose content type cannot be determined *)
Definition untyped_file (fs : filesystem) (filepath : pystr) : Prop :=
  isfile fs filepath = true /\ guess_type E filepath = None.

End Runs.

(* ================================================================== *)
(** ** More of the scenario and of the vocabulary *)
(* ================================================================== *)

(** A working directory whose [AudioData] holds an audio file and a file
    without an extension. *)
Definition stray_fs : filesystem :=
  mk_fs (Dir [(py "AudioData",
               Dir [(py "call1.wav", File (py "RIFF"));
                    (py "README", File (py "read me"))])])
        [].

(** The start of the script in that directory. *)
Definition stray_state : @State half_floats demo_env :=
  @mk_state half_floats demo_env stray_fs [] [] O.

(** A reply whose text is a string of the two surrogates of an emoji, as
    characters of their own between the double quotes. *)
Definition surrogate_reply : pystr := [34; 55357; 56832; 34].

Definition surrogate_replies (files : list UploadedAsset) : outcome Response :=
  Ret (mk_response (Ret surrogate_reply)).

Definition surrogate_env : @Env half_floats :=
  @scripted_env half_floats demo_uploads demo_states demo_sleeps surrogate_replies.

(** The scenario with that service, once the output directory is there. *)
Definition surrogate_state : @State half_floats surrogate_env :=
  @mk_state half_floats surrogate_env
    (snd (os_makedirs (py "TextOutput") true demo_fs)) [] [] O.

(** The text of the output file for the reply of the scenario. *)
Definition call1_text : pystr :=
  [123; 10] ++ py "    " ++ [34] ++ py "speakers" ++ [34] ++ py ": [" ++ [10]
  ++ py "        " ++ [34] ++ py "S1" ++ [34; 10]
  ++ py "    ]," ++ [10]
  ++ py "    " ++ [34] ++ py "text" ++ [34] ++ py ": " ++ [34] ++ py "hello" ++ [34; 10; 125].

(** The text of the output file for the reply with an accented letter and
    an emoji. *)
Definition memo_text : pystr :=
  [123; 10] ++ py "    " ++ [34] ++ py "text" ++ [34] ++ py ": "
  ++ [34] ++ py "\u00e9\ud83d\ude00" ++ [34; 44; 10]
  ++ py "    " ++ [34] ++ py "t" ++ [34] ++ py ": [" ++ [10]
  ++ py "        12.5," ++ [10]
  ++ py "        -3" ++ [10]
  ++ py "    ]" ++ [10; 125].

(** The scenario after [AudioData/call1.flac] was processed: the output
    file [TextOutput/call1.json] is there already. *)
Definition reprocessed_state : @State half_floats demo_env :=
  snd (@process_body half_floats demo_env 5 (@the_model half_floats default_model_name)
         user_prompt (py "TextOutput") (py "AudioData/call1.flac") prepared_state).

(** *** Decoded strings *)

(** The steps of [scanstring]: [scanned s str rest] when the text [s],
    after an opening quote, holds the string [str] followed by [rest]. *)
Inductive scanned : pystr -> pystr -> pystr -> Prop :=
| scanned_end T : scanned (34 :: T) [] T
| scanned_raw c T str rest :
    c <> 34 -> c <> 92 -> 32 <= c ->
    scanned T str rest -> scanned (c :: T) (c :: str) rest
| scanned_short x ch T str rest :
    x <> 117 -> backslash_escape x = Some ch ->
    scanned T str rest -> scanned (92 :: x :: T) (ch :: str) rest
| scanned_u h1 h2 h3 h4 uni T str rest :
    hex4_value h1 h2 h3 h4 = Some uni ->
    is_high_surrogate uni && startswith T [92; 117] = false ->
    scanned T str rest ->
    scanned (92 :: 117 :: h1 :: h2 :: h3 :: h4 :: T) (uni :: str) rest
| scanned_pair h1 h2 h3 h4 uni g1 g2 g3 g4 uni2 T str rest :
    hex4_value h1 h2 h3 h4 = Some uni -> is_high_surrogate uni = true ->
    hex4_value g1 g2 g3 g4 = Some uni2 -> is_low_surrogate uni2 = true ->
    scanned T str rest ->
    scanned (92 :: 117 :: h1 :: h2 :: h3 :: h4 :: 92 :: 117 :: g1 :: g2 :: g3 :: g4 :: T)
      (join_surrogates uni uni2 :: str) rest
| scanned_high h1 h2 h3 h4 uni g1 g2 g3 g4 uni2 T str rest :
    hex4_value h1 h2 h3 h4 = Some uni -> is_high_surrogate uni = true ->
    hex4_value g1 g2 g3 g4 = Some uni2 -> is_low_surrogate uni2 = false ->
    scanned (92 :: 117 :: g1 :: g2 :: g3 :: g4 :: T) str rest ->
    scanned (92 :: 117 :: h1 :: h2 :: h3 :: h4 :: 92 :: 117 :: g1 :: g2 :: g3 :: g4 :: T)
      (uni :: str) rest.

(** A character a text decoded from UTF-8 can hold: a code point of Unicode
    that is not a surrogate. *)
Definition is_scalar (c : N) : bool := (c <? 1114112) && negb (is_surrogate c).

(** A text of such characters. *)
Definition scalar_text (s : pystr) : bool := forallb is_scalar s.

Section DecodedValues.
Context {FM : FloatModel}.
Variable scan : pystr -> option (json * pystr).

(** The keys and values of the entries are as [json_ok] asks. *)
Definition entries_ok (d : list (pystr * json)) : bool :=
  forallb (fun kv => str_ok (fst kv) && json_ok (snd kv)) d.

(** the scanner gives values as [json_ok] asks and leaves a text of scalar
    values *)
Definition scans_ok : Prop :=
  forall s obj rest,
    scan s = Some (obj, rest) -> scalar_text s = true ->
    json_ok obj = true /\ scalar_text rest = true.

End DecodedValues.

(** *** Output names and uploads *)

(** The name of the output file of [file_path]. *)
Definition output_name (file_path : pystr) : pystr :=
  fst (splitext (basename file_path)) ++ py ".json".

(** The calls of [upload_to_gemini] among the events: the path and the
    MIME type of each. *)
Definition uploads_of (evs : list event) : list (pystr * pystr) :=
  flat_map (fun ev => match ev with
                      | EvUpload path mime_type _ => [(path, mime_type)]
                      | _ => []
                      end) evs.

Section Uploads.
Context {FM : FloatModel}.
Variable E : Env.

(** The guessed type of a path when it is an audio type. *)
Definition audio_type (file_path : pystr) : option pystr :=
  match guess_type E file_path with
  | Some t => if startswith t (py "audio/") then Some t else None
  | None => None
  end.

(** The uploads a list of paths asks for: the paths of an audio type, each
    with its type. *)
Definition audio_uploads (file_paths : list pystr) : list (pystr * pystr) :=
  flat_map (fun p => match audio_type p with Some t => [(p, t)] | None => [] end)
    file_paths.

End Uploads.

(** *** Written texts *)

(** The strings of a value: the string values and the keys of the objects,
    at every depth. *)
Fixpoint strings_of {FM : FloatModel} (o : json) : list pystr :=
  match o with
  | JStr s => [s]
  | JList l => flat_map strings_of l
  | JDict d => flat_map (fun kv => fst kv :: strings_of (snd kv)) d
  | _ => []
  end.

(** [piece] is written somewhere in [text]. *)
Definition written_in (piece text : pystr) : Prop :=
  exists before after, text = before ++ piece ++ after.

(** The number of spaces a text starts with. *)
Fixpoint leading_spaces (s : pystr) : nat :=
  match s with
  | c :: r => if c =? 32 then S (leading_spaces r) else O
  | [] => O
  end.

(** The indentation of every line of a text after the first: for each
    newline, the number of spaces that follow it. *)
Fixpoint indents (s : pystr) : list nat :=
  match s with
  | c :: r => if c =? 10 then leading_spaces r :: indents r else indents r
  | [] => []
  end.

(** The indentation a value asks for when each level of nesting is worth
    [indent] spaces: an item of a list or an entry of an object starts a
    line one level deeper, the closing bracket starts a line at the level of
    the opening one, and nothing else starts a line. *)
Fixpoint line_indents {FM : FloatModel} (indent level : nat) (o : json) : list nat :=
  match o with
  | JList l =>
      match l with
      | [] => []
      | _ => flat_map (fun x => (indent * S level)%nat :: line_indents indent (S level) x) l
             ++ [(indent * level)%nat]
      end
  | JDict d =>
      match d with
      | [] => []
      | _ => flat_map (fun kv => (indent * S level)%nat
                                 :: line_indents indent (S level) (snd kv)) d
             ++ [(indent * level)%nat]
      end
  | _ => []
  end.

(** No control character, so no newline. *)
Definition no_control (s : pystr) : Prop := Forall (fun c => 32 <= c) s.

(** *** Paths of plain names *)

(** A name of a directory entry: not empty, neither [.] nor [..], and
    without a slash. *)
Definition plain_name (n : pystr) : bool :=
  negb (is_empty n) && negb (is_dot n) && negb (is_dotdot n)
  && negb (existsb (N.eqb sep) n).

(** The relative path [n1/n2/.../nk]. *)
Definition path_of (names : list pystr) : pystr := join_with [sep] names.

(** The paths [n1], [n1/n2], ..., [n1/.../nk]: the parents of a path, and
    the path. *)
Definition prefixes (names : list pystr) : list pystr :=
  map (fun k => path_of (firstn k names)) (seq 1 (List.length names)).

(* ================================================================== *)
(** * Properties *)
(* ================================================================== *)

(** ** The loop and its handler *)

Section PipelineFacts.
Context {FM : FloatModel}.
Variable E : Env.

Lemma process_file_caught fuel model prompt out fp st e st' :
  process_body E fuel model prompt out fp st = (Raise e, st') ->
  is_Exception (class_of e) = true ->
  process_file E fuel model prompt out fp st = (Ret tt, log_error E fp e st').
Proof.
  intros Hb He. unfold process_file, try_except_Exception. rewrite Hb, He. reflexivity.
Qed.

Lemma process_file_propagates fuel model prompt out fp st e st' :
  process_body E fuel model prompt out fp st = (Raise e, st') ->
  is_Exception (class_of e) = false ->
  process_file E fuel model prompt out fp st = (Raise e, st').
Proof.
  intros Hb He. unfold process_file, try_except_Exception. rewrite Hb, He. reflexivity.
Qed.

Lemma process_file_returns fuel model prompt out fp st st' :
  process_body E fuel model prompt out fp st = (Ret tt, st') ->
  process_file E fuel model prompt out fp st = (Ret tt, st').
Proof.
  intros Hb. unfold process_file, try_except_Exception. rewrite Hb. reflexivity.
Qed.

Lemma process_files_cons fuel model prompt out fp rest st :
  process_files E fuel model prompt out (fp :: rest) st =
  match process_file E fuel model prompt out fp st with
  | (Ret _, st') => process_files E fuel model prompt out rest st'
  | (Raise e, st') => (Raise e, st')
  | (NoFuel, st') => (NoFuel, st')
  end.
Proof. reflexivity. Qed.

Lemma process_files_app fuel model prompt out done rest st :
  process_files E fuel model prompt out (done ++ rest) st =
  match process_files E fuel model prompt out done st with
  | (Ret _, st') => process_files E fuel model prompt out rest st'
  | (Raise e, st') => (Raise e, st')
  | (NoFuel, st') => (NoFuel, st')
  end.
Proof.
  revert st. induction done as [|fp done IH]; intros st.
  - reflexivity.
  - rewrite <- app_comm_cons, !process_files_cons.
    destruct (process_file E fuel model prompt out fp st) as [[[]|e|] st1]; auto.
Qed.

(** the loop never ends with an exception of class Exception *)
Lemma process_file_never_Exception fuel model prompt out fp st e st' :
  process_file E fuel model prompt out fp st = (Raise e, st') ->
  is_Exception (class_of e) = false.
Proof.
  unfold process_file, try_except_Exception.
  destruct (process_body E fuel model prompt out fp st) as [[[]|e0|] st1]; try discriminate.
  destruct (is_Exception (class_of e0)) eqn:He.
  - discriminate.
  - intros [= <- <-]. exact He.
Qed.

Lemma process_files_never_Exception fuel model prompt out paths st e st' :
  process_files E fuel model prompt out paths st = (Raise e, st') ->
  is_Exception (class_of e) = false.
Proof.
  revert st. induction paths as [|fp rest IH]; intros st.
  - discriminate.
  - rewrite process_files_cons.
    destruct (process_file E fuel model prompt out fp st) as [[[]|e0|] st1] eqn:Hf.
    + apply IH.
    + intros [= <- <-]. eapply process_file_never_Exception; eauto.
    + discriminate.
Qed.

End PipelineFacts.

(** ** The readiness wait *)

Section WaitFacts.
Context {FM : FloatModel}.
Variable E : Env.

Lemma extends_refl st : extends E st st [].
Proof. unfold extends. rewrite List.app_nil_r. auto. Qed.

Lemma extends_trans st1 st2 st3 e1 e2 :
  extends E st1 st2 e1 -> extends E st2 st3 e2 -> extends E st1 st3 (e1 ++ e2).
Proof.
  unfold extends. intros (A1 & B1 & C1) (A2 & B2 & C2).
  rewrite A2, B2, C2, A1, B1, C1, app_assoc. auto.
Qed.

Lemma on_remote_extends {A} (op : Remote E -> outcome A * Remote E) ev st r st' :
  on_remote op ev st = (r, st') -> extends E st st' [ev r].
Proof.
  unfold on_remote. destruct (op (remote st)) as [r0 rem']. intros [= <- <-].
  unfold extends. simpl. auto.
Qed.

Lemma poll_round_spec files : forall st r st',
  poll_round E files st = (r, st') ->
  exists evs, extends E st st' evs /\ Forall is_poll evs
    /\ (r = Ret true -> evs = map active_poll files)
    /\ (Exists failed_poll evs -> exists e, r = Raise e /\ is_Exception (class_of e) = true).
Proof.
  induction files as [|f rest IH]; intros st r st' H; simpl in H.
  - unfold ret in H. injection H as <- <-. exists []. split; [apply extends_refl|].
    split; [constructor|]. split; [reflexivity|]. intros X. inversion X.
  - unfold bind in H.
    destruct (on_remote (remote_get_state E f) (EvGetState f) st) as [r1 st1] eqn:H1.
    apply on_remote_extends in H1.
    destruct r1 as [s|e|].
    + destruct s.
      * (* processing *)
        unfold bind in H. destruct (poll_round E rest st1) as [r2 st2] eqn:H2.
        apply IH in H2. destruct H2 as (evs & X & P & _ & F).
        assert (Hst : st' = st2) by (destruct r2; unfold ret in H; congruence).
        subst st'.
        exists ([EvGetState f (Ret StateProcessing)] ++ evs).
        split; [eapply extends_trans; eauto|].
        split; [constructor; [exact I|exact P]|].
        split.
        -- intros ->. destruct r2; unfold ret in H; discriminate.
        -- intros Q. inversion Q as [? ? Q0|? ? Q0]; subst; [contradiction|].
           destruct (F Q0) as (e & -> & He). injection H as <-. eauto.
      * (* active *)
        apply IH in H. destruct H as (evs & X & P & A & F).
        exists ([EvGetState f (Ret StateActive)] ++ evs).
        split; [eapply extends_trans; eauto|].
        split; [constructor; [exact I|exact P]|].
        split.
        -- intros ->. simpl. rewrite A; reflexivity.
        -- intros Q. inversion Q; subst; [contradiction|]. auto.
      * (* failed *)
        unfold raise in H. injection H as <- <-.
        exists [EvGetState f (Ret StateFailed)]. split; [exact H1|].
        split; [constructor; [exact I|constructor]|].
        split; [discriminate|]. intros _. eexists; split; reflexivity.
    + injection H as <- <-. exists [EvGetState f (Raise e)]. split; [exact H1|].
      split; [constructor; [exact I|constructor]|].
      split; [discriminate|]. intros Q. inversion Q; subst; [contradiction|]. inversion H0.
    + injection H as <- <-. exists [EvGetState f NoFuel]. split; [exact H1|].
      split; [constructor; [exact I|constructor]|].
      split; [discriminate|]. intros Q. inversion Q; subst; [contradiction|]. inversion H0.
Qed.

(** a completed wait ends with a round in which every handle reported ready *)
Lemma wait_for_files_active_spec fuel : forall files st r st',
  wait_for_files_active E fuel files st = (r, st') ->
  exists evs, extends E st st' evs /\ Forall is_poll evs
    /\ (r = Ret tt -> exists before,
          evs = before ++ map active_poll files
          /\ (before = [] \/ exists b, before = b ++ [EvSleep]))
    /\ (Exists failed_poll evs -> exists e, r = Raise e /\ is_Exception (class_of e) = true).
Proof.
  induction fuel as [|fuel IH]; intros files st r st' H; simpl in H.
  - unfold no_fuel in H. injection H as <- <-. exists []. split; [apply extends_refl|].
    split; [constructor|]. split; [discriminate|]. intros X; inversion X.
  - unfold bind in H. destruct (poll_round E files st) as [r1 st1] eqn:H1.
    apply poll_round_spec in H1. destruct H1 as (evs1 & X1 & P1 & A1 & F1).
    destruct r1 as [[|]|e|].
    + (* all ready *)
      unfold ret in H. injection H as <- <-. exists evs1. split; [exact X1|].
      split; [exact P1|]. split.
      * intros _. exists []. rewrite A1 by reflexivity. auto.
      * intros Q. destruct (F1 Q) as (e & He & _). discriminate.
    + (* not yet: sleep and poll again *)
      unfold bind in H.
      destruct (on_remote (remote_sleep E) (fun _ => EvSleep) st1) as [r2 st2] eqn:H2.
      apply on_remote_extends in H2.
      assert (NF1 : ~ Exists failed_poll evs1).
      { intros Q. destruct (F1 Q) as (e & He & _). discriminate. }
      destruct r2 as [[]|e|].
      * apply IH in H. destruct H as (evs3 & X3 & P3 & A3 & F3).
        exists (evs1 ++ [EvSleep] ++ evs3).
        split; [eapply extends_trans; [exact X1|eapply extends_trans; eauto]|].
        split; [apply Forall_app; split; [exact P1|constructor; [exact I|exact P3]]|].
        split.
        -- intros R. destruct (A3 R) as (before & -> & Hb).
           exists (evs1 ++ [EvSleep] ++ before). split.
           ++ rewrite <- !app_assoc. reflexivity.
           ++ right. destruct Hb as [->|[b ->]].
              ** exists evs1. rewrite List.app_nil_r. reflexivity.
              ** exists (evs1 ++ [EvSleep] ++ b). rewrite <- !app_assoc. reflexivity.
        -- intros Q. apply Exists_app in Q. destruct Q as [Q|Q]; [contradiction|].
           inversion Q as [? ? Q0|? ? Q0]; subst; [contradiction|]. auto.
      * injection H as <- <-. exists (evs1 ++ [EvSleep]).
        split; [eapply extends_trans; eauto|].
        split; [apply Forall_app; split; [exact P1|constructor; [exact I|constructor]]|].
        split; [discriminate|].
        intros Q. apply Exists_app in Q. destruct Q as [Q|Q]; [contradiction|].
        inversion Q as [? ? Q0|? ? Q0]; subst; [contradiction|inversion Q0].
      * injection H as <- <-. exists (evs1 ++ [EvSleep]).
        split; [eapply extends_trans; eauto|].
        split; [apply Forall_app; split; [exact P1|constructor; [exact I|constructor]]|].
        split; [discriminate|].
        intros Q. apply Exists_app in Q. destruct Q as [Q|Q]; [contradiction|].
        inversion Q as [? ? Q0|? ? Q0]; subst; [contradiction|inversion Q0].
    + injection H as <- <-. exists evs1. split; [exact X1|]. split; [exact P1|].
      split; [discriminate|]. intros Q. destruct (F1 Q) as (e0 & [= <-] & He). eauto.
    + injection H as <- <-. exists evs1. split; [exact X1|]. split; [exact P1|].
      split; [discriminate|]. intros Q. destruct (F1 Q) as (e0 & [=] & _).
Qed.

End WaitFacts.

(** ** The runs of the [try] block *)

Section BodyFacts.
Context {FM : FloatModel}.
Variable E : Env.

Lemma bind_inv {A B} (m : M E A) (k : A -> M E B) st r st' :
  bind m k st = (r, st') ->
  (exists a st1, m st = (Ret a, st1) /\ k a st1 = (r, st'))
  \/ (exists e, m st = (Raise e, st') /\ r = Raise e)
  \/ (m st = (NoFuel, st') /\ r = NoFuel).
Proof.
  unfold bind. destruct (m st) as [[a|e|] st1].
  - intros H. left. eauto.
  - intros [= <- <-]. right. left. eauto.
  - intros [= <- <-]. right. right. eauto.
Qed.

Lemma lift_inv {A} (o : outcome A) st r st' :
  lift (E:=E) o st = (r, st') -> r = o /\ st' = st.
Proof. unfold lift. intros [= <- <-]. auto. Qed.

Lemma logging_inv l msg st r st' :
  logging (E:=E) l msg st = (r, st') ->
  r = Ret tt /\ st' = mk_state (fs st) (log st ++ [(l, msg)]) (trace st) (remote st).
Proof. unfold logging. intros [= <- <-]. auto. Qed.

Lemma upload_extends path mime st r st' :
  upload_to_gemini E path mime st = (r, st') -> extends E st st' [EvUpload path mime r].
Proof. unfold upload_to_gemini. apply on_remote_extends. Qed.

Lemma start_chat_inv model h st r st' :
  start_chat E model h st = (r, st') ->
  r = Ret (mk_chat model h) /\ extends E st st' [EvStartChat (flat_map parts h)].
Proof.
  unfold start_chat, bind, record_event, ret. simpl. intros [= <- <-].
  split; [reflexivity|]. unfold extends. simpl. auto.
Qed.

Lemma send_message_extends chat prompt st r st' :
  send_message E chat prompt st = (r, st') ->
  extends E st st' [EvSendMessage (flat_map parts (history chat)) prompt r].
Proof. unfold send_message. apply on_remote_extends. Qed.

Lemma on_fs_inv {A} (op : filesystem -> outcome A * filesystem) st r st' :
  on_fs (E:=E) op st = (r, st') ->
  exists fs', op (fs st) = (r, fs') /\ st' = mk_state fs' (log st) (trace st) (remote st).
Proof.
  unfold on_fs. destruct (op (fs st)) as [r0 fs']. intros [= <- <-]. eauto.
Qed.

Lemma json_loads_not_NoFuel t : json_loads t <> NoFuel.
Proof.
  unfold json_loads. destruct (startswith t [65279]); [discriminate|].
  destruct (scan_once _ _) as [[obj rest]|]; [|discriminate].
  destruct (skip_ws rest); discriminate.
Qed.

Lemma process_body_run fuel model prompt out fp st r st' :
  process_body E fuel model prompt out fp st = (r, st') ->
  body_run E fuel model prompt out fp st r st'.
Proof.
  unfold process_body. intros H.
  destruct (guess_type E fp) as [t|] eqn:G.
  - simpl in H. unfold bind, lift, logging, start_chat, record_event, ret, on_fs in H.
    destruct (startswith t (py "audio/")) eqn:A; simpl in H.
    + destruct (upload_to_gemini E fp t _) as [ru st1] eqn:U.
      eapply run_uploading; eauto.
      destruct ru as [v|e|]; [|injection H as <- <-; constructor..].
      destruct (wait_for_files_active E fuel (ensure_list v) st1) as [rw st2] eqn:W.
      eapply run_waiting; eauto.
      destruct rw as [[]|e|]; [|injection H as <- <-; constructor..].
      rewrite List.app_nil_r in H.
      match type of H with context [send_message ?a ?b ?c ?d] =>
        destruct (send_message a b c d) as [rs st4] eqn:S end.
      eapply run_chatting; eauto.
      destruct rs as [response|e|]; [|injection H as <- <-; constructor..].
      destruct (open_w (json_path_of out fp) (fs st4)) as [ro fs5] eqn:O.
      destruct ro as [f|e|].
      * destruct (text response) as [t0|e|] eqn:T.
        -- destruct (json_loads t0) as [obj|e|] eqn:J.
           ++ simpl in H. injection H as <- <-. eapply run_saved; eauto.
           ++ injection H as <- <-. eapply run_json_fails; eauto.
           ++ exfalso. eapply json_loads_not_NoFuel; eauto.
        -- injection H as <- <-.
           replace (Raise e) with (match text response with Raise e => Raise e | _ => @NoFuel unit end)
             by (rewrite T; reflexivity).
           eapply run_text_fails; eauto. rewrite T. discriminate.
        -- injection H as <- <-.
           replace NoFuel with (match text response with Raise e => Raise e | _ => @NoFuel unit end)
             by (rewrite T; reflexivity).
           eapply run_text_fails; eauto. rewrite T. discriminate.
      * injection H as <- <-.
        change (Raise e) with (match @Raise location e with Raise e => Raise e | _ => @NoFuel unit end).
        eapply run_open_fails; eauto. discriminate.
      * injection H as <- <-.
        change NoFuel with (match @NoFuel location with Raise e => Raise e | _ => @NoFuel unit end).
        eapply run_open_fails; eauto. discriminate.
    + injection H as <- <-. eapply run_skipped; eauto.
  - simpl in H. unfold bind, lift in H. injection H as <- <-. apply run_no_type. exact G.
Qed.

End BodyFacts.

(** ** Traces *)

Lemma pystr_eqb_refl s : pystr_eqb s s = true.
Proof. unfold pystr_eqb. destruct (list_eq_dec N.eq_dec s s); congruence. Qed.

Lemma pystr_eqb_eq a b : pystr_eqb a b = true <-> a = b.
Proof.
  unfold pystr_eqb. destruct (list_eq_dec N.eq_dec a b); split; congruence.
Qed.

Lemma assets_eqb_refl l : assets_eqb l l = true.
Proof.
  induction l as [|a l IH]; simpl; [reflexivity|].
  unfold asset_eqb. rewrite !pystr_eqb_refl, IH. reflexivity.
Qed.

Lemma scan_events_app k a b :
  scan_events k (a ++ b) =
  match scan_events k a with Some k' => scan_events k' b | None => None end.
Proof.
  revert k. induction a as [|ev a IH]; intros k; simpl; [reflexivity|].
  destruct (scan_event k ev); auto.
Qed.

Lemma scan_polls evs : forall k,
  Forall is_poll evs ->
  exists rd, scan_events k evs = Some (mk_readiness (awaited k) rd).
Proof.
  induction evs as [|ev evs IH]; intros k P.
  - exists (ready_now k). destruct k; reflexivity.
  - inversion P as [|? ? Pev Prest]; subst. destruct ev; try contradiction; simpl.
    + destruct result as [[]| |]; simpl; apply (IH (mk_readiness _ _) Prest).
    + apply (IH (mk_readiness _ _) Prest).
Qed.

Lemma scan_active_round files : forall k,
  scan_events k (map active_poll files)
  = Some (mk_readiness (awaited k) (ready_now k ++ files)).
Proof.
  induction files as [|f files IH]; intros k; simpl.
  - rewrite List.app_nil_r. destruct k; reflexivity.
  - rewrite IH. simpl. rewrite <- app_assoc. reflexivity.
Qed.

Lemma scan_completed_wait before files k :
  Forall is_poll before ->
  (before = [] \/ exists b, before = b ++ [EvSleep]) ->
  ready_now k = [] ->
  scan_events k (before ++ map active_poll files)
  = Some (mk_readiness (awaited k) files).
Proof.
  intros P [->|[b ->]] R.
  - simpl. rewrite scan_active_round, R. reflexivity.
  - apply Forall_app in P. destruct P as [Pb _].
    rewrite <- app_assoc, scan_events_app.
    destruct (scan_polls b k Pb) as [rd ->]. simpl.
    rewrite scan_active_round. reflexivity.
Qed.

Section TraceFacts.
Context {FM : FloatModel}.
Variable E : Env.

Lemma replied_run_frame out fp rs st4 r st' :
  replied_run E out fp rs st4 r st' ->
  log st' = log st4 \/ (r = Ret tt /\ exists l, log st' = log st4 ++ [(INFO, l)]).
Proof. intros H. inversion H; subst; simpl; eauto. Qed.

Lemma replied_run_trace out fp rs st4 r st' :
  replied_run E out fp rs st4 r st' -> trace st' = trace st4.
Proof. intros H. inversion H; subst; reflexivity. Qed.

(** The calls of one run of the [try] block. *)
Lemma body_run_events fuel model prompt out fp st r st' :
  body_run E fuel model prompt out fp st r st' ->
  exists evs, trace st' = trace st ++ evs
    /\ (forall k, exists k', scan_events k evs = Some k')
    /\ (Exists failed_poll evs ->
        fs st' = fs st /\ exists e, r = Raise e /\ is_Exception (class_of e) = true).
Proof.
  intros H. inversion H as [G|t G A|t ru st1 r0 st0 G A U HU]; subst.
  - exists []. rewrite List.app_nil_r. split; [reflexivity|].
    split; [intros k; simpl; eauto|]. intros X; inversion X.
  - exists []. simpl. rewrite List.app_nil_r. split; [reflexivity|].
    split; [intros k; simpl; eauto|]. intros X; inversion X.
  - apply upload_extends in U. destruct U as (Uf & Ul & Ut). cbn [fs log trace remote] in Uf, Ul, Ut.
    inversion HU as [e ? | ? |v ? rw st2 ? ? W HW]; subst.
    + exists [EvUpload fp t (Raise e)]. split; [exact Ut|]. split; [simpl; eauto|].
      intros X. inversion X as [? ? X0|? ? X0]; subst; [contradiction|inversion X0].
    + exists [EvUpload fp t NoFuel]. split; [exact Ut|]. split; [simpl; eauto|].
      intros X. inversion X as [? ? X0|? ? X0]; subst; [contradiction|inversion X0].
    + apply wait_for_files_active_spec in W.
      destruct W as (wevs & (Wf & Wl & Wt) & P & C & F).
      assert (Hfail : forall tail,
                 Exists failed_poll (EvUpload fp t (Ret v) :: wevs ++ tail) ->
                 Forall (fun ev => ~ failed_poll ev) tail ->
                 exists e, rw = Raise e /\ is_Exception (class_of e) = true).
      { intros tail X NT. inversion X as [? ? X0|? ? X0]; subst; [contradiction|].
        apply Exists_app in X0. destruct X0 as [X0|X0]; [auto|].
        exfalso. apply Exists_exists in X0. destruct X0 as (ev & Hin & Hev).
        rewrite Forall_forall in NT. exact (NT ev Hin Hev). }
      inversion HW as [e ? | ? | ? rs st4 ? ? S HR]; subst.
      * exists (EvUpload fp t (Ret v) :: wevs). split.
        { rewrite Wt, Ut, <- app_assoc. reflexivity. }
        split.
        { intros k. simpl. destruct (scan_polls wevs (mk_readiness (Some (ensure_list v)) []) P)
            as [rd ->]. eauto. }
        intros X. split; [congruence|].
        destruct (Hfail []) as (e0 & He0 & Hc).
        { rewrite List.app_nil_r. exact X. } { constructor. }
        eauto.
      * exists (EvUpload fp t (Ret v) :: wevs). split.
        { rewrite Wt, Ut, <- app_assoc. reflexivity. }
        split.
        { intros k. simpl. destruct (scan_polls wevs (mk_readiness (Some (ensure_list v)) []) P)
            as [rd ->]. eauto. }
        intros X.
        destruct (Hfail []) as (e0 & He0 & Hc).
        { rewrite List.app_nil_r. exact X. } { constructor. }
        discriminate.
      * apply send_message_extends in S. destruct S as (Sf & Sl & St). cbn [fs log trace remote history parts flat_map] in Sf, Sl, St.
        rewrite List.app_nil_r in St.
        apply replied_run_trace in HR.
        exists (EvUpload fp t (Ret v) :: wevs ++
                [EvStartChat (ensure_list v); EvSendMessage (ensure_list v) prompt rs]).
        split.
        { rewrite HR, St, Wt, Ut, <- !app_assoc. reflexivity. }
        split.
        { intros k. destruct (C eq_refl) as (before & -> & Hb). simpl.
          apply Forall_app in P. destruct P as [Pb _].
          rewrite scan_events_app,
            (scan_completed_wait before (ensure_list v)
               (mk_readiness (Some (ensure_list v)) []) Pb Hb eq_refl).
          simpl. unfold scan_chat. simpl. rewrite assets_eqb_refl. simpl.
          rewrite assets_eqb_refl. simpl. eauto. }
        intros X.
        destruct (Hfail _ X) as (e0 & He0 & Hc).
        { repeat constructor; simpl; auto. }
        discriminate.
Qed.

End TraceFacts.

(** ** Readiness before any chat *)

Section RunFacts.
Context {FM : FloatModel}.
Variable E : Env.

Lemma process_file_events fuel model prompt out fp st r st' :
  process_file E fuel model prompt out fp st = (r, st') ->
  exists evs, trace st' = trace st ++ evs
    /\ (forall k, exists k', scan_events k evs = Some k').
Proof.
  unfold process_file, try_except_Exception.
  destruct (process_body E fuel model prompt out fp st) as [r0 st0] eqn:B.
  apply process_body_run, body_run_events in B. destruct B as (evs & T & S & _).
  intros H. exists evs. split; [|exact S].
  destruct r0 as [[]|e|]; try (injection H as <- <-; exact T).
  destruct (is_Exception (class_of e)).
  - unfold logging in H. injection H as <- <-. exact T.
  - injection H as <- <-. exact T.
Qed.

Lemma process_files_events fuel model prompt out paths : forall st r st',
  process_files E fuel model prompt out paths st = (r, st') ->
  exists evs, trace st' = trace st ++ evs
    /\ (forall k, exists k', scan_events k evs = Some k').
Proof.
  induction paths as [|fp rest IH]; intros st r st' H.
  - injection H as <- <-. exists []. rewrite List.app_nil_r. split; [reflexivity|].
    intros k; simpl; eauto.
  - rewrite process_files_cons in H.
    destruct (process_file E fuel model prompt out fp st) as [r1 st1] eqn:F.
    apply process_file_events in F. destruct F as (e1 & T1 & S1).
    destruct r1 as [[]|e|].
    + apply IH in H. destruct H as (e2 & T2 & S2). exists (e1 ++ e2). split.
      * rewrite T2, T1, app_assoc. reflexivity.
      * intros k. rewrite scan_events_app. destruct (S1 k) as [k1 ->]. apply S2.
    + injection H as <- <-. eauto.
    + injection H as <- <-. eauto.
Qed.

Lemma extract_events fuel paths prompt out model_name st r st' :
  extract_json_from_audio E fuel paths prompt out model_name st = (r, st') ->
  exists evs, trace st' = trace st ++ evs
    /\ (forall k, exists k', scan_events k evs = Some k').
Proof.
  unfold extract_json_from_audio, bind, on_fs.
  destruct (os_makedirs out true (fs st)) as [rm fs1].
  destruct rm as [[]|e|].
  - intros H. apply process_files_events in H. exact H.
  - intros [= <- <-]. exists []. simpl. rewrite List.app_nil_r. split; [reflexivity|].
    intros k; simpl; eauto.
  - intros [= <- <-]. exists []. simpl. rewrite List.app_nil_r. split; [reflexivity|].
    intros k; simpl; eauto.
Qed.

Lemma run_readiness :
  (forall fuel paths prompt out model_name st r st' evs,
      extract_json_from_audio E fuel paths prompt out model_name st = (r, st') ->
      trace st' = trace st ++ evs ->
      ready_before_chat evs = true)
  /\ (forall fuel model prompt out fp rest st r st' evs,
      process_body E fuel model prompt out fp st = (r, st') ->
      trace st' = trace st ++ evs ->
      Exists failed_poll evs ->
      fs st' = fs st
      /\ exists e, r = Raise e /\ is_Exception (class_of e) = true
         /\ process_files E fuel model prompt out (fp :: rest) st
            = process_files E fuel model prompt out rest (log_error E fp e st')).
Proof.
  split.
  - intros fuel paths prompt out model_name st r st' evs H T.
    apply extract_events in H. destruct H as (evs' & T' & S).
    rewrite T' in T. apply app_inv_head in T. subst evs'.
    unfold ready_before_chat. destruct (S (mk_readiness None [])) as [k ->]. reflexivity.
  - intros fuel model prompt out fp rest st r st' evs H T X.
    pose proof (process_body_run _ _ _ _ _ _ _ _ _ H) as R.
    apply body_run_events in R. destruct R as (evs' & T' & _ & F).
    rewrite T' in T. apply app_inv_head in T. subst evs'.
    destruct (F X) as (Hfs & e & -> & He). split; [exact Hfs|].
    exists e. split; [reflexivity|]. split; [exact He|].
    rewrite process_files_cons, (process_file_caught E _ _ _ _ _ _ _ _ H He). reflexivity.
Qed.

End RunFacts.

(** ** Trees *)

(** ** Trees *)

Lemma assoc_set_entry_same k n es : assoc k (set_entry k n es) = Some n.
Proof.
  induction es as [|[k' n'] es IH]; simpl.
  - rewrite pystr_eqb_refl. reflexivity.
  - destruct (pystr_eqb k' k) eqn:Hk; simpl; rewrite Hk; auto.
Qed.

Lemma assoc_set_entry_other k k' n es :
  k' <> k -> assoc k' (set_entry k n es) = assoc k' es.
Proof.
  intros Hne. induction es as [|[k0 n0] es IH]; simpl.
  - destruct (pystr_eqb k k') eqn:Hk; [apply pystr_eqb_eq in Hk; congruence|reflexivity].
  - destruct (pystr_eqb k0 k) eqn:Hk; simpl.
    + apply pystr_eqb_eq in Hk. subst k0.
      destruct (pystr_eqb k k') eqn:Hk'; [apply pystr_eqb_eq in Hk'; congruence|reflexivity].
    + rewrite IH. reflexivity.
Qed.

Lemma lookup_app t a b :
  lookup t (a ++ b) = match lookup t a with Some n => lookup n b | None => None end.
Proof.
  revert t. induction a as [|k a IH]; intros t; simpl; [reflexivity|].
  destruct t as [d|es]; [reflexivity|]. destruct (assoc k es); auto.
Qed.

Lemma lookup_snoc t cur c :
  lookup t (cur ++ [c]) =
  match lookup t cur with Some (Dir es) => assoc c es | _ => None end.
Proof.
  rewrite lookup_app. destruct (lookup t cur) as [[d|es]|]; simpl; auto.
  destruct (assoc c es); reflexivity.
Qed.

Lemma lookup_update_same key : forall t n,
  parent_is_dir t key -> lookup (update t key n) key = Some n.
Proof.
  induction key as [|k ks IH]; intros t n P; simpl; [reflexivity|].
  destruct ks as [|k2 ks].
  - destruct P as [es P]. simpl in P. injection P as ->.
    destruct (assoc k es) eqn:A; simpl; rewrite assoc_set_entry_same; reflexivity.
  - destruct P as [es P]. change (removelast (k :: k2 :: ks)) with (k :: removelast (k2 :: ks)) in P.
    simpl in P. destruct t as [d|es0]; [discriminate|].
    destruct (assoc k es0) as [child|] eqn:A; [|discriminate].
    simpl. rewrite assoc_set_entry_same. apply IH. exists es. exact P.
Qed.

Lemma alike_refl o : alike o o.
Proof. left; reflexivity. Qed.

Lemma is_prefix_spec a b : is_prefix a b = true <-> exists r, b = a ++ r.
Proof.
  revert b. induction a as [|x a IH]; intros b; simpl.
  - split; eauto.
  - destruct b as [|y b]; [split; [discriminate|intros [r H]; discriminate]|].
    rewrite andb_true_iff, pystr_eqb_eq, IH. split.
    + intros [-> [r ->]]. eauto.
    + intros [r [= -> ->]]. eauto.
Qed.

(** Changing the node at [key] leaves every location that does not extend
    [key] alike. *)
Lemma lookup_update_other key : forall t n k,
  parent_is_dir t key -> is_prefix key k = false ->
  alike (lookup t k) (lookup (update t key n) k).
Proof.
  induction key as [|x ks IH]; intros t n k P NP; [discriminate|].
  destruct t as [d|es]; [left; reflexivity|].
  destruct k as [|y k].
  - simpl. destruct (assoc x es); [right; eauto|]. destruct ks; [right; eauto|left; reflexivity].
  - simpl in NP.
    destruct (pystr_eqb x y) eqn:Hxy; simpl in NP.
    + apply pystr_eqb_eq in Hxy. subst y.
      destruct (assoc x es) as [child|] eqn:A.
      * simpl. rewrite A. simpl. rewrite assoc_set_entry_same. apply IH; [|exact NP].
        destruct ks as [|k2 ks']; [exact I|].
        destruct P as [es' P].
        change (removelast (x :: k2 :: ks')) with (x :: removelast (k2 :: ks')) in P.
        simpl in P. rewrite A in P. exists es'. exact P.
      * destruct ks as [|k2 ks']; [discriminate|]. simpl. rewrite A. simpl. rewrite A.
        left. reflexivity.
    + assert (Hne : y <> x) by (intros ->; rewrite pystr_eqb_refl in Hxy; discriminate).
      simpl. destruct (assoc x es) as [child|] eqn:A.
      * simpl. rewrite (assoc_set_entry_other _ _ _ _ Hne). left; reflexivity.
      * destruct ks as [|k2 ks'].
        -- simpl. rewrite (assoc_set_entry_other _ _ _ _ Hne). left; reflexivity.
        -- left; reflexivity.
Qed.

(** ** Path resolution after an update *)

Lemma is_prefix_snoc key cur c :
  is_prefix key cur = false -> is_prefix key (cur ++ [c]) = true -> key = cur ++ [c].
Proof.
  revert cur. induction key as [|x key IH]; intros cur H1 H2; [discriminate|].
  destruct cur as [|y cur]; simpl in *.
  - apply andb_true_iff in H2. destruct H2 as [E1 E2]. apply pystr_eqb_eq in E1. subst.
    destruct key; [reflexivity|discriminate].
  - apply andb_true_iff in H2. destruct H2 as [E1 E2]. rewrite E1 in H1. simpl in H1.
    apply pystr_eqb_eq in E1. subst. f_equal. apply IH; assumption.
Qed.

Lemma is_prefix_refl k : is_prefix k k = true.
Proof. induction k; simpl; [reflexivity|]. rewrite pystr_eqb_refl. exact IHk. Qed.

Section WalkAfterUpdate.
Variables (t t' : node) (key : location) (n : node).
Hypothesis Halike : forall k, is_prefix key k = false -> alike (lookup t k) (lookup t' k).
Hypothesis Hnew : lookup t' key = Some n.
(** before the change there was no directory at [key] *)
Hypothesis Hold : forall es, lookup t key <> Some (Dir es).

Lemma dir_not_below cur es : lookup t cur = Some (Dir es) -> is_prefix key cur = false.
Proof.
  intros H. destruct (is_prefix key cur) eqn:P; [|reflexivity].
  apply is_prefix_spec in P. destruct P as [r ->]. rewrite lookup_app in H.
  destruct (lookup t key) as [[d|es0]|] eqn:K; try discriminate.
  - destruct r; discriminate.
  - exfalso. exact (Hold es0 eq_refl).
Qed.

Lemma dir_stays cur es :
  lookup t cur = Some (Dir es) -> exists es', lookup t' cur = Some (Dir es').
Proof.
  intros H. destruct (Halike cur (dir_not_below _ _ H)) as [E|(a & b & E1 & E2)].
  - rewrite E, H. eauto.
  - eauto.
Qed.

(** the entry [c] of the directory [cur], before and after *)
Lemma entry_after cur c es es' :
  lookup t cur = Some (Dir es) -> lookup t' cur = Some (Dir es') ->
  (cur ++ [c] <> key -> (assoc c es = None <-> assoc c es' = None))
  /\ (cur ++ [c] = key -> assoc c es' = Some n).
Proof.
  intros H H'. pose proof (lookup_snoc t cur c) as S. pose proof (lookup_snoc t' cur c) as S'.
  rewrite H in S. rewrite H' in S'. split.
  - intros Hne. rewrite <- S, <- S'.
    assert (P : is_prefix key (cur ++ [c]) = false).
    { destruct (is_prefix key (cur ++ [c])) eqn:P; [|reflexivity].
      exfalso. apply Hne. symmetry. apply is_prefix_snoc; [|exact P].
      eapply dir_not_below; eauto. }
    destruct (Halike _ P) as [E|(a & b & E1 & E2)].
    + rewrite E. reflexivity.
    + rewrite E1, E2. split; discriminate.
  - intros <-. rewrite <- S'. exact Hnew.
Qed.

Lemma walk_empties rest : forall cur,
  lookup t' cur = Some n -> (rest <> [] -> exists es, n = Dir es) ->
  forallb is_empty rest = true -> walk t' cur rest = Found cur n.
Proof.
  induction rest as [|c rest IH]; intros cur L D F; simpl.
  - rewrite L. reflexivity.
  - rewrite L. destruct D as [es ->]; [discriminate|].
    simpl in F. apply andb_true_iff in F. destruct F as [F1 F2]. rewrite F1. simpl.
    apply IH; eauto.
Qed.

(** A path that named the missing entry [key] names the new node. *)
Lemma walk_created comps : forall cur parent name b,
  lookup t key = None -> key = parent ++ [name] ->
  (b = true -> exists es, n = Dir es) ->
  walk t cur comps = Missing parent name b ->
  walk t' cur comps = Found key n.
Proof.
  induction comps as [|c rest IH]; intros cur parent name b Hnone Hkey Hb W; simpl in W.
  - destruct (lookup t cur); discriminate.
  - simpl. destruct (lookup t cur) as [[d|es]|] eqn:L; try discriminate.
    destruct (dir_stays _ _ L) as [es' L']. rewrite L'.
    destruct (is_empty c || is_dot c); [eapply IH; eauto|].
    destruct (is_dotdot c); [eapply IH; eauto|].
    destruct (entry_after cur c es es' L L') as [Hother Hkeyc].
    destruct (assoc c es) as [child|] eqn:A.
    + assert (Hne : cur ++ [c] <> key).
      { intros Heq. pose proof (lookup_snoc t cur c) as S. rewrite L, A, Heq, Hnone in S.
        discriminate. }
      destruct (assoc c es') eqn:A'; [eapply IH; eauto|].
      apply Hother in Hne. destruct Hne as [_ Hne]. specialize (Hne eq_refl). discriminate.
    + destruct (forallb is_empty rest) eqn:F; [|discriminate].
      injection W as <- <- W.
      rewrite Hkeyc by (symmetry; exact Hkey). rewrite <- Hkey. apply walk_empties; auto.
      intros Hr. apply Hb. rewrite <- W. destruct rest; [contradiction|reflexivity].
Qed.

(** A path that named the file at [key] still names the node at [key]. *)
Lemma walk_replaced comps : forall cur d0,
  lookup t key = Some (File d0) -> (forall es, n <> Dir es) ->
  walk t cur comps = Found key (File d0) ->
  walk t' cur comps = Found key n.
Proof.
  induction comps as [|c rest IH]; intros cur d0 Hfile Hn W; simpl in W.
  - simpl. destruct (lookup t cur) eqn:L; [|discriminate]. injection W as -> ->.
    rewrite Hnew. reflexivity.
  - simpl. destruct (lookup t cur) as [[d|es]|] eqn:L; try discriminate.
    destruct (dir_stays _ _ L) as [es' L']. rewrite L'.
    destruct (is_empty c || is_dot c); [eapply IH; eauto|].
    destruct (is_dotdot c); [eapply IH; eauto|].
    destruct (entry_after cur c es es' L L') as [Hother Hkeyc].
    destruct (assoc c es) as [child|] eqn:A.
    + destruct (list_eq_dec (list_eq_dec N.eq_dec) (cur ++ [c]) key) as [Heq|Hne].
      * rewrite (Hkeyc Heq). rewrite Heq in *.
        destruct rest as [|c2 rest].
        -- simpl. rewrite Hnew. reflexivity.
        -- simpl in W. rewrite Hfile in W. discriminate.
      * destruct (assoc c es') eqn:A'; [eapply IH; eauto|].
        apply Hother in Hne. destruct Hne as [_ Hne]. specialize (Hne eq_refl). discriminate.
    + destruct (forallb is_empty rest); discriminate.
Qed.

End WalkAfterUpdate.

(** ** Opening and writing a file *)

Lemma walk_found t comps : forall cur k n,
  walk t cur comps = Found k n -> lookup t k = Some n.
Proof.
  induction comps as [|c rest IH]; intros cur k n W; simpl in W.
  - destruct (lookup t cur) eqn:L; [|discriminate]. injection W as <- <-. exact L.
  - destruct (lookup t cur) as [[d|es]|]; try discriminate.
    destruct (is_empty c || is_dot c); [eauto|].
    destruct (is_dotdot c); [eauto|].
    destruct (assoc c es); [eauto|].
    destruct (forallb is_empty rest); discriminate.
Qed.

Lemma walk_missing t comps : forall cur parent name b,
  walk t cur comps = Missing parent name b ->
  lookup t (parent ++ [name]) = None /\ exists es, lookup t parent = Some (Dir es).
Proof.
  induction comps as [|c rest IH]; intros cur parent name b W; simpl in W.
  - destruct (lookup t cur); discriminate.
  - destruct (lookup t cur) as [[d|es]|] eqn:L; try discriminate.
    destruct (is_empty c || is_dot c); [eauto|].
    destruct (is_dotdot c); [eauto|].
    destruct (assoc c es) eqn:A; [eauto|].
    destruct (forallb is_empty rest); [|discriminate].
    injection W as <- <- _. rewrite lookup_snoc, L. eauto.
Qed.

Lemma parent_of_missing t parent name es :
  lookup t parent = Some (Dir es) -> parent_is_dir t (parent ++ [name]).
Proof.
  intros H. unfold parent_is_dir. destruct (parent ++ [name]) eqn:E; [exact I|]. rewrite <- E.
  rewrite removelast_last. eauto.
Qed.

Lemma lookup_parent t key n :
  lookup t key = Some n -> parent_is_dir t key.
Proof.
  destruct key as [|k ks] using rev_ind; [exact (fun _ => I)|]. clear IHks.
  intros H. rewrite lookup_snoc in H.
  destruct (lookup t ks) as [[d|es]|] eqn:L; try discriminate.
  eapply parent_of_missing; eauto.
Qed.

(** Putting a node where a path resolves to a file or to a missing entry:
    the path resolves to the new node. *)
Lemma resolve_after_create fs p parent name b n :
  resolve fs p = Missing parent name b ->
  (b = true -> exists es, n = Dir es) ->
  resolve (mk_fs (update (root fs) (parent ++ [name]) n) (cwd fs)) p
  = Found (parent ++ [name]) n.
Proof.
  unfold resolve. destruct p as [|c p]; [discriminate|]. cbn [root cwd]. intros W Hb.
  destruct (walk_missing _ _ _ _ _ _ W) as [Hnone [es Hp]].
  pose proof (parent_of_missing _ _ name _ Hp) as P.
  eapply walk_created; eauto.
  - intros k Hk. apply lookup_update_other; assumption.
  - apply lookup_update_same; assumption.
  - intros es0. rewrite Hnone. discriminate.
Qed.

Lemma resolve_after_replace fs p key d0 d :
  resolve fs p = Found key (File d0) ->
  resolve (mk_fs (update (root fs) key (File d)) (cwd fs)) p = Found key (File d).
Proof.
  unfold resolve. destruct p as [|c p]; [discriminate|]. cbn [root cwd]. intros W.
  pose proof (walk_found _ _ _ _ _ W) as L.
  pose proof (lookup_parent _ _ _ L) as P.
  eapply walk_replaced; eauto.
  - intros k Hk. apply lookup_update_other; assumption.
  - apply lookup_update_same; assumption.
  - intros es0. rewrite L. discriminate.
  - discriminate.
Qed.

(** [open(p, "w")] leaves an empty file at [p]. *)
Lemma open_w_creates p fs f fs1 :
  open_w p fs = (Ret f, fs1) -> resolve fs1 p = Found f (File []).
Proof.
  unfold open_w. destruct (resolve fs p) as [key [d|es]|parent name [|]| |] eqn:R;
    try discriminate; intros [= <- <-].
  - eapply resolve_after_replace; eauto.
  - eapply resolve_after_create; eauto. discriminate.
Qed.

Lemma open_w_fails p fs r fs1 :
  open_w p fs = (r, fs1) -> (forall f, r <> Ret f) -> fs1 = fs.
Proof.
  unfold open_w. destruct (resolve fs p) as [key [d|es]|parent name [|]| |];
    intros [= <- <-] H; try reflexivity; exfalso; eapply H; reflexivity.
Qed.

(** Writing to the file opened at [p]. *)
Lemma file_write_read p fs f d text :
  resolve fs p = Found f (File d) ->
  resolve (file_write f text fs) p = Found f (File (d ++ text)).
Proof.
  intros R. unfold file_write.
  assert (L : lookup (root fs) f = Some (File d)).
  { unfold resolve in R. destruct p; [discriminate|]. eapply walk_found; eauto. }
  rewrite L. eapply resolve_after_replace; eauto.
Qed.

Lemma read_file_written p fs f fs1 text :
  open_w p fs = (Ret f, fs1) ->
  read_file fs1 p = Some [] /\ read_file (file_write f text fs1) p = Some text.
Proof.
  intros O. apply open_w_creates in O. unfold read_file. split.
  - rewrite O. reflexivity.
  - rewrite (file_write_read _ _ _ _ text O). reflexivity.
Qed.

(** ** Creating directories *)

Lemma same_files_refl fs : same_files fs fs.
Proof. split; [reflexivity|]. intros; reflexivity. Qed.

Lemma same_files_trans a b c : same_files a b -> same_files b c -> same_files a c.
Proof.
  intros [C1 F1] [C2 F2]. split; [congruence|]. intros key data. rewrite F2. apply F1.
Qed.

Lemma os_mkdir_spec p fs r fs' :
  os_mkdir p fs = (r, fs') ->
  same_files fs fs' /\ (r = Ret tt -> isdir fs' p = true) /\ (r <> Ret tt -> fs' = fs).
Proof.
  unfold os_mkdir. destruct (resolve fs p) as [key n|parent name b| |] eqn:R;
    intros [= <- <-]; try (split; [apply same_files_refl|split; [discriminate|reflexivity]]).
  split; [|split].
  - split; [reflexivity|]. cbn [root]. intros key data.
    unfold resolve in R. destruct p; [discriminate|].
    destruct (walk_missing _ _ _ _ _ _ R) as [Hnone [es Hp]].
    pose proof (parent_of_missing _ _ name _ Hp) as P.
    destruct (is_prefix (parent ++ [name]) key) eqn:Pre.
    + apply is_prefix_spec in Pre. destruct Pre as [rest ->].
      rewrite (lookup_app (root fs) (parent ++ [name]) rest), Hnone.
      rewrite (lookup_app (update _ _ _) (parent ++ [name]) rest), lookup_update_same by exact P.
      destruct rest; simpl; split; discriminate.
    + destruct (lookup_update_other _ _ (Dir []) _ P Pre) as [E|(a & b0 & E1 & E2)].
      * rewrite E. reflexivity.
      * rewrite E1, E2. split; discriminate.
  - intros _. unfold isdir.
    erewrite resolve_after_create; eauto.
  - intros H. exfalso. apply H. reflexivity.
Qed.

Lemma mkdir_exist_ok_spec p ok fs r fs' :
  mkdir_exist_ok p ok fs = (r, fs') ->
  same_files fs fs' /\ (r = Ret tt -> isdir fs' p = true) /\ (isdir fs p = true -> ok = true -> r = Ret tt /\ fs' = fs).
Proof.
  unfold mkdir_exist_ok. destruct (os_mkdir p fs) as [r0 fs0] eqn:M.
  pose proof (os_mkdir_spec _ _ _ _ M) as (S & D & U).
  destruct r0 as [[]|e|].
  - intros [= <- <-]. split; [exact S|]. split; [auto|].
    intros Hd _. exfalso. unfold os_mkdir in M. unfold isdir in Hd.
    destruct (resolve fs p) as [key n|parent name b| |]; discriminate.
  - assert (fs0 = fs) by (apply U; discriminate). subst fs0.
    destruct (negb ok || negb (isdir fs p)) eqn:G; intros [= <- <-].
    + split; [exact S|]. split; [discriminate|]. intros Hd ->. rewrite Hd in G. discriminate.
    + split; [exact S|]. apply orb_false_iff in G. destruct G as [_ G].
      apply negb_false_iff in G. split; auto.
  - intros [= <- <-]. split; [exact S|]. split; [discriminate|].
    intros Hd _. exfalso. unfold os_mkdir in M.
    destruct (resolve fs p) as [key n|parent name b| |]; discriminate.
Qed.

Lemma makedirs_rec_same_files fuel : forall name ok fs r fs',
  makedirs_rec fuel name ok fs = (r, fs') -> same_files fs fs'.
Proof.
  induction fuel as [|fuel IH]; intros name ok fs r fs' H; simpl in H;
    destruct (makedirs_parts name) as [head tail];
    destruct (negb (is_empty head) && negb (is_empty tail) && negb (path_exists fs head)).
  - injection H as <- <-. apply same_files_refl.
  - eapply mkdir_exist_ok_spec; eauto.
  - destruct (makedirs_rec fuel head ok fs) as [r1 fs1] eqn:R. apply IH in R.
    assert (Last : forall r fs', (if is_dot tail then (Ret tt, fs1) else mkdir_exist_ok name ok fs1) = (r, fs') -> same_files fs fs').
    { intros r2 fs2. destruct (is_dot tail).
      - intros [= <- <-]. exact R.
      - intros H2. eapply same_files_trans; [exact R|]. eapply mkdir_exist_ok_spec; eauto. }
    destruct r1 as [[]|e|].
    + eauto.
    + destruct (class_of e); try (injection H as <- <-; exact R). eauto.
    + injection H as <- <-. exact R.
  - eapply mkdir_exist_ok_spec; eauto.
Qed.

(** Unless the path ends in a [.] component, a normal return of
    [os.makedirs] leaves a directory at the path. *)
Lemma makedirs_rec_isdir fuel name ok fs fs' :
  makedirs_rec fuel name ok fs = (Ret tt, fs') ->
  is_dot (snd (makedirs_parts name)) = false ->
  isdir fs' name = true.
Proof.
  intros H Hdot. destruct fuel as [|fuel]; simpl in H;
    destruct (makedirs_parts name) as [head tail]; simpl in Hdot; rewrite ?Hdot in H;
    destruct (negb (is_empty head) && negb (is_empty tail) && negb (path_exists fs head)).
  - discriminate.
  - eapply mkdir_exist_ok_spec; eauto.
  - destruct (makedirs_rec fuel head ok fs) as [r1 fs1].
    destruct r1 as [[]|e|]; [eapply mkdir_exist_ok_spec; eauto| |discriminate].
    destruct (class_of e); try discriminate. eapply mkdir_exist_ok_spec; eauto.
  - eapply mkdir_exist_ok_spec; eauto.
Qed.

(** ** Paths *)

(** ** Strings *)

Lemma rfind_from_spec s c : forall i, (0 <= i)%Z ->
  (rfind_from i s c = (-1)%Z /\ ~ In c s)
  \/ (exists a b, s = a ++ c :: b /\ ~ In c b
                  /\ rfind_from i s c = (i + Z.of_nat (List.length a))%Z).
Proof.
  induction s as [|x r IH]; intros i Hi; simpl.
  - left. auto.
  - destruct (IH (i + 1)%Z ltac:(lia)) as [[E N]|(a & b & -> & N & E)].
    + rewrite E. simpl. destruct (N.eqb_spec x c) as [->|Hne].
      * right. exists [], r. simpl. split; [reflexivity|]. split; [exact N|]. lia.
      * left. split; [reflexivity|]. intros [H|H]; [congruence|contradiction].
    + right. exists (x :: a), b. split; [reflexivity|]. split; [exact N|].
      rewrite E. simpl List.length.
      destruct (0 <=? i + 1 + Z.of_nat (List.length a))%Z eqn:G; lia.
Qed.

Lemma rfind_spec s c :
  (rfind s c = (-1)%Z /\ ~ In c s)
  \/ (exists a b, s = a ++ c :: b /\ ~ In c b /\ rfind s c = Z.of_nat (List.length a)).
Proof. apply (rfind_from_spec s c 0%Z). lia. Qed.

Lemma firstn_length_app {A} (a b : list A) : firstn (List.length a) (a ++ b) = a.
Proof. rewrite firstn_app, Nat.sub_diag, firstn_all. simpl. apply List.app_nil_r. Qed.

Lemma skipn_length_app {A} (a b : list A) : skipn (List.length a) (a ++ b) = b.
Proof. rewrite skipn_app, Nat.sub_diag, skipn_all. reflexivity. Qed.

(** the part after the last slash, and what precedes it *)
Lemma basename_spec p :
  (~ In sep p /\ basename p = p /\ slice_to p (rfind p sep + 1) = [])
  \/ (exists a b, p = a ++ sep :: b /\ ~ In sep b /\ basename p = b
                  /\ slice_to p (rfind p sep + 1) = a ++ [sep]).
Proof.
  unfold basename, slice_from, slice_to.
  destruct (rfind_spec p sep) as [[E N]|(a & b & -> & N & E)]; rewrite E.
  - left. simpl. auto.
  - right. exists a, b. split; [reflexivity|]. split; [exact N|].
    replace (Z.to_nat (Z.of_nat (List.length a) + 1)) with (List.length (a ++ [sep]))
      by (rewrite length_app; simpl; lia).
    replace (a ++ sep :: b) with ((a ++ [sep]) ++ b) by (rewrite <- app_assoc; reflexivity).
    rewrite firstn_length_app, skipn_length_app. auto.
Qed.

Lemma lstrip_spec c l :
  exists m, l = repeat c m ++ lstrip l c
            /\ (lstrip l c = [] \/ exists x r, lstrip l c = x :: r /\ x <> c).
Proof.
  induction l as [|x r (m & E & H)]; simpl.
  - exists 0%nat. auto.
  - destruct (N.eqb_spec x c) as [->|Hne].
    + exists (S m). simpl. split; [congruence|exact H].
    + exists 0%nat. simpl. split; [reflexivity|]. right. eauto.
Qed.

Lemma rev_repeat {A} (x : A) m : rev (repeat x m) = repeat x m.
Proof.
  induction m; simpl; [reflexivity|]. rewrite IHm. symmetry. apply repeat_cons.
Qed.

Lemma rstrip_spec s c :
  exists m, s = rstrip s c ++ repeat c m
            /\ (rstrip s c = [] \/ exists r x, rstrip s c = r ++ [x] /\ x <> c).
Proof.
  unfold rstrip. destruct (lstrip_spec c (rev s)) as (m & E & H).
  exists m. split.
  - rewrite <- (rev_involutive s) at 1. rewrite E at 1. rewrite rev_app_distr, rev_repeat.
    reflexivity.
  - destruct H as [->|(x & r & -> & Hne)]; [left; reflexivity|].
    right. exists (rev r), x. simpl. auto.
Qed.

(** ** Components *)

Lemma components_nonempty p : components p <> [].
Proof.
  destruct p as [|c r]; simpl; [discriminate|].
  destruct (c =? sep); [discriminate|]. destruct (components r); discriminate.
Qed.

Lemma components_app_sep a b : components (a ++ sep :: b) = components a ++ components b.
Proof.
  induction a as [|x a IH]; simpl.
  - rewrite ?N.eqb_refl. reflexivity.
  - destruct (x =? sep); [rewrite IH; reflexivity|].
    rewrite IH. pose proof (components_nonempty a) as NE.
    destruct (components a); [contradiction|reflexivity].
Qed.

Lemma walk_prefix_found t xs : forall cur ys k n,
  walk t cur (xs ++ ys) = Found k n -> exists k1 n1, walk t cur xs = Found k1 n1.
Proof.
  induction xs as [|c xs IH]; intros cur ys k n W.
  - simpl in W |- *. destruct ys as [|y ys]; simpl in W.
    + destruct (lookup t cur); [eauto|discriminate].
    + destruct (lookup t cur); [eauto|discriminate].
  - simpl in W |- *. destruct (lookup t cur) as [[d|es]|]; try discriminate.
    destruct (is_empty c || is_dot c); [eauto|].
    destruct (is_dotdot c); [eauto|].
    destruct (assoc c es); [eauto|].
    destruct (forallb is_empty (xs ++ ys)); discriminate.
Qed.

Lemma startswith_nil s : startswith s [] = true.
Proof. destruct s; reflexivity. Qed.

(** A path that resolves has a prefix that resolves, at each slash. *)
Lemma resolve_prefix fs a b k n :
  a <> [] -> resolve fs (a ++ sep :: b) = Found k n ->
  exists k1 n1, resolve fs a = Found k1 n1.
Proof.
  intros Ha. destruct a as [|c a]; [contradiction|].
  unfold resolve. rewrite <- app_comm_cons. rewrite app_comm_cons, components_app_sep.
  simpl startswith. rewrite !startswith_nil. apply walk_prefix_found.
Qed.

Lemma all_sep_repeat h : forallb (N.eqb sep) h = true -> h = repeat sep (List.length h).
Proof.
  induction h as [|x h IH]; cbn [forallb List.length repeat]; [reflexivity|]. intros H.
  apply andb_true_iff in H. destruct H as [H1 H2]. apply N.eqb_eq in H1. subst x.
  f_equal. auto.
Qed.

Lemma components_all_sep m : forallb is_empty (components (repeat sep m)) = true.
Proof.
  induction m; simpl; [reflexivity|]. rewrite ?N.eqb_refl. simpl. exact IHm.
Qed.

(** A path that resolves has a head that exists. *)
Lemma split_head_exists fs p k n :
  resolve fs p = Found k n -> fst (split p) <> [] -> path_exists fs (fst (split p)) = true.
Proof.
  intros R. unfold split. cbn [fst].
  destruct (basename_spec p) as [(N & _ & ->)|(a & b & -> & N & _ & ->)].
  - intros H; contradiction.
  - set (h0 := a ++ [sep]).
    assert (Hne : match h0 with [] => false | _ :: _ => true end = true)
      by (unfold h0; destruct a; reflexivity).
    destruct (forallb (N.eqb sep) h0) eqn:All.
    + (* only slashes: the root *)
      replace (if match h0 with [] => false | _ :: _ => negb true end then rstrip h0 sep else h0)
        with h0 by (destruct h0; reflexivity).
      intros _. unfold path_exists, resolve.
      pose proof (all_sep_repeat _ All) as Eh. destruct h0 as [|x h0'] eqn:Eh0; [discriminate|].
      assert (x = sep) by (cbn [forallb] in All; apply andb_true_iff in All; destruct All as [A1 _];
                           apply N.eqb_eq in A1; auto). subst x.
      simpl startswith. rewrite ?N.eqb_refl. simpl andb.
      assert (Hfirst : exists rest, a ++ sep :: b = sep :: rest).
      { destruct a as [|y a']; [simpl; eauto|]. injection Eh0 as -> _. simpl. eauto. }
      destruct Hfirst as [rest Hfirst].
      assert (Root : exists es, lookup (root fs) [] = Some (Dir es)).
      { unfold resolve in R. rewrite Hfirst in R. cbn [startswith components] in R.
        rewrite ?N.eqb_refl, startswith_nil in R. cbn [walk lookup andb] in R.
        destruct (root fs) as [d|es]; [discriminate|eexists; reflexivity]. }
      destruct Root as [es Root].
      rewrite startswith_nil. rewrite Eh. erewrite walk_empties;
        first [reflexivity|exact Root|apply components_all_sep|eauto].
    + replace (if match h0 with [] => false | _ :: _ => negb false end then rstrip h0 sep else h0)
        with (rstrip h0 sep) by (destruct h0; [discriminate|reflexivity]).
      intros Hh. destruct (rstrip_spec h0 sep) as (m & E & _).
      assert (Hm : exists m', m = S m').
      { destruct m as [|m']; [|eauto]. exfalso. simpl in E. rewrite List.app_nil_r in E.
        destruct (rstrip_spec h0 sep) as (m2 & E2 & [Z|(r & x & Z & Zne)]); [contradiction|].
        rewrite Z in E. unfold h0 in E. apply app_inj_tail in E. destruct E as [_ E]. congruence. }
      destruct Hm as [m' ->].
      unfold path_exists.
      assert (Ep : a ++ sep :: b = rstrip h0 sep ++ sep :: (repeat sep m' ++ b)).
      { change (a ++ sep :: b) with (a ++ [sep] ++ b). rewrite app_assoc. fold h0.
        rewrite E at 1. rewrite <- app_assoc. reflexivity. }
      rewrite Ep in R. destruct (resolve_prefix _ _ _ _ _ Hh R) as (k1 & n1 & ->). reflexivity.
Qed.

(** ** The run on no file *)

Lemma is_empty_false {A} (l : list A) : is_empty l = false <-> l <> [].
Proof. destruct l; simpl; split; congruence. Qed.

Lemma makedirs_head_exists fs name :
  path_exists fs name = true ->
  let (head, tail) := makedirs_parts name in
  is_empty head = false -> path_exists fs head = true.
Proof.
  intros Hex. unfold makedirs_parts.
  assert (Step : forall p, path_exists fs p = true -> fst (split p) <> [] ->
                           path_exists fs (fst (split p)) = true).
  { intros p Hp. unfold path_exists in Hp.
    destruct (resolve fs p) as [k n| | |] eqn:R; try discriminate.
    eapply split_head_exists; eauto. }
  destruct (split name) as [h1 t1] eqn:S1.
  destruct (is_empty t1).
  - destruct (split h1) as [h2 t2] eqn:S2. intros Hh. apply is_empty_false in Hh.
    assert (Hh1 : h1 <> []).
    { intros ->. unfold split in S2. simpl in S2. injection S2 as <- _. contradiction. }
    pose proof (Step name Hex) as P1. rewrite S1 in P1. specialize (P1 Hh1).
    pose proof (Step h1 P1) as P2. rewrite S2 in P2. exact (P2 Hh).
  - intros Hh. apply is_empty_false in Hh.
    pose proof (Step name Hex) as P1. rewrite S1 in P1. exact (P1 Hh).
Qed.

(** [os.makedirs(name, exist_ok=True)] on a directory that exists: no
    error, and nothing changes. *)
Lemma makedirs_existing fuel name fs :
  isdir fs name = true -> makedirs_rec fuel name true fs = (Ret tt, fs).
Proof.
  intros Hd.
  assert (Hex : path_exists fs name = true).
  { unfold isdir in Hd. unfold path_exists. destruct (resolve fs name); congruence. }
  pose proof (makedirs_head_exists fs name Hex) as Hh.
  assert (Last : mkdir_exist_ok name true fs = (Ret tt, fs)).
  { destruct (mkdir_exist_ok name true fs) as [r fs'] eqn:M.
    destruct (mkdir_exist_ok_spec _ _ _ _ _ M) as (_ & _ & U).
    destruct (U Hd eq_refl) as [-> ->]. reflexivity. }
  destruct fuel as [|fuel]; simpl; destruct (makedirs_parts name) as [head tail];
    destruct (is_empty head) eqn:Eh; simpl; try exact Last;
    rewrite (Hh eq_refl); simpl; rewrite andb_false_r; exact Last.
Qed.

Section EmptyRun.
Context {FM : FloatModel}.
Variable E : Env.

Lemma extract_nothing fuel prompt out model_name (st : State E) r fs1 :
  os_makedirs out true (fs st) = (r, fs1) ->
  extract_json_from_audio E fuel [] prompt out model_name st
  = (r, mk_state fs1 (log st) (trace st) (remote st)).
Proof.
  intros M. unfold extract_json_from_audio, bind, on_fs. rewrite M.
  destruct r as [[]|e|]; reflexivity.
Qed.

Lemma empty_run fuel prompt out model_name (st : State E) :
  let r_st := extract_json_from_audio E fuel [] prompt out model_name st in
  (* the run is the creation of the output directory and nothing else *)
  (fst r_st, fs (snd r_st)) = os_makedirs out true (fs st)
  /\ log (snd r_st) = log st
  /\ trace (snd r_st) = trace st
  /\ remote (snd r_st) = remote st
  (* no regular file appears, disappears or changes *)
  /\ same_files (fs st) (fs (snd r_st))
  (* a directory that exists is no error *)
  /\ (isdir (fs st) out = true -> fst r_st = Ret tt /\ fs (snd r_st) = fs st)
  (* after a normal return the directory is there *)
  /\ (fst r_st = Ret tt -> is_dot (snd (makedirs_parts out)) = false ->
      isdir (fs (snd r_st)) out = true).
Proof.
  destruct (os_makedirs out true (fs st)) as [r fs1] eqn:M.
  cbn zeta. rewrite (extract_nothing fuel prompt out model_name st r fs1 M).
  cbn [fst snd fs log trace remote].
  unfold os_makedirs in M.
  split; [reflexivity|]. split; [reflexivity|]. split; [reflexivity|]. split; [reflexivity|].
  split; [eapply makedirs_rec_same_files; eauto|].
  split.
  - intros H. rewrite (makedirs_existing _ _ _ H) in M. injection M as <- <-. auto.
  - intros -> Hdot. eapply makedirs_rec_isdir; eauto.
Qed.

End EmptyRun.

(** ** The output path *)

Lemma rfind_from_absent s c : forall i, ~ In c s -> rfind_from i s c = (-1)%Z.
Proof.
  induction s as [|x r IH]; intros i N; simpl; [reflexivity|].
  rewrite IH by (intros H; apply N; right; exact H). simpl.
  destruct (N.eqb_spec x c) as [->|]; [exfalso; apply N; left; reflexivity|reflexivity].
Qed.

Lemma rfind_from_last a c b : forall i, (0 <= i)%Z -> ~ In c b ->
  rfind_from i (a ++ c :: b) c = (i + Z.of_nat (List.length a))%Z.
Proof.
  induction a as [|x a IH]; intros i Hi N; simpl.
  - rewrite rfind_from_absent by exact N. simpl. rewrite N.eqb_refl. lia.
  - rewrite IH by (lia || exact N).
    destruct (0 <=? i + 1 + Z.of_nat (List.length a))%Z eqn:G; lia.
Qed.

Lemma rfind_last a c b : ~ In c b -> rfind (a ++ c :: b) c = Z.of_nat (List.length a).
Proof. intros N. unfold rfind. rewrite rfind_from_last by (lia || exact N). lia. Qed.

Lemma rfind_absent s c : ~ In c s -> rfind s c = (-1)%Z.
Proof. apply rfind_from_absent. Qed.

(** [basename] of a path whose last component is [name]. *)
Lemma basename_of dir name :
  (dir = [] \/ exists d, dir = d ++ [sep]) -> ~ In sep name ->
  basename (dir ++ name) = name.
Proof.
  intros [->|[d ->]] N; unfold basename, slice_from.
  - simpl. rewrite rfind_absent by exact N. reflexivity.
  - rewrite <- app_assoc. simpl. rewrite rfind_last by exact N.
    replace (Z.to_nat (Z.of_nat (List.length d) + 1)) with (List.length (d ++ [sep]))
      by (rewrite length_app; simpl; lia).
    replace (d ++ sep :: name) with ((d ++ [sep]) ++ name) by (rewrite <- app_assoc; reflexivity).
    apply skipn_length_app.
Qed.

(** [splitext] of a name [foo.bar]. *)
Lemma splitext_of foo bar :
  ~ In sep foo -> ~ In sep bar -> ~ In extsep bar ->
  existsb (fun c => negb (c =? extsep)) foo = true ->
  splitext (foo ++ extsep :: bar) = (foo, extsep :: bar).
Proof.
  intros N1 N2 N3 Hx. unfold splitext.
  rewrite (rfind_last foo extsep bar N3).
  rewrite rfind_absent.
  2:{ intros H. apply in_app_or in H. destruct H as [H|[H|H]]; [auto|discriminate|auto]. }
  replace (-1 <? Z.of_nat (List.length foo))%Z with true by (symmetry; apply Z.ltb_lt; lia).
  unfold slice, slice_from, slice_to. simpl Z.to_nat. rewrite Nat2Z.id.
  rewrite firstn_length_app, skipn_length_app. simpl skipn. rewrite Hx. reflexivity.
Qed.

Lemma json_path_of_named out dir foo bar :
  (dir = [] \/ exists d, dir = d ++ [sep]) ->
  ~ In sep foo -> ~ In sep bar -> ~ In extsep bar ->
  existsb (fun c => negb (c =? extsep)) foo = true ->
  json_path_of out (dir ++ foo ++ extsep :: bar) = join out (foo ++ py ".json").
Proof.
  intros Hd N1 N2 N3 Hx. unfold json_path_of.
  rewrite basename_of; [|exact Hd|].
  - rewrite splitext_of by assumption. reflexivity.
  - intros H. apply in_app_or in H. destruct H as [H|[H|H]]; [auto|discriminate|auto].
Qed.

(** [join] with a directory that does not end in a slash. *)
Lemma join_plain out name :
  out <> [] -> endswith out [sep] = false -> startswith name [sep] = false ->
  join out name = out ++ sep :: name.
Proof.
  intros H1 H2 H3. unfold join. rewrite H3. destruct out; [contradiction|].
  rewrite H2. reflexivity.
Qed.

(** ** The encoder writes ASCII *)

(** ** Digits *)

Lemma ascii_str_app a b : ascii_str a -> ascii_str b -> ascii_str (a ++ b).
Proof. intros; apply Forall_app; auto. Qed.

Lemma ascii_str_cons c s : c < 128 -> ascii_str s -> ascii_str (c :: s).
Proof. intros; constructor; auto. Qed.

Lemma uint_chars_digits d : Forall (fun c => is_digit c = true) (uint_chars d).
Proof. induction d; simpl; constructor; auto. Qed.

Lemma is_digit_range c : is_digit c = true <-> 48 <= c <= 57.
Proof. unfold is_digit. rewrite andb_true_iff, !N.leb_le. reflexivity. Qed.

Lemma digits_ascii s : Forall (fun c => is_digit c = true) s -> ascii_str s.
Proof.
  intros H. eapply Forall_impl; [|exact H]. intros c Hc. apply is_digit_range in Hc. lia.
Qed.

Lemma intstr_ascii z : ascii_str (intstr z).
Proof.
  unfold intstr, digits_of_N. destruct (z <? 0)%Z.
  - apply ascii_str_cons; [lia|]. apply digits_ascii, uint_chars_digits.
  - apply digits_ascii, uint_chars_digits.
Qed.

(** ** The pieces of a number *)

Lemma span_digits_spec s :
  let (d, rest) := span_digits s in
  s = d ++ rest /\ Forall (fun c => is_digit c = true) d
  /\ match rest with [] => True | c :: _ => is_digit c = false end.
Proof.
  induction s as [|c r IH]; simpl.
  - auto.
  - destruct (is_digit c) eqn:D.
    + destruct (span_digits r) as [d rest]. destruct IH as (-> & F & R).
      split; [reflexivity|]. split; [constructor; auto|exact R].
    + split; [reflexivity|]. split; [constructor|exact D].
Qed.

Lemma match_natural_spec s i r :
  match_natural s = Some (i, r) ->
  s = i ++ r /\ Forall (fun c => is_digit c = true) i /\ i <> [].
Proof.
  unfold match_natural. destruct s as [|c s]; [discriminate|].
  destruct (N.eqb_spec c 48) as [->|_].
  - intros [= <- <-]. split; [reflexivity|]. split; [repeat constructor|discriminate].
  - destruct (is_digit c) eqn:Dc; [|discriminate].
    pose proof (span_digits_spec s) as S. destruct (span_digits s) as [d rest].
    destruct S as (-> & F & _). intros [= <- <-]. split; [reflexivity|].
    split; [constructor; auto|discriminate].
Qed.

Lemma match_integer_spec s i r :
  match_integer s = Some (i, r) -> s = i ++ r /\ ascii_str i.
Proof.
  unfold match_integer. destruct s as [|c s]; [discriminate|].
  destruct (N.eqb_spec c 45) as [->|_].
  - destruct (match_natural s) as [[d rest]|] eqn:M; [|discriminate].
    apply match_natural_spec in M. destruct M as (-> & A & _). intros [= <- <-].
    split; [reflexivity|]. apply ascii_str_cons; [lia|apply digits_ascii, A].
  - intros M. apply match_natural_spec in M. destruct M as (-> & A & _).
    split; [reflexivity|apply digits_ascii, A].
Qed.

Lemma match_frac_spec s : let (f, r) := match_frac s in s = f ++ r /\ ascii_str f.
Proof.
  unfold match_frac. destruct s as [|c s]; [split; [reflexivity|constructor]|].
  destruct (N.eqb_spec c 46) as [->|_]; [|split; [reflexivity|constructor]].
  pose proof (span_digits_spec s) as S. destruct (span_digits s) as [[|d0 d] rest].
  - split; [reflexivity|constructor].
  - destruct S as (-> & F & _). split; [reflexivity|].
    apply ascii_str_cons; [lia|]. apply digits_ascii, F.
Qed.

Lemma match_sign_spec s : let (g, r) := match_sign s in s = g ++ r /\ ascii_str g.
Proof.
  unfold match_sign. destruct s as [|g s']; [split; [reflexivity|constructor]|].
  destruct ((g =? 45) || (g =? 43)) eqn:Eg; [|split; [reflexivity|constructor]].
  split; [reflexivity|]. apply orb_true_iff in Eg.
  constructor; [|constructor]. destruct Eg as [Eg|Eg]; apply N.eqb_eq in Eg; lia.
Qed.

Lemma match_exp_spec s : let (e, r) := match_exp s in s = e ++ r /\ ascii_str e.
Proof.
  unfold match_exp. destruct s as [|c s]; [split; [reflexivity|constructor]|].
  destruct ((c =? 101) || (c =? 69)) eqn:Ec; [|split; [reflexivity|constructor]].
  assert (Hc : c < 128).
  { apply orb_true_iff in Ec. destruct Ec as [Ec|Ec]; apply N.eqb_eq in Ec; lia. }
  pose proof (match_sign_spec s) as Hs. destruct (match_sign s) as [sign r'].
  destruct Hs as [-> As].
  pose proof (span_digits_spec r') as S. destruct (span_digits r') as [[|d0 d] rest].
  - split; [reflexivity|constructor].
  - destruct S as (-> & F & _). split.
    + simpl. rewrite <- !app_assoc. reflexivity.
    + apply ascii_str_cons; [exact Hc|]. apply ascii_str_app; [exact As|].
      apply digits_ascii, F.
Qed.

Lemma match_number_spec s i f e r :
  match_number s = Some (i, f, e, r) ->
  s = i ++ f ++ e ++ r /\ ascii_str i /\ ascii_str f /\ ascii_str e.
Proof.
  unfold match_number. destruct (match_integer s) as [[i0 s1]|] eqn:Mi; [|discriminate].
  apply match_integer_spec in Mi. destruct Mi as [-> Ai].
  pose proof (match_frac_spec s1) as Mf. destruct (match_frac s1) as [f0 s2].
  destruct Mf as [-> Af].
  pose proof (match_exp_spec s2) as Me. destruct (match_exp s2) as [e0 s3].
  destruct Me as [-> Ae]. intros [= <- <- <- <-]. auto.
Qed.

Lemma float_literal_ascii s : is_float_literal s = true -> ascii_str s.
Proof.
  unfold is_float_literal. destruct (match_number s) as [[[[i f] e] r]|] eqn:M; [|discriminate].
  apply match_number_spec in M. destruct M as (-> & Ai & Af & Ae).
  destruct r; [|discriminate]. intros _. rewrite List.app_nil_r.
  repeat apply ascii_str_app; assumption.
Qed.

(** ** Strings *)

Lemma hexdigit_ascii d : d < 16 -> hexdigit d < 128.
Proof. unfold hexdigit. destruct (d <? 10); lia. Qed.

Lemma hex4_ascii n : ascii_str (hex4 n).
Proof.
  unfold hex4. repeat constructor; apply hexdigit_ascii; apply N.mod_lt; discriminate.
Qed.

Lemma u_escape_ascii n : ascii_str (u_escape n).
Proof. unfold u_escape. repeat (apply ascii_str_cons; [lia|]). apply hex4_ascii. Qed.

Lemma escape_ascii_ascii c : ascii_str (escape_ascii c).
Proof.
  unfold escape_ascii.
  repeat match goal with
         | |- context [if ?b then _ else _] => destruct b eqn:?
         end;
    try (repeat constructor; lia);
    try apply u_escape_ascii;
    try (apply ascii_str_app; apply u_escape_ascii).
  apply andb_true_iff in Heqb1. destruct Heqb1 as [_ H]. apply N.leb_le in H.
  repeat constructor; lia.
Qed.

Lemma encode_basestring_ascii_ascii s : ascii_str (encode_basestring_ascii s).
Proof.
  unfold encode_basestring_ascii. apply ascii_str_cons; [lia|].
  apply ascii_str_app; [|repeat constructor; lia].
  induction s as [|c s IH]; simpl; [constructor|].
  apply ascii_str_app; [apply escape_ascii_ascii|exact IH].
Qed.

Lemma newline_indent_ascii indent level : ascii_str (newline_indent indent level).
Proof.
  unfold newline_indent. apply ascii_str_cons; [lia|].
  induction (indent * level)%nat; simpl; constructor; [lia|auto].
Qed.

Lemma join_with_ascii separator chunks :
  ascii_str separator -> Forall ascii_str chunks -> ascii_str (join_with separator chunks).
Proof.
  intros Hs H. induction H as [|x l Hx Hl IH]; simpl; [constructor|].
  destruct l; [exact Hx|]. apply ascii_str_app; [exact Hx|]. apply ascii_str_app; auto.
Qed.

Section EncoderAscii.
Context {FM : FloatModel}.

Hypothesis Hrepr : float_repr_lexical.

Lemma floatstr_ascii f : ascii_str (floatstr f).
Proof.
  destruct f; simpl; try (vm_compute; repeat constructor).
  apply float_literal_ascii, Hrepr.
Qed.

Lemma iterencode_ascii indent o : forall level, ascii_str (iterencode indent level o).
Proof.
  induction o as [| b | z | f | s | l IH | d IH] using json_induction; intros level.
  - vm_compute; repeat constructor.
  - destruct b; vm_compute; repeat constructor.
  - apply intstr_ascii.
  - apply floatstr_ascii.
  - apply encode_basestring_ascii_ascii.
  - destruct l as [|x l]; [vm_compute; repeat constructor|].
    cbn [iterencode]. apply ascii_str_cons; [lia|].
    apply ascii_str_app; [apply newline_indent_ascii|].
    apply ascii_str_app; [|apply ascii_str_app; [apply newline_indent_ascii|repeat constructor; lia]].
    apply join_with_ascii; [apply ascii_str_cons; [lia|apply newline_indent_ascii]|].
    apply Forall_map. eapply Forall_impl; [|exact IH]. intros a Ha. apply Ha.
  - destruct d as [|x d]; [vm_compute; repeat constructor|].
    cbn [iterencode]. apply ascii_str_cons; [lia|].
    apply ascii_str_app; [apply newline_indent_ascii|].
    apply ascii_str_app; [|apply ascii_str_app; [apply newline_indent_ascii|repeat constructor; lia]].
    apply join_with_ascii; [apply ascii_str_cons; [lia|apply newline_indent_ascii]|].
    apply Forall_map. eapply Forall_impl; [|exact IH]. intros a Ha. simpl in Ha.
    apply ascii_str_app; [apply encode_basestring_ascii_ascii|].
    repeat (apply ascii_str_cons; [lia|]). apply Ha.
Qed.

Lemma json_dump_text_ascii obj indent : forallb is_ascii (json_dump_text obj indent) = true.
Proof.
  apply forallb_forall. intros c Hc. unfold is_ascii. apply N.ltb_lt.
  pose proof (iterencode_ascii indent obj 0) as A. unfold ascii_str in A.
  rewrite Forall_forall in A. apply A. exact Hc.
Qed.

End EncoderAscii.

(** ** Numbers read back *)

(** ** Reading back the digits of a number *)

Lemma N_of_digits_eq s : N_of_digits s = fold_left add_digit s 0.
Proof. reflexivity. Qed.

Lemma fold_digits_acc d : forall acc,
  fold_left add_digit (uint_chars d) (N.pos acc) = N.pos (Pos.of_uint_acc d acc).
Proof.
  induction d; intros acc; cbn [uint_chars fold_left Pos.of_uint_acc]; try reflexivity;
    rewrite <- IHd; f_equal; unfold add_digit; lia.
Qed.

Lemma fold_digits d : fold_left add_digit (uint_chars d) 0 = Pos.of_uint d.
Proof.
  induction d; cbn [uint_chars fold_left Pos.of_uint]; try reflexivity;
    match goal with
    | |- fold_left _ _ ?a = _ => let v := eval vm_compute in a in change a with v
    end; first [exact IHd | apply fold_digits_acc].
Qed.

Lemma N_of_digits_of_N n : N_of_digits (digits_of_N n) = n.
Proof.
  unfold digits_of_N. rewrite N_of_digits_eq, fold_digits.
  apply (DecimalN.Unsigned.of_to n).
Qed.

(** ** The shape of the digits of a number *)

Lemma nzhead_shape d : match Decimal.nzhead d with Decimal.D0 _ => False | _ => True end.
Proof. induction d; simpl; auto. Qed.

Lemma to_uint_shape n :
  N.to_uint n = Decimal.D0 Decimal.Nil
  \/ match N.to_uint n with Decimal.Nil | Decimal.D0 _ => False | _ => True end.
Proof.
  rewrite <- (DecimalN.Unsigned.of_to n) at 1 2.
  rewrite !DecimalN.Unsigned.to_of.
  pose proof (nzhead_shape (N.to_uint n)) as H. unfold Decimal.unorm.
  destruct (Decimal.nzhead (N.to_uint n)); auto.
Qed.

Lemma uint_chars_head d :
  match d with Decimal.Nil | Decimal.D0 _ => False | _ => True end ->
  exists c cs, uint_chars d = c :: cs /\ is_digit c = true /\ c <> 48.
Proof.
  destruct d; intros H; try contradiction; simpl; eexists; eexists;
    (split; [reflexivity|split; [reflexivity|discriminate]]).
Qed.

Lemma span_digits_app s d r rest :
  span_digits s = (d, r) -> (r = [] -> no_digit_first rest) ->
  span_digits (s ++ rest) = (d, r ++ rest).
Proof.
  revert d r. induction s as [|c s IH]; intros d r H Hr; simpl in H |- *.
  - injection H as <- <-. specialize (Hr eq_refl). destruct rest as [|c rest]; [reflexivity|].
    simpl in Hr |- *. rewrite Hr. reflexivity.
  - destruct (is_digit c) eqn:D.
    + destruct (span_digits s) as [d0 r0] eqn:S. injection H as <- <-.
      rewrite (IH d0 r0 eq_refl Hr). reflexivity.
    + injection H as <- <-. reflexivity.
Qed.

Lemma span_digits_all s :
  Forall (fun c => is_digit c = true) s -> span_digits s = (s, []).
Proof.
  induction 1 as [|c s Hc Hs IH]; simpl; [reflexivity|]. rewrite Hc, IH. reflexivity.
Qed.

Lemma match_natural_digits n rest :
  no_digit_first rest ->
  match_natural (digits_of_N n ++ rest) = Some (digits_of_N n, rest).
Proof.
  intros Hr. unfold digits_of_N. destruct (to_uint_shape n) as [->|H].
  - reflexivity.
  - destruct (uint_chars_head _ H) as (c & cs & E & Dc & Hc).
    pose proof (uint_chars_digits (N.to_uint n)) as F. rewrite E in F |- *.
    inversion F as [|? ? _ Fcs]; subst.
    simpl. destruct (N.eqb_spec c 48); [contradiction|]. rewrite Dc.
    rewrite (span_digits_app cs cs [] rest (span_digits_all _ Fcs) (fun _ => Hr)).
    reflexivity.
Qed.

Lemma digits_of_N_head n :
  exists c cs, digits_of_N n = c :: cs /\ is_digit c = true.
Proof.
  unfold digits_of_N. destruct (to_uint_shape n) as [->|H].
  - exists 48, []. auto.
  - destruct (uint_chars_head _ H) as (c & cs & E & Dc & _). eauto.
Qed.

Lemma match_integer_intstr z rest :
  no_digit_first rest -> match_integer (intstr z ++ rest) = Some (intstr z, rest).
Proof.
  intros Hr. unfold intstr. destruct (z <? 0)%Z.
  - simpl. rewrite match_natural_digits by exact Hr. reflexivity.
  - destruct (digits_of_N_head (Z.abs_N z)) as (c & cs & E & Dc).
    unfold match_integer. rewrite E. rewrite <- app_comm_cons.
    destruct (N.eqb_spec c 45) as [->|_]; [discriminate|].
    rewrite app_comm_cons, <- E. apply match_natural_digits, Hr.
Qed.

Lemma parse_int_intstr z : parse_int (intstr z) = z.
Proof.
  unfold intstr. destruct (z <? 0)%Z eqn:Hz.
  - simpl. rewrite N_of_digits_of_N. apply Z.ltb_lt in Hz. lia.
  - destruct (digits_of_N_head (Z.abs_N z)) as (c & cs & E & Dc).
    unfold parse_int. rewrite E.
    destruct (N.eqb_spec c 45) as [->|_]; [discriminate|].
    rewrite <- E, N_of_digits_of_N. apply Z.ltb_ge in Hz. lia.
Qed.

(** ** A number followed by a delimiter *)

Lemma delimited_no_digit rest : delimited rest -> no_digit_first rest.
Proof. destruct rest as [|c r]; simpl; [auto|]. intros [->| ->]; reflexivity. Qed.

Lemma match_natural_app s i r rest :
  match_natural s = Some (i, r) -> (r = [] -> no_digit_first rest) ->
  match_natural (s ++ rest) = Some (i, r ++ rest).
Proof.
  unfold match_natural. destruct s as [|c s]; [discriminate|]. simpl.
  destruct (c =? 48); [intros [= <- <-]; reflexivity|].
  destruct (is_digit c); [|discriminate].
  destruct (span_digits s) as [d r0] eqn:S. intros [= <- <-] Hr.
  rewrite (span_digits_app _ _ _ rest S Hr). reflexivity.
Qed.

Lemma match_integer_app s i r rest :
  match_integer s = Some (i, r) -> (r = [] -> no_digit_first rest) ->
  match_integer (s ++ rest) = Some (i, r ++ rest).
Proof.
  unfold match_integer. destruct s as [|c s]; [discriminate|]. rewrite <- app_comm_cons.
  destruct (c =? 45).
  - destruct (match_natural s) as [[d r0]|] eqn:M; [|discriminate]. intros [= <- <-] Hr.
    rewrite (match_natural_app _ _ _ rest M Hr). reflexivity.
  - intros M Hr. apply (match_natural_app (c :: s)); assumption.
Qed.

Lemma match_frac_app s f r rest :
  match_frac s = (f, r) -> delimited rest -> match_frac (s ++ rest) = (f, r ++ rest).
Proof.
  intros H Hr. pose proof (delimited_no_digit _ Hr) as Hd.
  unfold match_frac in H |- *. destruct s as [|c s].
  - injection H as <- <-. destruct rest as [|c rest]; [reflexivity|].
    simpl in Hr |- *. destruct Hr as [->| ->]; reflexivity.
  - rewrite <- app_comm_cons. destruct (c =? 46); [|injection H as <- <-; reflexivity].
    destruct (span_digits s) as [d r0] eqn:S.
    rewrite (span_digits_app _ _ _ rest S (fun _ => Hd)).
    destruct d as [|d0 d]; injection H as <- <-; reflexivity.
Qed.

Lemma match_sign_app s g r rest :
  match_sign s = (g, r) -> delimited rest -> match_sign (s ++ rest) = (g, r ++ rest).
Proof.
  intros H Hr. unfold match_sign in H |- *. destruct s as [|c s].
  - injection H as <- <-. destruct rest as [|c rest]; [reflexivity|].
    simpl in Hr |- *. destruct Hr as [->| ->]; reflexivity.
  - rewrite <- app_comm_cons. destruct ((c =? 45) || (c =? 43)); injection H as <- <-;
      reflexivity.
Qed.

Lemma match_exp_app s e r rest :
  match_exp s = (e, r) -> delimited rest -> match_exp (s ++ rest) = (e, r ++ rest).
Proof.
  intros H Hr. pose proof (delimited_no_digit _ Hr) as Hd.
  unfold match_exp in H |- *. destruct s as [|c s].
  - injection H as <- <-. destruct rest as [|c rest]; [reflexivity|].
    simpl in Hr |- *. destruct Hr as [->| ->]; reflexivity.
  - rewrite <- app_comm_cons.
    destruct ((c =? 101) || (c =? 69)); [|injection H as <- <-; reflexivity].
    destruct (match_sign s) as [g s1] eqn:G. rewrite (match_sign_app _ _ _ rest G Hr).
    destruct (span_digits s1) as [d r0] eqn:S.
    rewrite (span_digits_app _ _ _ rest S (fun _ => Hd)).
    destruct d as [|d0 d]; injection H as <- <-; reflexivity.
Qed.

Lemma match_number_app s i f e r rest :
  match_number s = Some (i, f, e, r) -> delimited rest ->
  match_number (s ++ rest) = Some (i, f, e, r ++ rest).
Proof.
  intros H Hr. pose proof (delimited_no_digit _ Hr) as Hd.
  unfold match_number in H |- *.
  destruct (match_integer s) as [[i0 s1]|] eqn:Mi; [|discriminate].
  rewrite (match_integer_app _ _ _ rest Mi (fun _ => Hd)).
  destruct (match_frac s1) as [f0 s2] eqn:Mf. rewrite (match_frac_app _ _ _ rest Mf Hr).
  destruct (match_exp s2) as [e0 s3] eqn:Me. rewrite (match_exp_app _ _ _ rest Me Hr).
  injection H as <- <- <- <-. reflexivity.
Qed.

(** an integer, as the encoder writes it, followed by a delimiter *)
Lemma match_number_intstr z rest :
  delimited rest -> match_number (intstr z ++ rest) = Some (intstr z, [], [], rest).
Proof.
  intros Hr. unfold match_number.
  rewrite (match_integer_intstr z rest (delimited_no_digit _ Hr)).
  pose proof (match_frac_app [] [] [] rest eq_refl Hr) as Mf. simpl app in Mf. rewrite Mf.
  pose proof (match_exp_app [] [] [] rest eq_refl Hr) as Me. simpl app in Me. rewrite Me.
  reflexivity.
Qed.

(** ** The float model of the examples *)

Lemma half_floats_lexical x : is_float_literal (half_repr x) = true.
Proof.
  unfold is_float_literal, half_repr, match_number.
  assert (R : no_digit_first [46; 53]) by reflexivity.
  destruct (digits_of_N_head x) as (c & cs & E & Dc).
  assert (Mi : match_integer (digits_of_N x ++ [46; 53]) = Some (digits_of_N x, [46; 53])).
  { unfold match_integer. rewrite E, <- app_comm_cons.
    destruct (N.eqb_spec c 45) as [->|_]; [discriminate|].
    rewrite app_comm_cons, <- E. apply match_natural_digits. exact R. }
  rewrite Mi. reflexivity.
Qed.

Lemma half_floats_exact x : half_of_literal (half_repr x) = FFinite x.
Proof.
  unfold half_of_literal, half_repr, digits_of_N.
  rewrite (span_digits_app _ _ [] [46; 53] (span_digits_all _ (uint_chars_digits _)))
    by (intros _; reflexivity).
  fold (digits_of_N x).
  simpl fst. f_equal. apply N_of_digits_of_N.
Qed.

(** ** Surrogates *)

Lemma hexval_hexdigit d : d < 16 -> hexval (hexdigit d) = Some d.
Proof.
  intros H. unfold hexval, hexdigit, is_digit. destruct (N.ltb_spec d 10).
  - replace ((48 <=? 48 + d) && (48 + d <=? 57)) with true
      by (symmetry; apply andb_true_iff; split; apply N.leb_le; lia).
    f_equal. lia.
  - replace ((48 <=? 87 + d) && (87 + d <=? 57)) with false
      by (symmetry; apply andb_false_iff; right; apply N.leb_gt; lia).
    replace ((97 <=? 87 + d) && (87 + d <=? 102)) with true
      by (symmetry; apply andb_true_iff; split; apply N.leb_le; lia).
    f_equal. lia.
Qed.

Lemma hex4_value_hex4 n :
  n < 65536 ->
  hex4_value (hexdigit (n / 4096 mod 16)) (hexdigit (n / 256 mod 16))
             (hexdigit (n / 16 mod 16)) (hexdigit (n mod 16)) = Some n.
Proof.
  intros H. unfold hex4_value.
  rewrite !hexval_hexdigit by (apply N.mod_lt; discriminate).
  f_equal.
  replace (n / 4096) with (n / 16 / 16 / 16) by (rewrite !N.Div0.div_div; reflexivity).
  replace (n / 256) with (n / 16 / 16) by (rewrite !N.Div0.div_div; reflexivity).
  pose proof (N.div_mod n 16 ltac:(discriminate)) as E1.
  pose proof (N.div_mod (n / 16) 16 ltac:(discriminate)) as E2.
  pose proof (N.div_mod (n / 16 / 16) 16 ltac:(discriminate)) as E3.
  pose proof (N.div_mod (n / 16 / 16 / 16) 16 ltac:(discriminate)) as E4.
  pose proof (N.mod_lt n 16 ltac:(discriminate)).
  pose proof (N.mod_lt (n / 16) 16 ltac:(discriminate)).
  pose proof (N.mod_lt (n / 16 / 16) 16 ltac:(discriminate)).
  pose proof (N.mod_lt (n / 16 / 16 / 16) 16 ltac:(discriminate)).
  assert (n / 16 / 16 / 16 / 16 = 0).
  { rewrite !N.Div0.div_div. apply N.div_small. exact H. }
  lia.
Qed.

(** ** Surrogate arithmetic *)

Lemma lor_shiftl_small a b : b < 1024 -> N.lor (N.shiftl a 10) b = a * 1024 + b.
Proof.
  intros Hb.
  assert (L : N.land (N.shiftl a 10) b = 0).
  { apply N.bits_inj_0. intros i. rewrite N.land_spec.
    destruct (N.ltb_spec i 10) as [Hi|Hi].
    - rewrite N.shiftl_spec_low by exact Hi. reflexivity.
    - replace (N.testbit b i) with false; [apply andb_false_r|].
      symmetry. destruct (N.eq_dec b 0) as [->|Hb0]; [apply N.bits_0|].
      apply N.bits_above_log2. apply N.log2_lt_pow2; [lia|].
      apply N.lt_le_trans with (2 ^ 10); [exact Hb|].
      apply N.pow_le_mono_r; lia. }
  rewrite <- N.lxor_lor by exact L. rewrite <- N.add_nocarry_lxor by exact L.
  rewrite N.shiftl_mul_pow2. reflexivity.
Qed.

Lemma high_of_eq c : 65536 <= c < 1114112 -> high_of c = 55296 + (c - 65536) / 1024.
Proof.
  intros H. unfold high_of. rewrite N.shiftr_div_pow2.
  change 1023 with (N.ones 10). rewrite N.land_ones. change (2 ^ 10) with 1024.
  assert (Hd : (c - 65536) / 1024 < 1024) by (apply N.Div0.div_lt_upper_bound; lia).
  rewrite N.mod_small by exact Hd.
  change 55296 with (N.shiftl 54 10) at 1. rewrite lor_shiftl_small by exact Hd.
  generalize ((c - 65536) / 1024). intros; lia.
Qed.

Lemma low_of_eq c : low_of c = 56320 + (c - 65536) mod 1024.
Proof.
  unfold low_of. change 1023 with (N.ones 10). rewrite N.land_ones. change (2 ^ 10) with 1024.
  change 56320 with (N.shiftl 55 10) at 1.
  rewrite lor_shiftl_small by (apply N.mod_lt; discriminate).
  generalize ((c - 65536) mod 1024). intros; lia.
Qed.

Lemma surrogates_of c :
  65536 <= c < 1114112 ->
  is_high_surrogate (high_of c) = true /\ is_low_surrogate (low_of c) = true
  /\ high_of c < 65536 /\ low_of c < 65536
  /\ join_surrogates (high_of c) (low_of c) = c.
Proof.
  intros H. rewrite high_of_eq by exact H. rewrite low_of_eq.
  assert (Hd : (c - 65536) / 1024 < 1024) by (apply N.Div0.div_lt_upper_bound; lia).
  pose proof (N.mod_lt (c - 65536) 1024 ltac:(discriminate)) as Hm.
  pose proof (N.div_mod (c - 65536) 1024 ltac:(discriminate)) as E.
  unfold is_high_surrogate, is_low_surrogate, join_surrogates.
  set (q := (c - 65536) / 1024) in *. set (m := (c - 65536) mod 1024) in *.
  clearbody q m.
  split; [|split; [|split; [|split]]].
  - apply andb_true_iff; split; apply N.leb_le; lia.
  - apply andb_true_iff; split; apply N.leb_le; lia.
  - lia.
  - lia.
  - replace (55296 + q - 55296) with q by lia.
    replace (56320 + m - 56320) with m by lia.
    rewrite lor_shiftl_small by exact Hm. lia.
Qed.

(** ** Strings read back *)

(** one step of [scanstring] on a character that stands for itself *)
Lemma scanstring_raw c T :
  c <> 34 -> c <> 92 -> 32 <= c -> scanstring (c :: T) = emit c (scanstring T).
Proof.
  intros H1 H2 H3. cbn [scanstring].
  destruct (N.eqb_spec c 34); [contradiction|].
  destruct (N.eqb_spec c 92); [contradiction|].
  destruct (N.ltb_spec c 32); [lia|]. reflexivity.
Qed.

(** one step on a two-character escape *)
Lemma scanstring_short x c T :
  backslash_escape x = Some c -> x <> 117 ->
  scanstring (92 :: x :: T) = emit c (scanstring T).
Proof.
  intros H1 H2. cbn [scanstring]. cbn [N.eqb Pos.eqb].
  destruct (N.eqb_spec x 117); [contradiction|]. rewrite H1. reflexivity.
Qed.

Lemma scanstring_u c T :
  c < 65536 -> (is_high_surrogate c = true -> not_low_escape T) ->
  scanstring (u_escape c ++ T) = emit c (scanstring T).
Proof.
  intros Hc Hhigh. unfold u_escape, hex4. cbn [app]. cbn [scanstring]. cbn [N.eqb Pos.eqb].
  rewrite (hex4_value_hex4 c Hc).
  destruct (is_high_surrogate c) eqn:Hh; [|reflexivity].
  destruct (startswith T [92; 117]) eqn:St; [|reflexivity].
  destruct (Hhigh eq_refl St) as (g1 & g2 & g3 & g4 & T' & u2 & -> & Hv & Hl).
  cbn [andb]. rewrite Hv, Hl. reflexivity.
Qed.

Lemma scanstring_pair c T :
  65536 <= c < 1114112 ->
  scanstring (u_escape (high_of c) ++ u_escape (low_of c) ++ T) = emit c (scanstring T).
Proof.
  intros Hc. destruct (surrogates_of c Hc) as (Hh & Hl & Hh16 & Hl16 & Hj).
  unfold u_escape, hex4. cbn [app]. cbn [scanstring]. cbn [N.eqb Pos.eqb].
  rewrite (hex4_value_hex4 _ Hh16), Hh. cbn [startswith N.eqb Pos.eqb andb].
  rewrite (hex4_value_hex4 _ Hl16), Hl, Hj. reflexivity.
Qed.

Lemma escape_ascii_cases c :
  c < 1114112 ->
  (escape_ascii c = [c] /\ c <> 34 /\ c <> 92 /\ 32 <= c)
  \/ (exists x, escape_ascii c = [92; x] /\ backslash_escape x = Some c /\ x <> 117)
  \/ (escape_ascii c = u_escape c /\ c < 65536)
  \/ (escape_ascii c = u_escape (high_of c) ++ u_escape (low_of c) /\ 65536 <= c).
Proof.
  intros Hc. unfold escape_ascii.
  destruct (N.eqb_spec c 92) as [->|N92].
  { right; left. exists 92. repeat split; discriminate. }
  destruct (N.eqb_spec c 34) as [->|N34].
  { right; left. exists 34. repeat split; discriminate. }
  destruct ((32 <=? c) && (c <=? 126)) eqn:P.
  { left. apply andb_true_iff in P. destruct P as [P _]. apply N.leb_le in P. auto. }
  destruct (N.eqb_spec c 8) as [->|N8].
  { right; left. exists 98. repeat split; discriminate. }
  destruct (N.eqb_spec c 12) as [->|N12].
  { right; left. exists 102. repeat split; discriminate. }
  destruct (N.eqb_spec c 10) as [->|N10].
  { right; left. exists 110. repeat split; discriminate. }
  destruct (N.eqb_spec c 13) as [->|N13].
  { right; left. exists 114. repeat split; discriminate. }
  destruct (N.eqb_spec c 9) as [->|N9].
  { right; left. exists 116. repeat split; discriminate. }
  destruct (N.ltb_spec c 65536).
  - right; right; left. auto.
  - right; right; right. auto.
Qed.

Lemma scanstring_escape c T :
  c < 1114112 -> (is_high_surrogate c = true -> not_low_escape T) ->
  scanstring (escape_ascii c ++ T) = emit c (scanstring T).
Proof.
  intros Hc Hh.
  destruct (escape_ascii_cases c Hc)
    as [(-> & H1 & H2 & H3)|[(x & -> & H1 & H2)|[(-> & H1)|(-> & H1)]]].
  - apply scanstring_raw; assumption.
  - apply scanstring_short; assumption.
  - apply scanstring_u; assumption.
  - rewrite <- app_assoc. apply scanstring_pair. lia.
Qed.

Lemma high_not_low c : is_high_surrogate c = true -> is_low_surrogate c = false.
Proof.
  unfold is_high_surrogate, is_low_surrogate. intros H. apply andb_true_iff in H.
  destruct H as [_ H]. apply N.leb_le in H. apply andb_false_iff. left. apply N.leb_gt. lia.
Qed.

Lemma not_low_escape_encoded s rest :
  forallb (fun c => c <? 1114112) s = true ->
  match s with c2 :: _ => is_low_surrogate c2 = false | [] => True end ->
  not_low_escape (flat_map escape_ascii s ++ 34 :: rest).
Proof.
  intros Hv Hl St. destruct s as [|c2 s]; [discriminate|].
  cbn [forallb] in Hv. apply andb_true_iff in Hv. destruct Hv as [Hc2 _].
  apply N.ltb_lt in Hc2. cbn [flat_map] in St |- *. rewrite <- app_assoc in St |- *.
  destruct (escape_ascii_cases c2 Hc2)
    as [(E & H1 & H2 & H3)|[(x & E & H1 & H2)|[(E & H1)|(E & H1)]]]; rewrite E in St |- *.
  - exfalso. cbn [app startswith] in St. destruct (N.eqb_spec c2 92); [contradiction|discriminate].
  - exfalso. cbn [app startswith] in St. cbn [N.eqb Pos.eqb andb] in St.
    destruct (N.eqb_spec x 117); [contradiction|discriminate].
  - unfold u_escape, hex4. cbn [app]. do 5 eexists. exists c2. split; [reflexivity|].
    split; [apply hex4_value_hex4; exact H1|exact Hl].
  - destruct (surrogates_of c2 ltac:(lia)) as (Hh & _ & Hh16 & _).
    unfold u_escape at 1, hex4 at 1. cbn [app]. do 5 eexists. exists (high_of c2).
    split; [reflexivity|]. split; [apply hex4_value_hex4; exact Hh16|apply high_not_low, Hh].
Qed.

(** [scanstring] reads back what [encode_basestring_ascii] writes. *)
Lemma scanstring_encoded s rest :
  str_ok s = true ->
  scanstring (flat_map escape_ascii s ++ 34 :: rest) = Some (s, rest).
Proof.
  unfold str_ok. intros H. apply andb_true_iff in H. destruct H as [Hv Hp].
  induction s as [|c s IH].
  - reflexivity.
  - cbn [forallb] in Hv. apply andb_true_iff in Hv. destruct Hv as [Hc Hv].
    cbn [no_surrogate_pair] in Hp. apply andb_true_iff in Hp. destruct Hp as [Hpair Hp].
    cbn [flat_map]. rewrite <- app_assoc.
    rewrite scanstring_escape.
    + rewrite (IH Hv Hp). reflexivity.
    + apply N.ltb_lt, Hc.
    + intros Hh. apply not_low_escape_encoded; [exact Hv|].
      rewrite Hh in Hpair. destruct s as [|c2 s]; [exact I|].
      cbn [andb] in Hpair. apply negb_true_iff in Hpair. exact Hpair.
Qed.

(** ** White space and first characters *)

(** ** White space *)

Lemma skip_ws_head c s : is_ws c = false -> skip_ws (c :: s) = c :: s.
Proof. intros H. simpl. rewrite H. reflexivity. Qed.

Lemma skip_ws_spaces n s : skip_ws (repeat 32 n ++ s) = skip_ws s.
Proof. induction n; simpl; auto. Qed.

Lemma skip_ws_newline_indent indent level s :
  skip_ws (newline_indent indent level ++ s) = skip_ws s.
Proof. unfold newline_indent. cbn [app skip_ws is_ws N.eqb Pos.eqb orb]. apply skip_ws_spaces. Qed.

Lemma delimited_newline_indent indent level s : delimited (newline_indent indent level ++ s).
Proof. right. reflexivity. Qed.

(** ** The first character of an encoded value *)

Lemma opens_value_digit c : is_digit c = true -> opens_value c.
Proof.
  intros H. apply is_digit_range in H. unfold opens_value, is_ws.
  split; [|lia].
  destruct (N.eqb_spec c 32); [lia|]. destruct (N.eqb_spec c 9); [lia|].
  destruct (N.eqb_spec c 10); [lia|]. destruct (N.eqb_spec c 13); [lia|]. reflexivity.
Qed.

Lemma match_natural_head s i r :
  match_natural s = Some (i, r) -> exists c t, s = c :: t /\ is_digit c = true.
Proof.
  intros H. apply match_natural_spec in H. destruct H as (-> & F & Hi).
  destruct i as [|c i]; [contradiction|]. inversion F; subst.
  exists c, (i ++ r). split; [reflexivity|assumption].
Qed.

Lemma match_integer_head s i r : match_integer s = Some (i, r) -> starts_number s.
Proof.
  unfold match_integer. destruct s as [|c s]; [discriminate|].
  destruct (N.eqb_spec c 45) as [->|_].
  - intros _. exists 45, s. auto.
  - intros H. apply match_natural_head in H. destruct H as (c' & t & [= <- <-] & D).
    exists c, s. auto.
Qed.

Lemma float_literal_head s : is_float_literal s = true -> starts_number s.
Proof.
  unfold is_float_literal, match_number.
  destruct (match_integer s) as [[i s1]|] eqn:M; [|discriminate].
  intros _. eapply match_integer_head; eauto.
Qed.

Lemma intstr_head z : starts_number (intstr z).
Proof.
  unfold intstr. destruct (z <? 0)%Z.
  - exists 45, (digits_of_N (Z.abs_N z)). split; [reflexivity|auto].
  - destruct (digits_of_N_head (Z.abs_N z)) as (c & cs & E & D). exists c, cs. auto.
Qed.

Lemma starts_number_opens s : starts_number s -> exists c t, s = c :: t /\ opens_value c.
Proof.
  intros (c & t & -> & [E|D]); exists c, t; (split; [reflexivity|]).
  - subst c. unfold opens_value. split; [reflexivity|]. split; [discriminate|reflexivity].
  - apply opens_value_digit, D.
Qed.

Section Head.
Context {FM : FloatModel}.
Hypothesis Hlex : float_repr_lexical.

Lemma iterencode_head indent level o :
  exists c t, iterencode indent level o = c :: t /\ opens_value c.
Proof.
  destruct o as [| [|] | z | [| | |x] | s | [|y l] | [|kv d]]; cbn [iterencode floatstr];
    try (eexists; eexists; split; [reflexivity|repeat split; try discriminate; reflexivity]).
  - apply starts_number_opens, intstr_head.
  - apply starts_number_opens, float_literal_head, Hlex.
Qed.

Lemma skip_ws_encoded indent level o s :
  skip_ws (iterencode indent level o ++ s) = iterencode indent level o ++ s.
Proof.
  destruct (iterencode_head indent level o) as (c & t & -> & (W & _)).
  apply skip_ws_head, W.
Qed.

End Head.

(** ** Arrays and objects read back *)

Lemma join_with_cons sep x y l :
  join_with sep (x :: y :: l) = x ++ sep ++ join_with sep (y :: l).
Proof. reflexivity. Qed.

Section Loops.
Context {FM : FloatModel}.
Hypothesis Hlex : float_repr_lexical.
Variable scan : pystr -> option (json * pystr).
Variables indent level : nat.

Lemma join_after_items x l rest :
  join_with (44 :: newline_indent indent (S level))
    (map (iterencode indent (S level)) (x :: l))
  ++ newline_indent indent level ++ 93 :: rest
  = iterencode indent (S level) x ++ after_items indent level l rest.
Proof.
  destruct l as [|y l]; [reflexivity|].
  cbn [map]. rewrite join_with_cons. unfold after_items.
  cbn [map]. rewrite <- !app_assoc. reflexivity.
Qed.

Lemma delimited_after_items l rest : delimited (after_items indent level l rest).
Proof. destruct l; [right; reflexivity|left; reflexivity]. Qed.

Lemma array_loop_items l : forall x n rest,
  (List.length l < n)%nat ->
  Forall (reads_back scan indent level) (x :: l) ->
  array_loop scan n (iterencode indent (S level) x ++ after_items indent level l rest)
  = Some (x :: l, rest).
Proof.
  induction l as [|y l IH]; intros x n rest Hn HF; destruct n as [|n]; try lia;
    inversion HF as [|? ? Hx HF']; subst; cbn [array_loop];
    rewrite (Hx _ (delimited_after_items _ rest)).
  - unfold after_items. rewrite skip_ws_newline_indent.
    rewrite skip_ws_head by reflexivity. reflexivity.
  - unfold after_items.
    rewrite skip_ws_head by reflexivity.
    cbn [N.eqb Pos.eqb].
    rewrite skip_ws_newline_indent.
    rewrite join_after_items.
    rewrite (skip_ws_encoded Hlex).
    cbn [List.length] in Hn.
    rewrite (IH y n rest ltac:(lia) HF'). reflexivity.
Qed.

Lemma JSONArray_items x l n rest :
  (List.length l < n)%nat ->
  Forall (reads_back scan indent level) (x :: l) ->
  JSONArray scan n
    (newline_indent indent (S level)
     ++ join_with (44 :: newline_indent indent (S level))
          (map (iterencode indent (S level)) (x :: l))
     ++ newline_indent indent level ++ 93 :: rest)
  = Some (JList (x :: l), rest).
Proof.
  intros Hn HF. unfold JSONArray.
  rewrite skip_ws_newline_indent, join_after_items, (skip_ws_encoded Hlex).
  destruct (iterencode_head Hlex indent (S level) x) as (c & t & E & (_ & Hc & _)).
  rewrite E at 1. cbn [app].
  destruct (N.eqb_spec c 93); [contradiction|].
  rewrite (array_loop_items l x n rest Hn HF). reflexivity.
Qed.

(** ** Objects *)

Lemma join_after_entries kv d rest :
  join_with (44 :: newline_indent indent (S level)) (map (entry indent level) (kv :: d))
  ++ newline_indent indent level ++ 125 :: rest
  = 34 :: flat_map escape_ascii (fst kv)
    ++ 34 :: 58 :: 32 :: iterencode indent (S level) (snd kv) ++ after_entries indent level d rest.
Proof.
  assert (E : forall t, entry indent level kv ++ t
              = 34 :: flat_map escape_ascii (fst kv)
                ++ 34 :: 58 :: 32 :: iterencode indent (S level) (snd kv) ++ t).
  { intros t. unfold entry, encode_basestring_ascii.
    cbn [app]. rewrite <- !app_assoc. reflexivity. }
  destruct d as [|kv' d].
  - cbn [map join_with]. apply E.
  - cbn [map]. rewrite join_with_cons. unfold after_entries. cbn [map].
    rewrite <- E. rewrite <- !app_assoc. reflexivity.
Qed.

Lemma delimited_after_entries d rest : delimited (after_entries indent level d rest).
Proof. destruct d; [right; reflexivity|left; reflexivity]. Qed.

Lemma object_loop_entries d : forall kv n rest,
  (List.length d < n)%nat ->
  Forall (entry_reads_back scan indent level) (kv :: d) ->
  object_loop scan n
    (flat_map escape_ascii (fst kv)
     ++ 34 :: 58 :: 32 :: iterencode indent (S level) (snd kv) ++ after_entries indent level d rest)
  = Some (kv :: d, rest).
Proof.
  induction d as [|kv' d IH]; intros [k v] n rest Hn HF; destruct n as [|n]; try lia;
    inversion HF as [|? ? [Hk Hv] HF']; subst; cbn [fst snd] in *; cbn [object_loop];
    rewrite (scanstring_encoded _ _ Hk);
    rewrite skip_ws_head by reflexivity; cbn [N.eqb Pos.eqb].
  - cbn [skip_ws is_ws N.eqb Pos.eqb orb].
    rewrite (skip_ws_encoded Hlex).
    rewrite (Hv _ (delimited_after_entries _ rest)).
    unfold after_entries. rewrite skip_ws_newline_indent.
    rewrite skip_ws_head by reflexivity. reflexivity.
  - cbn [skip_ws is_ws N.eqb Pos.eqb orb].
    rewrite (skip_ws_encoded Hlex).
    rewrite (Hv _ (delimited_after_entries _ rest)).
    unfold after_entries.
    rewrite skip_ws_head by reflexivity.
    cbn [N.eqb Pos.eqb].
    rewrite skip_ws_newline_indent.
    rewrite join_after_entries.
    rewrite skip_ws_head by reflexivity.
    cbn [N.eqb Pos.eqb].
    cbn [List.length] in Hn.
    rewrite (IH kv' n rest ltac:(lia) HF'). reflexivity.
Qed.

End Loops.

(** ** Objects as dictionaries *)

Section Dicts.
Context {FM : FloatModel}.

Lemma dict_set_fresh acc k v :
  existsb (fun k' => pystr_eqb k' k) (map fst acc) = false ->
  dict_set acc k v = acc ++ [(k, v)].
Proof.
  induction acc as [|[k' v'] acc IH]; cbn [dict_set map existsb fst app]; [reflexivity|].
  intros H. apply orb_false_iff in H. destruct H as [H1 H2].
  rewrite H1, (IH H2). reflexivity.
Qed.

Lemma keys_unique_middle a k b :
  keys_unique (a ++ k :: b) = true ->
  existsb (fun k' => pystr_eqb k' k) a = false.
Proof.
  induction a as [|x a IH]; cbn [app keys_unique existsb]; [reflexivity|].
  intros H. apply andb_true_iff in H. destruct H as [H1 H2].
  rewrite (IH H2), orb_false_r.
  apply negb_true_iff in H1. rewrite existsb_app in H1.
  apply orb_false_iff in H1. destruct H1 as [_ H1]. cbn [existsb] in H1.
  apply orb_false_iff in H1. apply H1.
Qed.

Lemma fold_dict_set pairs : forall acc,
  keys_unique (map fst (acc ++ pairs)) = true ->
  fold_left (fun d kv => dict_set d (fst kv) (snd kv)) pairs acc = acc ++ pairs.
Proof.
  induction pairs as [|[k v] pairs IH]; intros acc H; cbn [fold_left fst snd].
  - symmetry. apply List.app_nil_r.
  - rewrite map_app in H. cbn [map fst] in H.
    rewrite dict_set_fresh by (eapply keys_unique_middle; exact H).
    rewrite IH; rewrite <- app_assoc; [reflexivity|].
    rewrite map_app. exact H.
Qed.

Lemma dict_of_pairs_unique d :
  keys_unique (map fst d) = true -> dict_of_pairs d = d.
Proof. intros H. unfold dict_of_pairs. apply (fold_dict_set d []), H. Qed.

End Dicts.

Section Objects.
Context {FM : FloatModel}.
Hypothesis Hlex : float_repr_lexical.
Variable scan : pystr -> option (json * pystr).
Variables indent level : nat.

Lemma JSONObject_entries kv d n rest :
  (List.length d < n)%nat ->
  Forall (entry_reads_back scan indent level) (kv :: d) ->
  keys_unique (map fst (kv :: d)) = true ->
  JSONObject scan n
    (newline_indent indent (S level)
     ++ join_with (44 :: newline_indent indent (S level))
          (map (fun kv => encode_basestring_ascii (fst kv) ++ 58 :: 32
                          :: iterencode indent (S level) (snd kv)) (kv :: d))
     ++ newline_indent indent level ++ 125 :: rest)
  = Some (JDict (kv :: d), rest).
Proof.
  intros Hn HF Hu. unfold JSONObject.
  rewrite skip_ws_newline_indent.
  change (fun kv0 : pystr * json => encode_basestring_ascii (fst kv0) ++ 58 :: 32
                          :: iterencode indent (S level) (snd kv0))
    with (entry indent level).
  rewrite join_after_entries.
  rewrite skip_ws_head by reflexivity. cbn [N.eqb Pos.eqb].
  rewrite (object_loop_entries Hlex scan indent level d kv n rest Hn HF).
  rewrite (dict_of_pairs_unique _ Hu). reflexivity.
Qed.

End Objects.

(** ** Values read back *)

Section RoundTrip.
Context {FM : FloatModel}.

Hypothesis Hlex : float_repr_lexical.
Hypothesis Hexact : float_repr_exact.

Lemma scan_once_number fuel s :
  starts_number s ->
  scan_once (S fuel) s
  = match match_number s with
    | Some (integer, frac, exp, rest) =>
        match frac, exp with
        | [], [] => Some (JInt (parse_int integer), rest)
        | _, _ => Some (JFloat (float_of_literal (integer ++ frac ++ exp)), rest)
        end
    | None =>
        if startswith s (py "NaN") then Some (JFloat FNaN, skipn 3 s)
        else if startswith s (py "Infinity") then Some (JFloat FInf, skipn 8 s)
        else if startswith s (py "-Infinity") then Some (JFloat FNegInf, skipn 9 s)
        else None
    end.
Proof.
  intros (c & t & -> & Hc).
  assert (R : c = 45 \/ 48 <= c <= 57).
  { destruct Hc as [->|D]; [auto|right; apply is_digit_range, D]. }
  cbn [scan_once].
  destruct (N.eqb_spec c 34); [lia|].
  destruct (N.eqb_spec c 123); [lia|].
  destruct (N.eqb_spec c 91); [lia|].
  change (py "null") with [110; 117; 108; 108].
  change (py "true") with [116; 114; 117; 101].
  change (py "false") with [102; 97; 108; 115; 101].
  cbn [startswith].
  destruct (N.eqb_spec c 110); [lia|].
  destruct (N.eqb_spec c 116); [lia|].
  destruct (N.eqb_spec c 102); [lia|].
  reflexivity.
Qed.

Lemma scan_once_float fuel x rest :
  delimited rest ->
  scan_once (S fuel) (float_repr x ++ rest) = Some (JFloat (FFinite x), rest).
Proof.
  intros Hr.
  assert (Hs : starts_number (float_repr x ++ rest)).
  { destruct (float_literal_head _ (Hlex x)) as (c & t & E & Hc).
    exists c, (t ++ rest). rewrite E. auto. }
  rewrite (scan_once_number _ _ Hs).
  pose proof (Hlex x) as L. unfold is_float_literal in L.
  destruct (match_number (float_repr x)) as [[[[i f] e] r]|] eqn:M; [|discriminate].
  destruct r; [|discriminate].
  rewrite (match_number_app _ _ _ _ _ rest M Hr). cbn [app].
  apply match_number_spec in M. destruct M as (E & _).
  rewrite List.app_nil_r in E. rewrite <- E, Hexact.
  destruct f, e; try discriminate; reflexivity.
Qed.

Lemma scan_once_int fuel z rest :
  delimited rest ->
  scan_once (S fuel) (intstr z ++ rest) = Some (JInt z, rest).
Proof.
  intros Hr.
  assert (Hs : starts_number (intstr z ++ rest)).
  { destruct (intstr_head z) as (c & t & E & Hc).
    exists c, (t ++ rest). rewrite E. auto. }
  rewrite (scan_once_number _ _ Hs), (match_number_intstr z rest Hr), parse_int_intstr.
  reflexivity.
Qed.

Lemma list_sum_le_in (l : list nat) n : In n l -> (n <= list_sum l)%nat.
Proof.
  induction l as [|m l IH]; simpl; [tauto|].
  intros [->|H]; [lia|]. specialize (IH H). lia.
Qed.

Lemma json_size_pos (o : json) : (1 <= json_size o)%nat.
Proof. destruct o; cbn [json_size]; lia. Qed.

Lemma list_sum_length {A} (f : A -> nat) (l : list A) :
  (forall a, 1 <= f a)%nat -> (List.length l <= list_sum (map f l))%nat.
Proof.
  intros H. induction l as [|a l IH]; simpl; [lia|].
  specialize (H a). lia.
Qed.

Theorem scan_once_encoded indent (o : json) : forall level fuel rest,
  json_ok o = true ->
  (json_size o <= fuel)%nat ->
  delimited rest ->
  scan_once fuel (iterencode indent level o ++ rest) = Some (o, rest).
Proof.
  induction o as [| b | z | f | s | l IH | d IH] using json_induction;
    intros level fuel rest Hok Hsz Hr;
    (destruct fuel as [|fuel]; [pose proof (json_size_pos JNull); cbn [json_size] in Hsz; lia|]).
  - vm_compute. destruct rest; reflexivity.
  - destruct b; vm_compute; destruct rest; reflexivity.
  - apply scan_once_int, Hr.
  - destruct f as [| | |x].
    + vm_compute. destruct rest; reflexivity.
    + vm_compute. destruct rest; reflexivity.
    + vm_compute. destruct rest; reflexivity.
    + apply scan_once_float, Hr.
  - cbn [iterencode]. unfold encode_basestring_ascii.
    cbn [app scan_once N.eqb Pos.eqb]. rewrite <- app_assoc. cbn [app].
    rewrite (scanstring_encoded _ _ Hok). reflexivity.
  - destruct l as [|x l]; [vm_compute; destruct rest; reflexivity|].
    cbn [json_size] in Hsz. cbn [json_ok] in Hok.
    assert (HF : Forall (reads_back (scan_once fuel) indent level) (x :: l)).
    { rewrite Forall_forall in IH |- *. intros y Hy r Hd.
      apply IH; auto.
      - rewrite forallb_forall in Hok. apply Hok, Hy.
      - pose proof (list_sum_le_in (map json_size (x :: l)) (json_size y)
                      (in_map _ _ _ Hy)). lia. }
    assert (Hn : (List.length l < fuel)%nat).
    { pose proof (list_sum_length json_size (x :: l) json_size_pos) as L.
      cbn [List.length] in L. lia. }
    cbn [iterencode app scan_once N.eqb Pos.eqb].
    rewrite <- !app_assoc. cbn [app].
    apply (JSONArray_items Hlex); assumption.
  - destruct d as [|kv d]; [vm_compute; destruct rest; reflexivity|].
    cbn [json_size] in Hsz. cbn [json_ok] in Hok.
    apply andb_true_iff in Hok. destruct Hok as [Hok Hu].
    assert (HF : Forall (entry_reads_back (scan_once fuel) indent level) (kv :: d)).
    { rewrite Forall_forall in IH |- *. rewrite forallb_forall in Hok.
      intros y Hy. specialize (Hok y Hy). apply andb_true_iff in Hok.
      destruct Hok as [Hk Hv]. split; [exact Hk|].
      intros r Hd. apply IH; auto.
      pose proof (list_sum_le_in (map (fun kv => json_size (snd kv)) (kv :: d))
                    (json_size (snd y))
                    (in_map (fun kv => json_size (snd kv)) _ _ Hy)). lia. }
    assert (Hn : (List.length d < fuel)%nat).
    { pose proof (list_sum_length (fun kv => json_size (snd kv)) (kv :: d)
                    (fun a => json_size_pos (snd a))) as L.
      cbn [List.length] in L. lia. }
    cbn [iterencode app scan_once N.eqb Pos.eqb].
    rewrite <- !app_assoc. cbn [app].
    apply (JSONObject_entries Hlex); assumption.
Qed.

End RoundTrip.

(** ** [json.loads] after [json.dump] *)

Lemma join_with_length sep chunks :
  (list_sum (map (@List.length N) chunks) <= List.length (join_with sep chunks))%nat.
Proof.
  induction chunks as [|x l IH]; [simpl; lia|].
  destruct l as [|y l]; [simpl; lia|].
  rewrite join_with_cons, !length_app.
  change (list_sum (map (@List.length N) (x :: y :: l)))
    with (List.length x + list_sum (map (@List.length N) (y :: l)))%nat.
  apply Nat.add_le_mono_l. etransitivity; [exact IH|]. apply Nat.le_add_l.
Qed.

Lemma list_sum_map_le {A} (f g : A -> nat) (l : list A) :
  Forall (fun a => f a <= g a)%nat l -> (list_sum (map f l) <= list_sum (map g l))%nat.
Proof. induction 1; simpl; lia. Qed.

Section Loads.
Context {FM : FloatModel}.
Hypothesis Hlex : float_repr_lexical.
Hypothesis Hexact : float_repr_exact.

Lemma json_size_encoded indent (o : json) : forall level,
  (json_size o <= List.length (iterencode indent level o))%nat.
Proof.
  induction o as [| b | z | f | s | l IH | d IH] using json_induction; intros level.
  - simpl. lia.
  - simpl. destruct b; simpl; lia.
  - destruct (iterencode_head Hlex indent level (JInt z)) as (c & t & -> & _). simpl. lia.
  - destruct (iterencode_head Hlex indent level (JFloat f)) as (c & t & -> & _). simpl. lia.
  - destruct (iterencode_head Hlex indent level (JStr s)) as (c & t & -> & _). simpl. lia.
  - destruct l as [|x l]; [simpl; lia|].
    cbn [iterencode json_size]. cbn [List.length]. rewrite !length_app.
    pose proof (join_with_length (44 :: newline_indent indent (S level))
                  (map (iterencode indent (S level)) (x :: l))) as J.
    rewrite map_map in J.
    pose proof (list_sum_map_le json_size
                  (fun y => List.length (iterencode indent (S level) y)) (x :: l)) as L.
    assert (F : Forall (fun a => (json_size a <= List.length (iterencode indent (S level) a))%nat)
                  (x :: l)).
    { eapply Forall_impl; [|exact IH]. intros a Ha. apply Ha. }
    specialize (L F). lia.
  - destruct d as [|kv d]; [simpl; lia|].
    cbn [iterencode json_size]. cbn [List.length]. rewrite !length_app.
    set (ent := fun kv : pystr * json => encode_basestring_ascii (fst kv) ++ 58 :: 32
                          :: iterencode indent (S level) (snd kv)).
    pose proof (join_with_length (44 :: newline_indent indent (S level))
                  (map ent (kv :: d))) as J.
    rewrite map_map in J.
    pose proof (list_sum_map_le (fun kv => json_size (snd kv))
                  (fun y => List.length (ent y)) (kv :: d)) as L.
    assert (F : Forall (fun a => (json_size (snd a) <= List.length (ent a))%nat) (kv :: d)).
    { eapply Forall_impl; [|exact IH]. intros a Ha. unfold ent.
      rewrite length_app. cbn [List.length]. specialize (Ha (S level)). lia. }
    specialize (L F). lia.
Qed.

Theorem json_loads_dump (o : json) indent :
  json_ok o = true ->
  json_loads (json_dump_text o indent) = Ret o.
Proof.
  intros Hok. unfold json_loads, json_dump_text.
  destruct (iterencode_head Hlex indent 0 o) as (c & t & E & (W & _ & A)).
  assert (B : startswith (iterencode indent 0 o) [65279] = false).
  { rewrite E. cbn [startswith]. destruct (N.eqb_spec c 65279); [lia|reflexivity]. }
  rewrite B.
  assert (S1 : skip_ws (iterencode indent 0 o) = iterencode indent 0 o).
  { rewrite E. apply skip_ws_head, W. }
  rewrite S1.
  pose proof (scan_once_encoded Hlex Hexact indent o 0
                (S (List.length (iterencode indent 0 o))) [] Hok) as R.
  rewrite List.app_nil_r in R. rewrite R; [reflexivity| |exact I].
  pose proof (json_size_encoded indent o 0). lia.
Qed.

End Loads.

(** ** What a run that ends normally wrote *)

Section Saved.
Context {FM : FloatModel}.
Variable E : Env.

(** A run of the [try] block on an audio file that ends normally wrote the
    parsed reply to the output path. *)
Lemma saved_run fuel model prompt out fp st st' t :
  guess_type E fp = Some t ->
  startswith t (py "audio/") = true ->
  process_body E fuel model prompt out fp st = (Ret tt, st') ->
  exists response txt obj f fs4 fs5,
    text response = Ret txt /\ json_loads txt = Ret obj
    /\ open_w (json_path_of out fp) fs4 = (Ret f, fs5)
    /\ fs st' = file_write f (json_dump_text obj 4) fs5.
Proof.
  intros G A H. apply process_body_run in H.
  inversion H as [G'|t' G' A'|t' ru st1 r0 st0 G' A' U HU]; subst.
  - rewrite G in G'. inversion G'; subst. rewrite A in A'. discriminate.
  - inversion HU as [| |v st1' rw st2 r1 st3 W HW]; subst.
    inversion HW as [| |st2' rs st4 r2 st5 S HS]; subst.
    inversion HS as [| |resp st4' ro fs5 Ho Hne|resp st4' f fs5 Ho Hne
                     |resp st4' f fs5 t0 e Ho Ht Hj|resp st4' f fs5 t0 obj Ho Ht Hj]; subst.
    + destruct ro as [f0| |]; [destruct (Hne f0); reflexivity|discriminate|discriminate].
    + destruct (text resp) as [t0| |]; [destruct (Hne t0); reflexivity|discriminate|discriminate].
    + exists resp, t0, obj, f, (fs st4), fs5. auto.
Qed.

End Saved.

(** ** A reply that is not JSON *)

Lemma json_loads_raises {FM : FloatModel} t e :
  json_loads t = Raise e -> class_of e = JSONDecodeError.
Proof.
  unfold json_loads. destruct (startswith t [65279]).
  - intros [= <-]. reflexivity.
  - destruct (scan_once _ _) as [[obj rest]|].
    + destruct (skip_ws rest); [discriminate|]. intros [= <-]. reflexivity.
    + intros [= <-]. reflexivity.
Qed.

Section Invalid.
Context {FM : FloatModel}.
Variable E : Env.

(** C1, as the code behaves (the claim does not hold of it): when the text
    of the reply is not valid JSON, the output file has already been opened
    for writing, before the text is parsed.  The run of the file leaves an
    empty file at the derived output path (an existing file there is
    emptied); the error is caught and logged, and the loop goes on with the
    next file. *)
Theorem C1_invalid_reply_leaves_empty_file
    fuel model prompt out fp rest st t v st1 st2 response st4 txt e f fs5 :
  guess_type E fp = Some t ->
  startswith t (py "audio/") = true ->
  upload_to_gemini E fp t (snd (logging INFO (py "Uploading: " ++ fp) st)) = (Ret v, st1) ->
  wait_for_files_active E fuel (ensure_list v) st1 = (Ret tt, st2) ->
  send_message E (mk_chat model [mk_content (py "user") (ensure_list v)]) prompt
    (snd (start_chat E model [mk_content (py "user") (ensure_list v)] st2))
  = (Ret response, st4) ->
  text response = Ret txt ->
  json_loads txt = Raise e ->
  open_w (json_path_of out fp) (fs st4) = (Ret f, fs5) ->
  let st5 := log_error E fp e (mk_state fs5 (log st4) (trace st4) (remote st4)) in
  process_file E fuel model prompt out fp st = (Ret tt, st5)
  /\ read_file (fs st5) (json_path_of out fp) = Some []
  /\ process_files E fuel model prompt out (fp :: rest) st
     = process_files E fuel model prompt out rest st5.
Proof.
  intros G A U W S T J O st5.
  assert (B : process_body E fuel model prompt out fp st
              = (Raise e, mk_state fs5 (log st4) (trace st4) (remote st4))).
  { unfold process_body. rewrite G. cbn [attr_startswith]. unfold bind at 1, lift at 1.
    rewrite A. cbn [negb]. unfold bind at 1.
    change (logging INFO (py "Uploading: " ++ fp) st)
      with (Ret tt, snd (logging INFO (py "Uploading: " ++ fp) st)).
    cbv beta iota. unfold bind at 1. rewrite U. unfold bind at 1. rewrite W.
    unfold bind at 1.
    change (start_chat E model [mk_content (py "user") (ensure_list v)] st2)
      with (Ret (mk_chat model [mk_content (py "user") (ensure_list v)]),
            snd (start_chat E model [mk_content (py "user") (ensure_list v)] st2)).
    cbv beta iota. unfold bind at 1. rewrite S. unfold bind at 1, on_fs at 1.
    rewrite O. unfold bind at 1, lift at 1. rewrite T. unfold bind at 1, lift at 1.
    cbn [text]. rewrite J. reflexivity. }
  assert (C : is_Exception (class_of e) = true).
  { rewrite (json_loads_raises _ _ J). reflexivity. }
  pose proof (process_file_caught E _ _ _ _ _ _ _ _ B C) as P.
  split; [exact P|]. split.
  - apply (read_file_written _ _ _ _ [] O).
  - rewrite process_files_cons, P. reflexivity.
Qed.

End Invalid.

(** ** A reply that is not JSON, on the scenario *)

(** C1 on the scenario: the reply for [call3.wav] is not JSON; no file
    [TextOutput/call3.json] exists before the run and an empty one exists
    after it. *)
Lemma C1_witness :
  path_exists (fs prepared_state) (py "TextOutput/call3.json") = false
  /\ fst (@process_file half_floats demo_env 5 (@the_model half_floats default_model_name)
              user_prompt (py "TextOutput") (py "Unsorted/call3.wav") prepared_state)
     = Ret tt
  /\ read_file
       (fs (snd (@process_file half_floats demo_env 5 (@the_model half_floats default_model_name)
              user_prompt (py "TextOutput") (py "Unsorted/call3.wav") prepared_state)))
       (py "TextOutput/call3.json") = Some [].
Proof.
  split; [vm_compute; reflexivity|].
  edestruct (@C1_invalid_reply_leaves_empty_file half_floats demo_env 5
              (@the_model half_floats default_model_name) user_prompt
              (py "TextOutput") (py "Unsorted/call3.wav") [] prepared_state)
    as (P & R & _).
  - vm_compute; reflexivity.
  - vm_compute; reflexivity.
  - vm_compute; reflexivity.
  - vm_compute; reflexivity.
  - vm_compute; reflexivity.
  - vm_compute; reflexivity.
  - vm_compute; reflexivity.
  - vm_compute; reflexivity.
  - rewrite P. split; [reflexivity|]. exact R.
Defined.

(** ** The discoverer *)

Section Discoverer.
Context {FM : FloatModel}.
Variable E : Env.

Lemma audio_files_loop_untyped fs directory names : forall audio_files,
  Exists (fun name => untyped_file E fs (join directory name)) names ->
  exists e, audio_files_loop E fs directory names audio_files = Raise e
            /\ class_of e = AttributeError.
Proof.
  induction names as [|name names IH]; intros acc H.
  - inversion H.
  - cbn [audio_files_loop].
    destruct (isfile fs (join directory name)) eqn:F.
    + destruct (guess_type E (join directory name)) as [t|] eqn:G.
      * cbn [attr_startswith].
        assert (H' : Exists (fun name => untyped_file E fs (join directory name)) names).
        { inversion H as [? ? [_ G']|]; subst; [congruence|assumption]. }
        destruct (startswith t (py "audio/")); apply IH, H'.
      * cbn [attr_startswith]. eexists. split; reflexivity.
    + apply IH. inversion H as [? ? [F' _]|]; subst; [congruence|assumption].
Qed.

Lemma audio_files_loop_typed fs directory names : forall audio_files,
  Forall (fun name => ~ untyped_file E fs (join directory name)) names ->
  audio_files_loop E fs directory names audio_files
  = Ret (audio_files ++ filter (audio_entry E fs) (map (join directory) names)).
Proof.
  induction names as [|name names IH]; intros acc H.
  - cbn. rewrite List.app_nil_r. reflexivity.
  - inversion H as [|? ? Hn H']; subst.
    cbn [audio_files_loop map filter]. unfold audio_entry at 1.
    destruct (isfile fs (join directory name)) eqn:F.
    + destruct (guess_type E (join directory name)) as [t|] eqn:G.
      * cbn [attr_startswith andb].
        destruct (startswith t (py "audio/")).
        -- rewrite (IH _ H'), <- app_assoc. reflexivity.
        -- apply IH, H'.
      * destruct Hn. split; assumption.
    + cbn [andb]. apply IH, H'.
Qed.

(** C2, as the code behaves (the claim does not hold of it): in a directory
    whose listing holds a regular file whose content type cannot be
    determined, [get_audio_file_paths] raises [AttributeError]; it returns no
    list. *)
Theorem C2_untyped_file_raises directory fs names :
  os_listdir fs directory = Ret names ->
  Exists (fun name => untyped_file E fs (join directory name)) names ->
  exists e, get_audio_file_paths E directory fs = Raise e
            /\ class_of e = AttributeError.
Proof.
  intros L H. unfold get_audio_file_paths. rewrite L.
  apply audio_files_loop_untyped, H.
Qed.

(** C3, in the directories where the content type of every regular file can
    be determined: [get_audio_file_paths] returns exactly the entries that
    are regular files and whose guessed type starts with [audio/], in the
    order of the directory listing.  In the other directories the function
    raises (C2), so the claim does not hold for every directory. *)
Theorem C3_typed_listing_is_filtered directory fs names :
  os_listdir fs directory = Ret names ->
  Forall (fun name => ~ untyped_file E fs (join directory name)) names ->
  get_audio_file_paths E directory fs
  = Ret (filter (audio_entry E fs) (map (join directory) names)).
Proof.
  intros L H. unfold get_audio_file_paths. rewrite L.
  apply (audio_files_loop_typed fs directory names [] H).
Qed.

End Discoverer.

(** C2 on the scenario: [Unsorted] holds [README], a regular file without
    an extension. *)
Lemma C2_witness :
  os_listdir demo_fs (py "Unsorted") = Ret [py "call3.wav"; py "README"]
  /\ isfile demo_fs (py "Unsorted/README") = true
  /\ guess_type demo_env (py "Unsorted/README") = None
  /\ exists e, get_audio_file_paths demo_env (py "Unsorted") demo_fs = Raise e
               /\ class_of e = AttributeError.
Proof.
  split; [vm_compute; reflexivity|].
  split; [vm_compute; reflexivity|].
  split; [vm_compute; reflexivity|].
  apply (@C2_untyped_file_raises half_floats demo_env (py "Unsorted") demo_fs
           [py "call3.wav"; py "README"]).
  - vm_compute; reflexivity.
  - apply Exists_cons_tl, Exists_cons_hd. split; vm_compute; reflexivity.
Defined.

(** C3 on the scenario: the two audio files of [AudioData], without the
    text file and the subdirectory. *)
Lemma C3_witness :
  get_audio_file_paths demo_env (py "AudioData") demo_fs
  = Ret [py "AudioData/call1.wav"; py "AudioData/call2.mp3"].
Proof.
  rewrite (@C3_typed_listing_is_filtered half_floats demo_env (py "AudioData") demo_fs
             [py "call1.wav"; py "notes.txt"; py "call2.mp3"; py "archive"]).
  - vm_compute; reflexivity.
  - vm_compute; reflexivity.
  - repeat constructor; intros [F G]; vm_compute in F, G; discriminate.
Defined.

(** ** Exceptions in the loop *)

Section Handler.
Context {FM : FloatModel}.
Variable E : Env.

Lemma extract_raises_Exception fuel paths prompt out model_name st e st' :
  extract_json_from_audio E fuel paths prompt out model_name st = (Raise e, st') ->
  is_Exception (class_of e) = true ->
  fst (os_makedirs out true (fs st)) = Raise e.
Proof.
  unfold extract_json_from_audio, bind, on_fs.
  destruct (os_makedirs out true (fs st)) as [[[]|e0|] fs1]; cbn [fst].
  - intros H He. apply process_files_never_Exception in H. congruence.
  - intros [= <- <-] _. reflexivity.
  - discriminate.
Qed.

(** C4, amended: an exception of class [Exception] (or of a subclass)
    raised by the [try] block of one file is caught and logged with the path
    of the file, and the loop goes on with the next file; the loop never ends
    with such an exception; and when [extract_json_from_audio] raises one,
    the creation of the output directory, before the loop, raised it. *)
Theorem C4_Exception_is_caught_and_logged fuel model prompt out fp rest st e st' :
  process_body E fuel model prompt out fp st = (Raise e, st') ->
  is_Exception (class_of e) = true ->
  process_file E fuel model prompt out fp st = (Ret tt, log_error E fp e st')
  /\ log (log_error E fp e st')
     = log st' ++ [(ERROR, py "Error processing " ++ fp ++ py ": " ++ message e)]
  /\ process_files E fuel model prompt out (fp :: rest) st
     = process_files E fuel model prompt out rest (log_error E fp e st')
  /\ (forall paths st0 e0 st1,
        process_files E fuel model prompt out paths st0 = (Raise e0, st1) ->
        is_Exception (class_of e0) = false)
  /\ (forall paths model_name st0 e0 st1,
        extract_json_from_audio E fuel paths prompt out model_name st0 = (Raise e0, st1) ->
        is_Exception (class_of e0) = true ->
        fst (os_makedirs out true (fs st0)) = Raise e0).
Proof.
  intros B He.
  pose proof (process_file_caught E _ _ _ _ _ _ _ _ B He) as P.
  split; [exact P|]. split; [reflexivity|]. split.
  - rewrite process_files_cons, P. reflexivity.
  - split.
    + intros paths st0 e0 st1 H. eapply process_files_never_Exception; eauto.
    + intros paths mn st0 e0 st1 H H0. eapply extract_raises_Exception; eauto.
Qed.

(** C9: an exception that is not of class [Exception], raised by the [try]
    block of one file, is not caught: the iteration raises it, the loop
    raises it and the files after it are not processed, whatever was
    processed before; [KeyboardInterrupt] and [SystemExit] are such
    exceptions. *)
Theorem C9_other_exceptions_propagate fuel model prompt out fp rest st e st' :
  process_body E fuel model prompt out fp st = (Raise e, st') ->
  is_Exception (class_of e) = false ->
  process_file E fuel model prompt out fp st = (Raise e, st')
  /\ process_files E fuel model prompt out (fp :: rest) st = (Raise e, st')
  /\ (forall done st0,
        process_files E fuel model prompt out done st0 = (Ret tt, st) ->
        process_files E fuel model prompt out (done ++ fp :: rest) st0 = (Raise e, st'))
  /\ is_Exception KeyboardInterrupt = false
  /\ is_Exception SystemExit = false.
Proof.
  intros B He.
  pose proof (process_file_propagates E _ _ _ _ _ _ _ _ B He) as P.
  split; [exact P|].
  assert (Q : process_files E fuel model prompt out (fp :: rest) st = (Raise e, st')).
  { rewrite process_files_cons, P. reflexivity. }
  split; [exact Q|]. split; [|split; reflexivity].
  intros done st0 D. rewrite process_files_app, D. exact Q.
Qed.

End Handler.

(** ** The handler on the scenario *)

(** C4 on the scenario: a handle of [call2.mp3] fails, the error is logged
    and the loop ends normally. *)
Lemma C4_witness :
  exists st',
    process_body demo_env 5 (@the_model half_floats default_model_name) user_prompt
      (py "TextOutput") (py "AudioData/call2.mp3") prepared_state
    = (Raise (mk_exn PlainException (py "File files/extra failed to process")), st')
    /\ process_files demo_env 5 (@the_model half_floats default_model_name) user_prompt
         (py "TextOutput") [py "AudioData/call2.mp3"] prepared_state
       = (Ret tt,
          log_error demo_env (py "AudioData/call2.mp3")
            (mk_exn PlainException (py "File files/extra failed to process")) st').
Proof.
  eexists. split.
  - vm_compute. reflexivity.
  - refine (proj1 (proj2 (proj2
      (@C4_Exception_is_caught_and_logged half_floats demo_env 5
         (@the_model half_floats default_model_name) user_prompt (py "TextOutput")
         (py "AudioData/call2.mp3") [] prepared_state _ _ _ _)))).
    + vm_compute. reflexivity.
    + reflexivity.
Defined.

(** C4 as stated fails: a [KeyboardInterrupt] raised during the upload of
    the first file is not caught.  The call raises it, no error is logged
    and the second file is never uploaded. *)
Lemma C4_counterexample :
  extract_json_from_audio interrupted_env 5
    [py "AudioData/call1.wav"; py "AudioData/call2.mp3"]
    user_prompt (py "TextOutput") default_model_name interrupted_state
  = (Raise (mk_exn KeyboardInterrupt []),
     @mk_state half_floats interrupted_env
       (snd (os_makedirs (py "TextOutput") true demo_fs))
       [(INFO, py "Uploading: AudioData/call1.wav")]
       [EvUpload (py "AudioData/call1.wav") (py "audio/x-wav")
          (Raise (mk_exn KeyboardInterrupt []))]
       O).
Proof. vm_compute. reflexivity. Qed.

(** C9 on the scenario: interrupted during the first upload, the loop stops
    there. *)
Lemma C9_witness :
  process_files interrupted_env 5 (@the_model half_floats default_model_name) user_prompt
    (py "TextOutput") [py "AudioData/call1.wav"; py "AudioData/call2.mp3"] interrupted_state
  = (Raise (mk_exn KeyboardInterrupt []),
     @mk_state half_floats interrupted_env demo_fs
       [(INFO, py "Uploading: AudioData/call1.wav")]
       [EvUpload (py "AudioData/call1.wav") (py "audio/x-wav")
          (Raise (mk_exn KeyboardInterrupt []))]
       O).
Proof.
  refine (proj1 (proj2
    (@C9_other_exceptions_propagate half_floats interrupted_env 5
       (@the_model half_floats default_model_name) user_prompt (py "TextOutput")
       (py "AudioData/call1.wav") [py "AudioData/call2.mp3"] interrupted_state _ _ _ _))).
  - vm_compute. reflexivity.
  - reflexivity.
Defined.

(** ** Readiness on the whole run *)

Section Again.
Context {FM : FloatModel}.
Variable E : Env.

(** C5: in the events of a run of [extract_json_from_audio], every start of
    a chat and every message uses exactly the handles of the last upload,
    after a round of polls in which each of them reported the ready state;
    and when a poll of the run of one file reports the failed state, that run
    leaves the file system as it was (no output file), ends with an exception
    of class [Exception], and the loop goes on with the next file. *)
Theorem C5_no_chat_before_ready fuel paths prompt out model_name st r st' evs :
  extract_json_from_audio E fuel paths prompt out model_name st = (r, st') ->
  trace st' = trace st ++ evs ->
  ready_before_chat evs = true
  /\ (forall model fp rest st1 r1 st2 evs1,
        process_body E fuel model prompt out fp st1 = (r1, st2) ->
        trace st2 = trace st1 ++ evs1 ->
        Exists failed_poll evs1 ->
        fs st2 = fs st1
        /\ exists e, r1 = Raise e /\ is_Exception (class_of e) = true
           /\ process_files E fuel model prompt out (fp :: rest) st1
              = process_files E fuel model prompt out rest (log_error E fp e st2)).
Proof.
  intros H T. split.
  - eapply (proj1 (run_readiness E)); eauto.
  - intros model fp rest st1 r1 st2 evs1 H1 T1 X.
    eapply (proj2 (run_readiness E)); eauto.
Qed.

End Again.

(** C5 on the scenario, with a handle that is ready after one wait and a
    handle that fails. *)
Lemma C5_witness :
  ready_before_chat
    (trace (snd (extract_json_from_audio demo_env 5
                   [py "AudioData/call1.wav"; py "AudioData/call2.mp3"]
                   user_prompt (py "TextOutput") default_model_name demo_state))) = true.
Proof.
  refine (proj1 (@C5_no_chat_before_ready half_floats demo_env 5
                   [py "AudioData/call1.wav"; py "AudioData/call2.mp3"]
                   user_prompt (py "TextOutput") default_model_name demo_state _ _ _ _ _)).
  - vm_compute. reflexivity.
  - vm_compute. reflexivity.
Defined.

(** ** The handles that are polled *)

Lemma poll_of_more f files evs :
  Forall (poll_of files) evs -> Forall (poll_of (f :: files)) evs.
Proof.
  intros H. eapply Forall_impl; [|exact H].
  intros [] P; cbn in *; auto.
Qed.

Section Normalize.
Context {FM : FloatModel}.
Variable E : Env.

Lemma on_remote_trace {A} (op : Remote E -> outcome A * Remote E) ev st r st' :
  on_remote op ev st = (r, st') -> trace st' = trace st ++ [ev r].
Proof. intros H. apply on_remote_extends in H. apply H. Qed.

Lemma poll_round_members files : forall st r st',
  poll_round E files st = (r, st') ->
  exists evs, trace st' = trace st ++ evs /\ Forall (poll_of files) evs.
Proof.
  induction files as [|f rest IH]; intros st r st' H; cbn [poll_round] in H.
  - unfold ret in H. injection H as <- <-. exists []. rewrite List.app_nil_r. auto.
  - unfold bind in H.
    destruct (on_remote (remote_get_state E f) (EvGetState f) st) as [r1 st1] eqn:H1.
    apply on_remote_trace in H1.
    assert (P1 : poll_of (f :: rest) (EvGetState f r1)) by (left; reflexivity).
    assert (Stop : st' = st1 ->
              exists evs, trace st' = trace st ++ evs /\ Forall (poll_of (f :: rest)) evs).
    { intros ->. exists [EvGetState f r1]. split; [exact H1|]. constructor; auto. }
    assert (Go : forall r2, poll_round E rest st1 = (r2, st') ->
              exists evs, trace st' = trace st ++ evs /\ Forall (poll_of (f :: rest)) evs).
    { intros r2 H2. apply IH in H2. destruct H2 as (evs & T & F).
      exists (EvGetState f r1 :: evs). split.
      - rewrite T, H1, <- app_assoc. reflexivity.
      - constructor; [exact P1|]. apply poll_of_more, F. }
    destruct r1 as [[| |]|e|].
    + unfold bind in H. destruct (poll_round E rest st1) as [r2 st2] eqn:H2.
      assert (st' = st2) by (destruct r2; unfold ret in H; congruence). subst st2.
      eapply Go; eauto.
    + eapply Go; eauto.
    + unfold raise in H. injection H as <- <-. apply Stop; reflexivity.
    + injection H as <- <-. apply Stop; reflexivity.
    + injection H as <- <-. apply Stop; reflexivity.
Qed.

Lemma wait_members fuel : forall files st r st',
  wait_for_files_active E fuel files st = (r, st') ->
  exists evs, trace st' = trace st ++ evs /\ Forall (poll_of files) evs.
Proof.
  induction fuel as [|fuel IH]; intros files st r st' H; cbn [wait_for_files_active] in H.
  - unfold no_fuel in H. injection H as <- <-. exists []. rewrite List.app_nil_r. auto.
  - unfold bind in H. destruct (poll_round E files st) as [r1 st1] eqn:H1.
    apply poll_round_members in H1. destruct H1 as (evs1 & T1 & F1).
    destruct r1 as [[|]|e|].
    + unfold ret in H. injection H as <- <-. eauto.
    + unfold bind in H.
      destruct (on_remote (remote_sleep E) (fun _ => EvSleep) st1) as [r2 st2] eqn:H2.
      apply on_remote_trace in H2.
      destruct r2 as [[]|e|].
      * apply IH in H. destruct H as (evs3 & T3 & F3).
        exists (evs1 ++ EvSleep :: evs3). split.
        -- rewrite T3, H2, T1, <- !app_assoc. reflexivity.
        -- apply Forall_app. split; [exact F1|]. constructor; [exact I|exact F3].
      * injection H as <- <-. exists (evs1 ++ [EvSleep]). split.
        -- rewrite H2, T1, <- !app_assoc. reflexivity.
        -- apply Forall_app. split; [exact F1|]. constructor; [exact I|constructor].
      * injection H as <- <-. exists (evs1 ++ [EvSleep]). split.
        -- rewrite H2, T1, <- !app_assoc. reflexivity.
        -- apply Forall_app. split; [exact F1|]. constructor; [exact I|constructor].
    + injection H as <- <-. eauto.
    + injection H as <- <-. eauto.
Qed.

End Normalize.

(** ** The upload result as a list *)

Section Normalized.
Context {FM : FloatModel}.
Variable E : Env.

(** C7: after an upload that returned [v], a single handle or a list, every
    poll of the readiness wait is on a handle of [ensure_list v], and the
    chat, when the wait completes, is started and sent with the handles
    [ensure_list v], after a round of polls over exactly these; a single
    handle becomes a list of one, a list is used as it is. *)
Theorem C7_upload_result_is_normalized fuel model prompt out fp st t v st1 r st' :
  guess_type E fp = Some t ->
  startswith t (py "audio/") = true ->
  upload_to_gemini E fp t (snd (logging INFO (py "Uploading: " ++ fp) st)) = (Ret v, st1) ->
  process_body E fuel model prompt out fp st = (r, st') ->
  (exists polls chats,
      trace st' = trace st1 ++ polls ++ chats
      /\ Forall (poll_of (ensure_list v)) polls
      /\ ((chats = [] /\ r <> Ret tt)
          \/ exists before rs,
               polls = before ++ map active_poll (ensure_list v)
               /\ chats = [EvStartChat (ensure_list v);
                           EvSendMessage (ensure_list v) prompt rs]))
  /\ (forall f, ensure_list (SingleFile f) = [f])
  /\ (forall l, ensure_list (FileList l) = l).
Proof.
  intros G A U H. split; [|split; reflexivity].
  apply process_body_run in H.
  inversion H as [G'|t' G' A'|t' ru st1' r0 st0 G' A' U' HU]; subst.
  - congruence.
  - rewrite G in G'. injection G' as <-. congruence.
  - rewrite G in G'. injection G' as <-.
    change (mk_state (fs st) (log st ++ [(INFO, py "Uploading: " ++ fp)]) (trace st) (remote st))
      with (snd (logging INFO (py "Uploading: " ++ fp) st)) in U'.
    rewrite U in U'. injection U' as <- <-.
    inversion HU as [| |v' st1'' rw st2 r1 st3 W HW]; subst.
    pose proof (wait_members E _ _ _ _ _ W) as (polls & T & P).
    exists polls.
    inversion HW as [e st2'|st2'|st2' rs st4 r2 st5 S HS]; subst.
    + exists []. rewrite List.app_nil_r. split; [exact T|]. split; [exact P|].
      left. split; [reflexivity|discriminate].
    + exists []. rewrite List.app_nil_r. split; [exact T|]. split; [exact P|].
      left. split; [reflexivity|discriminate].
    + exists [EvStartChat (ensure_list v); EvSendMessage (ensure_list v) prompt rs].
      split; [|split; [exact P|]].
      * rewrite (replied_run_trace E _ _ _ _ _ _ HS).
        unfold send_message in S. apply on_remote_trace in S. rewrite S.
        cbn [trace history flat_map parts]. rewrite List.app_nil_r, T, <- !app_assoc.
        reflexivity.
      * right.
        destruct (wait_for_files_active_spec E _ _ _ _ _ W) as (evs & (_ & _ & T') & _ & D & _).
        destruct (D eq_refl) as (before & -> & _).
        rewrite T in T'. apply app_inv_head in T'. subst polls.
        exists before, rs. split; reflexivity.
Qed.

End Normalized.

(** C7 on the scenario, for an upload that returns a single handle. *)
Lemma C7_witness :
  exists before rs,
    trace (snd (process_body demo_env 5 (@the_model half_floats default_model_name) user_prompt
                  (py "TextOutput") (py "AudioData/call1.wav") prepared_state))
    = [EvUpload (py "AudioData/call1.wav") (py "audio/x-wav")
         (Ret (SingleFile (asset_of (py "AudioData/call1.wav") (py "audio/x-wav"))))]
      ++ (before ++ map active_poll [asset_of (py "AudioData/call1.wav") (py "audio/x-wav")])
      ++ [EvStartChat [asset_of (py "AudioData/call1.wav") (py "audio/x-wav")];
          EvSendMessage [asset_of (py "AudioData/call1.wav") (py "audio/x-wav")] user_prompt rs].
Proof.
  edestruct (@C7_upload_result_is_normalized half_floats demo_env 5
               (@the_model half_floats default_model_name) user_prompt (py "TextOutput")
               (py "AudioData/call1.wav") prepared_state)
    as ((polls & chats & T & _ & [[_ N]|(before & rs & -> & ->)]) & _).
  - vm_compute. reflexivity.
  - vm_compute. reflexivity.
  - vm_compute. reflexivity.
  - vm_compute. reflexivity.
  - exfalso. apply N. reflexivity.
  - exists before, rs. exact T.
Defined.

(** ** The written file *)

Lemma existsb_eqb_In c s : existsb (N.eqb c) s = false -> ~ In c s.
Proof.
  intros H Hin. assert (E : existsb (N.eqb c) s = true).
  { apply existsb_exists. exists c. split; [exact Hin|apply N.eqb_refl]. }
  congruence.
Qed.

Section Output.
Context {FM : FloatModel}.
Variable E : Env.

(** A run of the [try] block on an audio file that ends normally wrote the
    parsed text of the reply it received to the output path. *)
Lemma saved_reply fuel model prompt out fp st st' t :
  guess_type E fp = Some t ->
  startswith t (py "audio/") = true ->
  process_body E fuel model prompt out fp st = (Ret tt, st') ->
  exists response txt obj,
    (exists evs handles,
        trace st' = evs ++ [EvSendMessage handles prompt (Ret response)])
    /\ text response = Ret txt /\ json_loads txt = Ret obj
    /\ read_file (fs st') (json_path_of out fp) = Some (json_dump_text obj 4).
Proof.
  intros G A H. apply process_body_run in H.
  inversion H as [G'|t' G' A'|t' ru st1 r0 st0 G' A' U HU]; subst.
  - rewrite G in G'. inversion G'; subst. rewrite A in A'. discriminate.
  - inversion HU as [| |v st1' rw st2 r1 st3 W HW]; subst.
    inversion HW as [| |st2' rs st4 r2 st5 S HS]; subst.
    pose proof (replied_run_trace E _ _ _ _ _ _ HS) as T.
    unfold send_message in S. apply on_remote_trace in S.
    inversion HS as [| |resp st4' ro fs5 Ho Hne|resp st4' f fs5 Ho Hne
                     |resp st4' f fs5 t0 e Ho Ht Hj|resp st4' f fs5 t0 obj Ho Ht Hj]; subst.
    + destruct ro as [f0| |]; [destruct (Hne f0); reflexivity|discriminate|discriminate].
    + destruct (text resp) as [t0| |]; [destruct (Hne t0); reflexivity|discriminate|discriminate].
    + exists resp, t0, obj. split; [|split; [exact Ht|split; [exact Hj|]]].
      * rewrite T, S. eauto.
      * cbn [fs]. apply (read_file_written _ _ _ _ _ Ho).
Qed.

End Output.

(** ** The steps of [scanstring] *)

Lemma emit_inv c r str rest :
  emit c r = Some (str, rest) -> exists str', r = Some (str', rest) /\ str = c :: str'.
Proof.
  destruct r as [[s0 r0]|]; cbn; [|discriminate]. intros [= <- <-]. eauto.
Qed.

Lemma scanstring_emit : forall s,
  scanstring s =
  match s with
  | [] => None
  | c :: s1 =>
      if c =? 34 then Some ([], s1)
      else if c =? 92 then
        match s1 with
        | [] => None
        | esc :: s2 =>
            if esc =? 117 then
              match s2 with
              | h1 :: h2 :: h3 :: h4 :: s3 =>
                  match hex4_value h1 h2 h3 h4 with
                  | None => None
                  | Some uni =>
                      if is_high_surrogate uni && startswith s3 [92; 117] then
                        match s3 with
                        | _ :: _ :: g1 :: g2 :: g3 :: g4 :: s4 =>
                            match hex4_value g1 g2 g3 g4 with
                            | None => None
                            | Some uni2 =>
                                if is_low_surrogate uni2
                                then emit (join_surrogates uni uni2) (scanstring s4)
                                else emit uni (scanstring s3)
                            end
                        | _ => None
                        end
                      else emit uni (scanstring s3)
                  end
              | _ => None
              end
            else
              match backslash_escape esc with
              | Some ch => emit ch (scanstring s2)
              | None => None
              end
        end
      else if c <? 32 then None
      else emit c (scanstring s1)
  end.
Proof. destruct s; reflexivity. Qed.

Lemma startswith_u s :
  startswith s [92; 117] = true -> exists T, s = 92 :: 117 :: T.
Proof.
  destruct s as [|a [|b T]]; cbn [startswith]; try discriminate.
  - destruct (a =? 92); discriminate.
  - destruct (N.eqb_spec a 92) as [->|]; [|discriminate].
    destruct (N.eqb_spec b 117) as [->|]; [|discriminate]. eauto.
Qed.

Lemma scanstring_scanned n : forall s str rest,
  (List.length s <= n)%nat ->
  scanstring s = Some (str, rest) -> scanned s str rest.
Proof.
  induction n as [|n IH]; intros s str rest Hn H; rewrite scanstring_emit in H.
  - destruct s; [discriminate|cbn [List.length] in Hn; lia].
  - destruct s as [|c s1]; [discriminate|]. cbn [List.length] in Hn.
    destruct (N.eqb_spec c 34) as [->|N34].
    { injection H as <- <-. constructor. }
    destruct (N.eqb_spec c 92) as [->|N92].
    + destruct s1 as [|esc s2]; [discriminate|]. cbn [List.length] in Hn.
      destruct (N.eqb_spec esc 117) as [->|N117].
      * destruct s2 as [|h1 [|h2 [|h3 [|h4 s3]]]]; try discriminate.
        cbn [List.length] in Hn.
        destruct (hex4_value h1 h2 h3 h4) as [uni|] eqn:Hu; [|discriminate].
        destruct (is_high_surrogate uni && startswith s3 [92; 117]) eqn:Hh.
        -- apply andb_true_iff in Hh. destruct Hh as [Hh Hs].
           destruct (startswith_u _ Hs) as [T ->].
           destruct T as [|g1 [|g2 [|g3 [|g4 s4]]]]; try discriminate.
           cbn [List.length] in Hn.
           destruct (hex4_value g1 g2 g3 g4) as [uni2|] eqn:Hu2; [|discriminate].
           destruct (is_low_surrogate uni2) eqn:Hl.
           ++ apply emit_inv in H. destruct H as (str' & H & ->).
              eapply scanned_pair; eauto. apply IH; [lia|exact H].
           ++ apply emit_inv in H. destruct H as (str' & H & ->).
              eapply scanned_high; eauto. apply IH; [cbn [List.length]; lia|exact H].
        -- apply emit_inv in H. destruct H as (str' & H & ->).
           eapply scanned_u; eauto. apply IH; [lia|exact H].
      * destruct (backslash_escape esc) as [ch|] eqn:Hb; [|discriminate].
        apply emit_inv in H. destruct H as (str' & H & ->).
        eapply scanned_short; eauto. apply IH; [lia|exact H].
    + destruct (N.ltb_spec c 32); [discriminate|].
      apply emit_inv in H. destruct H as (str' & H & ->).
      eapply scanned_raw; eauto. apply IH; [lia|exact H].
Qed.

(** ** The strings the decoder reads *)

Lemma hexval_bound c v : hexval c = Some v -> v < 16.
Proof.
  unfold hexval, is_digit.
  destruct ((48 <=? c) && (c <=? 57)) eqn:D.
  - apply andb_true_iff in D. destruct D as [D1 D2].
    apply N.leb_le in D1, D2. intros [= <-]. lia.
  - destruct ((97 <=? c) && (c <=? 102)) eqn:L.
    + apply andb_true_iff in L. destruct L as [L1 L2].
      apply N.leb_le in L1, L2. intros [= <-]. lia.
    + destruct ((65 <=? c) && (c <=? 70)) eqn:U; [|discriminate].
      apply andb_true_iff in U. destruct U as [U1 U2].
      apply N.leb_le in U1, U2. intros [= <-]. lia.
Qed.

Lemma hex4_value_bound a b c d v : hex4_value a b c d = Some v -> v < 65536.
Proof.
  unfold hex4_value.
  destruct (hexval a) as [x|] eqn:A; [|discriminate].
  destruct (hexval b) as [y|] eqn:B; [|discriminate].
  destruct (hexval c) as [z|] eqn:C; [|discriminate].
  destruct (hexval d) as [w|] eqn:Dd; [|discriminate].
  apply hexval_bound in A, B, C, Dd. intros [= <-]. lia.
Qed.

Lemma backslash_escape_small x ch : backslash_escape x = Some ch -> ch < 128.
Proof.
  unfold backslash_escape.
  repeat match goal with
         | |- context [if ?b then _ else _] => destruct b; [intros [= <-]; lia|]
         end.
  discriminate.
Qed.

Lemma surrogate_range c :
  is_high_surrogate c = true -> 55296 <= c <= 56319.
Proof.
  unfold is_high_surrogate. intros H. apply andb_true_iff in H.
  destruct H as [H1 H2]. apply N.leb_le in H1, H2. lia.
Qed.

Lemma low_surrogate_range c :
  is_low_surrogate c = true -> 56320 <= c <= 57343.
Proof.
  unfold is_low_surrogate. intros H. apply andb_true_iff in H.
  destruct H as [H1 H2]. apply N.leb_le in H1, H2. lia.
Qed.

Lemma join_surrogates_range uni uni2 :
  is_high_surrogate uni = true -> is_low_surrogate uni2 = true ->
  65536 <= join_surrogates uni uni2 < 1114112.
Proof.
  intros H L. apply surrogate_range in H. apply low_surrogate_range in L.
  unfold join_surrogates. rewrite lor_shiftl_small by lia. lia.
Qed.

Lemma not_high_small c : c < 55296 -> is_high_surrogate c = false.
Proof.
  intros H. unfold is_high_surrogate. apply andb_false_iff. left. apply N.leb_gt. lia.
Qed.

Lemma not_high_large c : 56320 <= c -> is_high_surrogate c = false.
Proof.
  intros H. unfold is_high_surrogate. apply andb_false_iff. right. apply N.leb_gt. lia.
Qed.

Lemma not_low_small c : c < 56320 -> is_low_surrogate c = false.
Proof.
  intros H. unfold is_low_surrogate. apply andb_false_iff. left. apply N.leb_gt. lia.
Qed.

Lemma not_low_large c : 57344 <= c -> is_low_surrogate c = false.
Proof.
  intros H. unfold is_low_surrogate. apply andb_false_iff. right. apply N.leb_gt. lia.
Qed.

Lemma is_scalar_spec c :
  is_scalar c = true -> c < 1114112 /\ (c < 55296 \/ 57344 <= c).
Proof.
  unfold is_scalar, is_surrogate. intros H. apply andb_true_iff in H.
  destruct H as [H1 H2]. apply N.ltb_lt in H1. split; [exact H1|].
  apply negb_true_iff, andb_false_iff in H2.
  destruct H2 as [H2|H2]; apply N.leb_gt in H2; lia.
Qed.

Lemma scalar_text_cons c s :
  scalar_text (c :: s) = true -> is_scalar c = true /\ scalar_text s = true.
Proof. unfold scalar_text. cbn [forallb]. apply andb_true_iff. Qed.

Ltac drop_heads H :=
  repeat match type of H with
         | scalar_text (_ :: _) = true =>
             apply scalar_text_cons in H; let X := fresh "Hc" in destruct H as [X H]
         end.

Lemma scanned_rest s str rest :
  scanned s str rest -> scalar_text s = true -> scalar_text rest = true.
Proof.
  induction 1 as [T|c T str rest N1 N2 N3 S IH|x ch T str rest N1 B S IH
                 |h1 h2 h3 h4 uni T str rest U Hh S IH
                 |h1 h2 h3 h4 uni g1 g2 g3 g4 uni2 T str rest U Hh U2 Hl S IH
                 |h1 h2 h3 h4 uni g1 g2 g3 g4 uni2 T str rest U Hh U2 Hl S IH];
    intros H.
  - drop_heads H. exact H.
  - drop_heads H. auto.
  - drop_heads H. auto.
  - drop_heads H. auto.
  - drop_heads H. auto.
  - apply IH.
    do 6 (apply scalar_text_cons in H; destruct H as [_ H]). exact H.
Qed.

Lemma scanned_chars s str rest :
  scanned s str rest -> scalar_text s = true ->
  forallb (fun c => c <? 1114112) str = true.
Proof.
  induction 1 as [T|c T str rest N1 N2 N3 S IH|x ch T str rest N1 B S IH
                 |h1 h2 h3 h4 uni T str rest U Hh S IH
                 |h1 h2 h3 h4 uni g1 g2 g3 g4 uni2 T str rest U Hh U2 Hl S IH
                 |h1 h2 h3 h4 uni g1 g2 g3 g4 uni2 T str rest U Hh U2 Hl S IH];
    intros H; cbn [forallb].
  - reflexivity.
  - drop_heads H. apply is_scalar_spec in Hc. rewrite (IH H), andb_true_r.
    apply N.ltb_lt. lia.
  - drop_heads H. apply backslash_escape_small in B. rewrite (IH H), andb_true_r.
    apply N.ltb_lt. lia.
  - drop_heads H. apply hex4_value_bound in U. rewrite (IH H), andb_true_r.
    apply N.ltb_lt. lia.
  - drop_heads H. pose proof (join_surrogates_range _ _ Hh Hl).
    rewrite (IH H), andb_true_r. apply N.ltb_lt. lia.
  - apply hex4_value_bound in U.
    rewrite IH.
    + rewrite andb_true_r. apply N.ltb_lt. lia.
    + do 6 (apply scalar_text_cons in H; destruct H as [_ H]). exact H.
Qed.

(** A decoded string starts with a low surrogate only when the text starts
    with its escape. *)
Lemma scanned_head_low s c str rest :
  scanned s (c :: str) rest -> scalar_text s = true ->
  is_low_surrogate c = true ->
  exists g1 g2 g3 g4 T,
    s = 92 :: 117 :: g1 :: g2 :: g3 :: g4 :: T /\ hex4_value g1 g2 g3 g4 = Some c.
Proof.
  intros S H L.
  inversion S as [|c0 T str0 rest0 N1 N2 N3 S'|x ch T str0 rest0 N1 B S'
                 |h1 h2 h3 h4 uni T str0 rest0 U Hh S'
                 |h1 h2 h3 h4 uni g1 g2 g3 g4 uni2 T str0 rest0 U Hh U2 Hl S'
                 |h1 h2 h3 h4 uni g1 g2 g3 g4 uni2 T str0 rest0 U Hh U2 Hl S']; subst.
  - drop_heads H. apply is_scalar_spec in Hc. apply low_surrogate_range in L. lia.
  - apply backslash_escape_small in B. apply low_surrogate_range in L. lia.
  - eauto 10.
  - pose proof (join_surrogates_range _ _ Hh Hl). apply low_surrogate_range in L. lia.
  - apply surrogate_range in Hh. apply low_surrogate_range in L. lia.
Qed.

Lemma scanned_no_pair s str rest :
  scanned s str rest -> scalar_text s = true -> no_surrogate_pair str = true.
Proof.
  induction 1 as [T|c T str rest N1 N2 N3 S IH|x ch T str rest N1 B S IH
                 |h1 h2 h3 h4 uni T str rest U Hh S IH
                 |h1 h2 h3 h4 uni g1 g2 g3 g4 uni2 T str rest U Hh U2 Hl S IH
                 |h1 h2 h3 h4 uni g1 g2 g3 g4 uni2 T str rest U Hh U2 Hl S IH];
    intros H; cbn [no_surrogate_pair].
  - reflexivity.
  - drop_heads H. apply is_scalar_spec in Hc. rewrite (IH H), andb_true_r.
    destruct Hc as [_ [Hc|Hc]].
    + rewrite not_high_small by exact Hc. reflexivity.
    + rewrite not_high_large by lia. reflexivity.
  - drop_heads H. apply backslash_escape_small in B. rewrite (IH H), andb_true_r.
    rewrite not_high_small by lia. reflexivity.
  - drop_heads H. rewrite (IH H), andb_true_r.
    destruct (is_high_surrogate uni) eqn:Hu; [|reflexivity].
    cbn [andb] in Hh.
    destruct str as [|c2 str']; [reflexivity|].
    destruct (is_low_surrogate c2) eqn:L2; [|reflexivity].
    destruct (scanned_head_low _ _ _ _ S H L2) as (g1 & g2 & g3 & g4 & T' & -> & _).
    cbn in Hh. discriminate.
  - drop_heads H. pose proof (join_surrogates_range _ _ Hh Hl).
    rewrite (IH H), andb_true_r. rewrite not_high_large by lia. reflexivity.
  - assert (H' : scalar_text (92 :: 117 :: g1 :: g2 :: g3 :: g4 :: T) = true).
    { do 6 (apply scalar_text_cons in H; destruct H as [_ H]). exact H. }
    rewrite (IH H'), andb_true_r. rewrite Hh. cbn [andb].
    destruct str as [|c2 str']; [reflexivity|].
    destruct (is_low_surrogate c2) eqn:L2; [|reflexivity].
    destruct (scanned_head_low _ _ _ _ S H' L2) as (a1 & a2 & a3 & a4 & T' & E & V).
    injection E as <- <- <- <- <-. rewrite U2 in V. injection V as <-.
    congruence.
Qed.

(** The strings [scanstring] reads in a text of scalar values. *)
Lemma scanstring_str_ok s str rest :
  scanstring s = Some (str, rest) -> scalar_text s = true ->
  str_ok str = true /\ scalar_text rest = true.
Proof.
  intros H T. apply (scanstring_scanned (List.length s)) in H; [|lia].
  split.
  - unfold str_ok. rewrite (scanned_chars _ _ _ H T), (scanned_no_pair _ _ _ H T).
    reflexivity.
  - eapply scanned_rest; eauto.
Qed.

(** ** The objects the decoder builds *)

Lemma scalar_text_app a b :
  scalar_text (a ++ b) = true -> scalar_text a = true /\ scalar_text b = true.
Proof. unfold scalar_text. rewrite forallb_app. apply andb_true_iff. Qed.

Lemma scalar_text_skip_ws s : scalar_text s = true -> scalar_text (skip_ws s) = true.
Proof.
  induction s as [|c s IH]; cbn [skip_ws]; [auto|].
  intros H. destruct (is_ws c); [|exact H].
  apply scalar_text_cons in H. apply IH, H.
Qed.

Lemma scalar_text_skipn n s : scalar_text s = true -> scalar_text (skipn n s) = true.
Proof.
  revert s. induction n as [|n IH]; intros s H; [exact H|].
  destruct s as [|c s]; [exact H|]. cbn [skipn].
  apply scalar_text_cons in H. apply IH, H.
Qed.

Section DictOk.
Context {FM : FloatModel}.

Lemma entries_ok_cons k v d :
  entries_ok ((k, v) :: d) = str_ok k && json_ok v && entries_ok d.
Proof. reflexivity. Qed.

Lemma dict_set_entries_ok d k v :
  entries_ok d = true -> str_ok k = true -> json_ok v = true ->
  entries_ok (dict_set d k v) = true.
Proof.
  intros Hd Hk Hv. induction d as [|[k' v'] d IH]; cbn [dict_set].
  - rewrite entries_ok_cons, Hk, Hv. reflexivity.
  - rewrite entries_ok_cons in Hd.
    apply andb_true_iff in Hd. destruct Hd as [Hkv H2].
    apply andb_true_iff in Hkv. destruct Hkv as [Hk' Hv'].
    destruct (pystr_eqb k' k); rewrite entries_ok_cons.
    + rewrite Hk', Hv, H2. reflexivity.
    + rewrite Hk', Hv', (IH H2). reflexivity.
Qed.

Lemma keys_unique_snoc keys k :
  keys_unique keys = true ->
  existsb (fun k' => pystr_eqb k' k) keys = false ->
  keys_unique (keys ++ [k]) = true.
Proof.
  induction keys as [|x keys IH]; cbn [app keys_unique existsb]; [reflexivity|].
  intros H E. apply andb_true_iff in H. destruct H as [H1 H2].
  apply orb_false_iff in E. destruct E as [E1 E2].
  rewrite (IH H2 E2), andb_true_r. rewrite existsb_app. cbn [existsb].
  apply negb_true_iff in H1. rewrite H1, E1. reflexivity.
Qed.

Lemma dict_set_keys d k v :
  map fst (dict_set d k v)
  = if existsb (fun k' => pystr_eqb k' k) (map fst d) then map fst d
    else map fst d ++ [k].
Proof.
  induction d as [|[k' v'] d IH]; cbn [dict_set map fst existsb app]; [reflexivity|].
  destruct (pystr_eqb k' k); cbn [orb map fst]; [reflexivity|].
  rewrite IH. destruct (existsb _ (map fst d)); reflexivity.
Qed.

Lemma dict_set_keys_unique d k v :
  keys_unique (map fst d) = true -> keys_unique (map fst (dict_set d k v)) = true.
Proof.
  intros H. rewrite dict_set_keys.
  destruct (existsb _ (map fst d)) eqn:E; [exact H|].
  apply keys_unique_snoc; assumption.
Qed.

Lemma fold_dict_set_ok pairs : forall acc,
  entries_ok acc = true -> keys_unique (map fst acc) = true ->
  entries_ok pairs = true ->
  json_ok (JDict (fold_left (fun d kv => dict_set d (fst kv) (snd kv)) pairs acc)) = true.
Proof.
  induction pairs as [|[k v] pairs IH]; intros acc Ha Hu Hp; cbn [fold_left fst snd].
  - cbn [json_ok]. fold (entries_ok acc). rewrite Ha, Hu. reflexivity.
  - rewrite entries_ok_cons in Hp.
    apply andb_true_iff in Hp. destruct Hp as [Hkv Hp].
    apply andb_true_iff in Hkv. destruct Hkv as [Hk Hv].
    apply IH; [apply dict_set_entries_ok; assumption
              |apply dict_set_keys_unique; assumption|exact Hp].
Qed.

Lemma dict_of_pairs_ok pairs :
  entries_ok pairs = true -> json_ok (JDict (dict_of_pairs pairs)) = true.
Proof. intros H. apply fold_dict_set_ok; auto. Qed.

End DictOk.

(** ** The values the decoder reads *)

Section LoopsOk.
Context {FM : FloatModel}.
Variable scan : pystr -> option (json * pystr).

Hypothesis Hscan : scans_ok scan.

Lemma skip_ws_tail s c r :
  skip_ws s = c :: r -> scalar_text s = true -> scalar_text r = true.
Proof.
  intros E H. apply scalar_text_skip_ws in H. rewrite E in H.
  apply scalar_text_cons in H. apply H.
Qed.

Lemma array_loop_ok n : forall s vals rest,
  array_loop scan n s = Some (vals, rest) -> scalar_text s = true ->
  forallb json_ok vals = true /\ scalar_text rest = true.
Proof.
  induction n as [|n IH]; intros s vals rest H T; cbn [array_loop] in H; [discriminate|].
  destruct (scan s) as [[value s1]|] eqn:S; [|discriminate].
  destruct (Hscan _ _ _ S T) as [Hv T1].
  destruct (skip_ws s1) as [|c s2] eqn:W; [discriminate|].
  pose proof (skip_ws_tail _ _ _ W T1) as T2.
  destruct (c =? 93).
  - injection H as <- <-. cbn [forallb]. rewrite Hv. auto.
  - destruct (c =? 44); [|discriminate].
    destruct (array_loop scan n (skip_ws s2)) as [[values r]|] eqn:A; [|discriminate].
    injection H as <- <-.
    destruct (IH _ _ _ A (scalar_text_skip_ws _ T2)) as [Hvs Tr].
    cbn [forallb]. rewrite Hv, Hvs. auto.
Qed.

Lemma JSONArray_ok n s obj rest :
  JSONArray scan n s = Some (obj, rest) -> scalar_text s = true ->
  json_ok obj = true /\ scalar_text rest = true.
Proof.
  unfold JSONArray. intros H T.
  destruct (skip_ws s) as [|c s1] eqn:W; [discriminate|].
  destruct (c =? 93).
  - injection H as <- <-. split; [reflexivity|]. eapply skip_ws_tail; eauto.
  - destruct (array_loop scan n (c :: s1)) as [[values r]|] eqn:A; [|discriminate].
    injection H as <- <-. rewrite <- W in A.
    apply array_loop_ok in A; [|apply scalar_text_skip_ws, T]. exact A.
Qed.

Lemma object_loop_ok n : forall s pairs rest,
  object_loop scan n s = Some (pairs, rest) -> scalar_text s = true ->
  entries_ok pairs = true /\ scalar_text rest = true.
Proof.
  induction n as [|n IH]; intros s pairs rest H T; cbn [object_loop] in H; [discriminate|].
  destruct (scanstring s) as [[key s1]|] eqn:K; [|discriminate].
  destruct (scanstring_str_ok _ _ _ K T) as [Hk T1].
  destruct (skip_ws s1) as [|c s2] eqn:W1; [discriminate|].
  pose proof (skip_ws_tail _ _ _ W1 T1) as T2.
  destruct (c =? 58); [|discriminate].
  destruct (scan (skip_ws s2)) as [[value s3]|] eqn:S; [|discriminate].
  destruct (Hscan _ _ _ S (scalar_text_skip_ws _ T2)) as [Hv T3].
  destruct (skip_ws s3) as [|d s4] eqn:W3; [discriminate|].
  pose proof (skip_ws_tail _ _ _ W3 T3) as T4.
  destruct (d =? 125).
  - injection H as <- <-. rewrite entries_ok_cons, Hk, Hv. auto.
  - destruct (d =? 44); [|discriminate].
    destruct (skip_ws s4) as [|q s5] eqn:W4; [discriminate|].
    pose proof (skip_ws_tail _ _ _ W4 T4) as T5.
    destruct (q =? 34); [|discriminate].
    destruct (object_loop scan n s5) as [[ps r]|] eqn:O; [|discriminate].
    injection H as <- <-.
    destruct (IH _ _ _ O T5) as [Hps Tr].
    rewrite entries_ok_cons, Hk, Hv, Hps. auto.
Qed.

Lemma JSONObject_ok n s obj rest :
  JSONObject scan n s = Some (obj, rest) -> scalar_text s = true ->
  json_ok obj = true /\ scalar_text rest = true.
Proof.
  unfold JSONObject. intros H T.
  destruct (skip_ws s) as [|c s1] eqn:W; [discriminate|].
  pose proof (skip_ws_tail _ _ _ W T) as T1.
  destruct (c =? 34).
  - destruct (object_loop scan n s1) as [[pairs r]|] eqn:O; [|discriminate].
    injection H as <- <-.
    destruct (object_loop_ok _ _ _ _ O T1) as [Hp Tr].
    split; [apply dict_of_pairs_ok, Hp|exact Tr].
  - destruct (c =? 125); [|discriminate].
    injection H as <- <-. split; [reflexivity|exact T1].
Qed.

End LoopsOk.

Section ScanOk.
Context {FM : FloatModel}.

Lemma scan_once_ok fuel : scans_ok (scan_once fuel).
Proof.
  induction fuel as [|fuel IH]; intros s obj rest H T; cbn [scan_once] in H; [discriminate|].
  destruct s as [|c s1]; [discriminate|].
  pose proof (proj2 (scalar_text_cons _ _ T)) as T1.
  destruct (c =? 34).
  { destruct (scanstring s1) as [[str r]|] eqn:K; [|discriminate].
    injection H as <- <-. cbn [json_ok]. eapply scanstring_str_ok; eauto. }
  destruct (c =? 123); [eapply JSONObject_ok; eauto|].
  destruct (c =? 91); [eapply JSONArray_ok; eauto|].
  destruct (startswith (c :: s1) (py "null")).
  { injection H as <- <-. split; [reflexivity|apply (scalar_text_skipn 4 (c :: s1)), T]. }
  destruct (startswith (c :: s1) (py "true")).
  { injection H as <- <-. split; [reflexivity|apply (scalar_text_skipn 4 (c :: s1)), T]. }
  destruct (startswith (c :: s1) (py "false")).
  { injection H as <- <-. split; [reflexivity|apply (scalar_text_skipn 5 (c :: s1)), T]. }
  destruct (match_number (c :: s1)) as [[[[i f] e] r]|] eqn:M.
  - apply match_number_spec in M. destruct M as (E & _).
    rewrite E in T.
    apply scalar_text_app in T. destruct T as [_ T].
    apply scalar_text_app in T. destruct T as [_ T].
    apply scalar_text_app in T. destruct T as [_ T].
    destruct f, e; injection H as <- <-; auto.
  - destruct (startswith (c :: s1) (py "NaN")).
    { injection H as <- <-. split; [reflexivity|apply (scalar_text_skipn 3 (c :: s1)), T]. }
    destruct (startswith (c :: s1) (py "Infinity")).
    { injection H as <- <-. split; [reflexivity|apply (scalar_text_skipn 8 (c :: s1)), T]. }
    destruct (startswith (c :: s1) (py "-Infinity")); [|discriminate].
    injection H as <- <-. split; [reflexivity|apply (scalar_text_skipn 9 (c :: s1)), T].
Qed.

(** What [json.loads] reads in a text of scalar values is a value that the
    encoder and the decoder give back unchanged. *)
Lemma json_loads_ok txt obj :
  json_loads txt = Ret obj -> scalar_text txt = true -> json_ok obj = true.
Proof.
  unfold json_loads. intros H T.
  destruct (startswith txt [65279]); [discriminate|].
  destruct (scan_once (S (List.length txt)) (skip_ws txt)) as [[o rest]|] eqn:S;
    [|discriminate].
  destruct (skip_ws rest); [|discriminate]. injection H as <-.
  eapply scan_once_ok; eauto. apply scalar_text_skip_ws, T.
Qed.

End ScanOk.

(** ** More on the discoverer *)

Section DiscovererMore.
Context {FM : FloatModel}.
Variable E : Env.

Lemma audio_files_loop_returns fs directory names : forall audio_files l,
  audio_files_loop E fs directory names audio_files = Ret l ->
  Forall (fun name => ~ untyped_file E fs (join directory name)) names.
Proof.
  induction names as [|name names IH]; intros acc l H; [constructor|].
  cbn [audio_files_loop] in H.
  destruct (isfile fs (join directory name)) eqn:F.
  - destruct (guess_type E (join directory name)) as [t|] eqn:G; [|discriminate].
    cbn [attr_startswith] in H. constructor.
    + intros [_ G']. congruence.
    + destruct (startswith t (py "audio/")); eapply IH; eauto.
  - constructor; [|eapply IH; eauto]. intros [F' _]. congruence.
Qed.

Lemma audio_entry_spec fs p :
  audio_entry E fs p = true ->
  isfile fs p = true
  /\ exists t, guess_type E p = Some t /\ startswith t (py "audio/") = true.
Proof.
  unfold audio_entry. intros H. apply andb_true_iff in H. destruct H as [F G].
  split; [exact F|]. destruct (guess_type E p) as [t|]; [eauto|discriminate].
Qed.

(** X1: when [get_audio_file_paths] returns a list, the listing of the
    directory succeeded, no regular file of the listing has an undeterminable
    type, the list holds exactly the joined paths of the entries that are
    regular files of an audio type, in the order of the listing, and every
    path of the list is a regular file with a guessed type that starts with
    [audio/]. *)
Theorem X1_discovered_paths_are_audio_files directory fs audio_files :
  get_audio_file_paths E directory fs = Ret audio_files ->
  exists names,
    os_listdir fs directory = Ret names
    /\ Forall (fun name => ~ untyped_file E fs (join directory name)) names
    /\ audio_files = filter (audio_entry E fs) (map (join directory) names)
    /\ Forall (fun p => isfile fs p = true
                        /\ exists t, guess_type E p = Some t
                                     /\ startswith t (py "audio/") = true) audio_files.
Proof.
  unfold get_audio_file_paths. intros H.
  destruct (os_listdir fs directory) as [names| |] eqn:L; try discriminate.
  exists names. split; [reflexivity|].
  pose proof (audio_files_loop_returns _ _ _ _ _ H) as T. split; [exact T|].
  rewrite (audio_files_loop_typed E fs directory names [] T) in H.
  injection H as <-. split; [reflexivity|].
  apply Forall_forall. intros p Hp. apply filter_In in Hp.
  apply audio_entry_spec, Hp.
Qed.

(** X2: called on a regular file, [get_audio_file_paths] raises the
    [NotADirectoryError] of [os.listdir]; it returns no list. *)
Theorem X2_discoverer_on_a_regular_file directory fs :
  isfile fs directory = true ->
  exists e,
    get_audio_file_paths E directory fs = Raise e
    /\ class_of e = NotADirectoryError.
Proof.
  unfold get_audio_file_paths, os_listdir, isfile.
  destruct (resolve fs directory) as [key [data|es]|parent name b| |]; intros H;
    try discriminate.
  eexists. split; reflexivity.
Qed.

End DiscovererMore.

Lemma X1_witness :
  exists names,
    os_listdir demo_fs (py "AudioData") = Ret names
    /\ Forall (fun name => ~ untyped_file demo_env demo_fs (join (py "AudioData") name)) names
    /\ [py "AudioData/call1.wav"; py "AudioData/call2.mp3"]
       = filter (audio_entry demo_env demo_fs) (map (join (py "AudioData")) names)
    /\ Forall (fun p => isfile demo_fs p = true
                        /\ exists t, guess_type demo_env p = Some t
                                     /\ startswith t (py "audio/") = true)
         [py "AudioData/call1.wav"; py "AudioData/call2.mp3"].
Proof.
  apply (@X1_discovered_paths_are_audio_files half_floats demo_env (py "AudioData") demo_fs).
  vm_compute. reflexivity.
Defined.

Lemma X2_witness :
  exists e,
    get_audio_file_paths demo_env (py "AudioData/call1.wav") demo_fs = Raise e
    /\ class_of e = NotADirectoryError.
Proof.
  apply (@X2_discoverer_on_a_regular_file half_floats demo_env
           (py "AudioData/call1.wav") demo_fs).
  vm_compute. reflexivity.
Defined.

(** ** More on the output path *)

Lemma splitext_parts p : fst (splitext p) ++ snd (splitext p) = p.
Proof.
  unfold splitext.
  destruct (rfind p sep <? rfind p extsep)%Z; [|apply List.app_nil_r].
  destruct (existsb _ _); [|apply List.app_nil_r].
  cbn [fst snd]. unfold slice_to, slice_from. apply firstn_skipn.
Qed.

Lemma basename_no_sep p : ~ In sep (basename p).
Proof.
  destruct (basename_spec p) as [(N & -> & _)|(a & b & _ & N & -> & _)]; exact N.
Qed.

Lemma endswith_sep_inv out :
  endswith out [sep] = true -> exists d, out = d ++ [sep].
Proof.
  unfold endswith. cbn [rev app]. intros H.
  destruct (rev out) as [|c r] eqn:R; [discriminate|].
  cbn [startswith] in H. apply andb_true_iff in H. destruct H as [H _].
  apply N.eqb_eq in H. subst c.
  exists (rev r). rewrite <- (rev_involutive out), R. reflexivity.
Qed.

Lemma output_name_no_sep fp : ~ In sep (output_name fp).
Proof.
  unfold output_name. intros H. apply in_app_or in H. destruct H as [H|H].
  - apply (basename_no_sep fp). rewrite <- (splitext_parts (basename fp)).
    apply in_or_app. left. exact H.
  - vm_compute in H. repeat (destruct H as [H|H]; [discriminate|]). exact H.
Qed.

Lemma output_name_head fp : startswith (output_name fp) [sep] = false.
Proof.
  pose proof (output_name_no_sep fp) as N.
  destruct (output_name fp) as [|c r] eqn:Eq.
  - unfold output_name in Eq. apply app_eq_nil in Eq. destruct Eq as [_ Eq]. discriminate.
  - cbn [startswith]. destruct (N.eqb_spec c sep) as [->|]; [|reflexivity].
    destruct N. left. reflexivity.
Qed.

(** The output path: the directory, one slash unless the directory is
    empty or ends with one, and the output name. *)
Lemma json_path_of_shape output_directory file_path :
  json_path_of output_directory file_path
  = if is_empty output_directory || endswith output_directory [sep]
    then output_directory ++ output_name file_path
    else output_directory ++ sep :: output_name file_path.
Proof.
  unfold json_path_of. fold (output_name file_path). unfold join.
  rewrite (output_name_head file_path).
  destruct output_directory as [|c r]; [reflexivity|]. cbn [is_empty orb].
  destruct (endswith (c :: r) [sep]); reflexivity.
Qed.

(** X3: whatever the input path (with directories, dots or a trailing
    slash), the output path is [output_directory] followed, after one slash
    unless the directory is empty or ends with one, by a name without a
    slash: the stem of the last component of the input path and [.json].
    The output file is an entry of the output directory itself. *)
Theorem X3_output_is_an_entry_of_the_directory output_directory file_path :
  ~ In sep (output_name file_path)
  /\ basename (json_path_of output_directory file_path) = output_name file_path
  /\ json_path_of output_directory file_path
     = if is_empty output_directory || endswith output_directory [sep]
       then output_directory ++ output_name file_path
       else output_directory ++ sep :: output_name file_path.
Proof.
  pose proof (output_name_no_sep file_path) as N.
  pose proof (json_path_of_shape output_directory file_path) as J.
  split; [exact N|]. split; [|exact J].
  rewrite J. destruct output_directory as [|c r].
  - cbn [is_empty orb app]. apply (basename_of [] _ (or_introl eq_refl) N).
  - cbn [is_empty orb]. destruct (endswith (c :: r) [sep]) eqn:Ew.
    + apply basename_of; [|exact N]. right. apply endswith_sep_inv, Ew.
    + change ((c :: r) ++ sep :: output_name file_path)
        with ((c :: r) ++ [sep] ++ output_name file_path).
      rewrite app_assoc. apply basename_of; [|exact N]. right. eauto.
Qed.

Section SameStem.
Context {FM : FloatModel}.
Variable E : Env.

(** X4: two input paths with the same stem, in whatever directories and
    with whatever extensions, have the same output path; once the later one
    is saved, the file at the output path of the earlier one holds the reply
    of the later one. *)
Theorem X4_same_stem_shares_the_output
    fuel model prompt out dir1 dir2 foo bar1 bar2 st1 st2 t :
  (dir1 = [] \/ exists d, dir1 = d ++ [sep]) ->
  (dir2 = [] \/ exists d, dir2 = d ++ [sep]) ->
  existsb (N.eqb sep) foo = false ->
  existsb (N.eqb sep) bar1 = false -> existsb (N.eqb extsep) bar1 = false ->
  existsb (N.eqb sep) bar2 = false -> existsb (N.eqb extsep) bar2 = false ->
  existsb (fun c => negb (c =? extsep)) foo = true ->
  guess_type E (dir2 ++ foo ++ extsep :: bar2) = Some t ->
  startswith t (py "audio/") = true ->
  process_body E fuel model prompt out (dir2 ++ foo ++ extsep :: bar2) st1 = (Ret tt, st2) ->
  json_path_of out (dir1 ++ foo ++ extsep :: bar1)
  = json_path_of out (dir2 ++ foo ++ extsep :: bar2)
  /\ exists response txt obj,
       (exists evs handles,
           trace st2 = evs ++ [EvSendMessage handles prompt (Ret response)])
       /\ text response = Ret txt /\ json_loads txt = Ret obj
       /\ read_file (fs st2) (json_path_of out (dir1 ++ foo ++ extsep :: bar1))
          = Some (json_dump_text obj 4).
Proof.
  intros D1 D2 Nf N1 X1 N2 X2 Hx G A H.
  assert (P : json_path_of out (dir1 ++ foo ++ extsep :: bar1)
              = json_path_of out (dir2 ++ foo ++ extsep :: bar2)).
  { rewrite !json_path_of_named; auto using existsb_eqb_In. }
  split; [exact P|]. rewrite P.
  apply (saved_reply E _ _ _ _ _ _ _ _ G A H).
Qed.

End SameStem.

Section SameStemScenario.
#[local] Existing Instance half_floats.

Lemma X4_witness :
  json_path_of (py "TextOutput") (py "AudioData/call1.wav")
  = json_path_of (py "TextOutput") (py "Unsorted/call1.flac")
  /\ exists response txt obj,
       (exists evs handles,
           trace (snd (process_body demo_env 5 (the_model default_model_name) user_prompt
                         (py "TextOutput") (py "Unsorted/call1.flac")
                         (snd (process_body demo_env 5 (the_model default_model_name)
                                 user_prompt (py "TextOutput") (py "AudioData/call1.wav")
                                 prepared_state))))
           = evs ++ [EvSendMessage handles user_prompt (Ret response)])
       /\ text response = Ret txt /\ json_loads txt = Ret obj
       /\ read_file
            (fs (snd (process_body demo_env 5 (the_model default_model_name) user_prompt
                        (py "TextOutput") (py "Unsorted/call1.flac")
                        (snd (process_body demo_env 5 (the_model default_model_name)
                                user_prompt (py "TextOutput") (py "AudioData/call1.wav")
                                prepared_state)))))
            (json_path_of (py "TextOutput") (py "AudioData/call1.wav"))
          = Some (json_dump_text obj 4).
Proof.
  refine (@X4_same_stem_shares_the_output half_floats demo_env 5
            (the_model default_model_name) user_prompt (py "TextOutput")
            (py "AudioData/") (py "Unsorted/") (py "call1") (py "wav") (py "flac")
            (snd (process_body demo_env 5 (the_model default_model_name)
                    user_prompt (py "TextOutput") (py "AudioData/call1.wav")
                    prepared_state))
            _ _ _ _ _ _ _ _ _ _ _ _ _).
  - right. exists (py "AudioData"). vm_compute. reflexivity.
  - right. exists (py "Unsorted"). vm_compute. reflexivity.
  - vm_compute. reflexivity.
  - vm_compute. reflexivity.
  - vm_compute. reflexivity.
  - vm_compute. reflexivity.
  - vm_compute. reflexivity.
  - vm_compute. reflexivity.
  - vm_compute. reflexivity.
  - vm_compute. reflexivity.
  - vm_compute. reflexivity.
Defined.

End SameStemScenario.

(** ** Paths that are passed over, and uploads *)

Lemma uploads_of_app a b : uploads_of (a ++ b) = uploads_of a ++ uploads_of b.
Proof. apply flat_map_app. Qed.

Lemma uploads_of_polls files evs : Forall (poll_of files) evs -> uploads_of evs = [].
Proof.
  induction 1 as [|ev evs P _ IH]; [reflexivity|].
  unfold uploads_of. cbn [flat_map]. fold (uploads_of evs). rewrite IH.
  destruct ev; cbn in P; try contradiction; reflexivity.
Qed.

Section LoopMore.
Context {FM : FloatModel}.
Variable E : Env.

(** X5: in the loop of [extract_json_from_audio], a path whose guessed type
    is not an audio type costs no remote call and changes no file: with a
    type that does not start with [audio/] a warning is logged; with an
    undeterminable type the [AttributeError] of the check is caught and
    logged as an error (here, unlike in [get_audio_file_paths], it does
    not end the run).  Either way the iteration ends normally. *)
Theorem X5_non_audio_path_is_passed_over fuel model prompt out fp st :
  audio_type E fp = None ->
  process_file E fuel model prompt out fp st
  = (Ret tt,
     mk_state (fs st)
       (log st ++ [match guess_type E fp with
                   | Some _ => (WARNING, py "Skipping non-audio file: " ++ fp)
                   | None =>
                       (ERROR, py "Error processing " ++ fp ++ py ": "
                               ++ py "'NoneType' object has no attribute 'startswith'")
                   end])
       (trace st) (remote st)).
Proof.
  unfold audio_type, process_file, try_except_Exception, process_body.
  destruct (guess_type E fp) as [t|]; cbn [attr_startswith].
  - destruct (startswith t (py "audio/")); [discriminate|]. intros _. reflexivity.
  - intros _. reflexivity.
Qed.

Lemma body_uploads fuel model prompt out fp st r st' :
  process_body E fuel model prompt out fp st = (r, st') ->
  uploads_of (trace st')
  = uploads_of (trace st)
    ++ match audio_type E fp with Some t => [(fp, t)] | None => [] end.
Proof.
  intros H. apply process_body_run in H. unfold audio_type.
  inversion H as [G|t G A|t ru st1 r0 st0 G A U HU]; subst; rewrite G.
  - symmetry. apply List.app_nil_r.
  - rewrite A. symmetry. apply List.app_nil_r.
  - rewrite A. unfold upload_to_gemini in U. apply on_remote_trace in U.
    cbn [trace] in U.
    assert (T1 : uploads_of (trace st1) = uploads_of (trace st) ++ [(fp, t)]).
    { rewrite U, uploads_of_app. reflexivity. }
    inversion HU as [e st1'|st1'|v st1' rw st2 r1 st3 W HW]; subst; try exact T1.
    destruct (wait_members E _ _ _ _ _ W) as (polls & T2 & P).
    assert (T2' : uploads_of (trace st2) = uploads_of (trace st) ++ [(fp, t)]).
    { rewrite T2, uploads_of_app, (uploads_of_polls _ _ P), List.app_nil_r. exact T1. }
    inversion HW as [e st2'|st2'|st2' rs st4 r2 st5 S HS]; subst; try exact T2'.
    rewrite (replied_run_trace E _ _ _ _ _ _ HS).
    unfold send_message in S. apply on_remote_trace in S. rewrite S.
    cbn [trace]. rewrite !uploads_of_app. cbn. rewrite !List.app_nil_r. exact T2'.
Qed.

Lemma file_uploads fuel model prompt out fp st r st' :
  process_file E fuel model prompt out fp st = (r, st') ->
  uploads_of (trace st')
  = uploads_of (trace st)
    ++ match audio_type E fp with Some t => [(fp, t)] | None => [] end.
Proof.
  unfold process_file, try_except_Exception.
  destruct (process_body E fuel model prompt out fp st) as [r0 st0] eqn:B.
  apply body_uploads in B.
  destruct r0 as [[]|e|].
  - intros [= <- <-]. exact B.
  - destruct (is_Exception (class_of e)).
    + unfold logging. intros [= <- <-]. exact B.
    + intros [= <- <-]. exact B.
  - intros [= <- <-]. exact B.
Qed.

Lemma files_uploads fuel model prompt out paths : forall st st',
  process_files E fuel model prompt out paths st = (Ret tt, st') ->
  uploads_of (trace st') = uploads_of (trace st) ++ audio_uploads E paths.
Proof.
  induction paths as [|fp rest IH]; intros st st' H.
  - injection H as <-. symmetry. apply List.app_nil_r.
  - rewrite process_files_cons in H.
    destruct (process_file E fuel model prompt out fp st) as [[[]|e|] st1] eqn:F;
      try discriminate.
    apply file_uploads in F. apply IH in H.
    rewrite H, F, <- app_assoc. reflexivity.
Qed.

(** X6: in a run of [extract_json_from_audio] that ends normally,
    [upload_to_gemini] is called exactly once for each path of the list
    whose guessed type is an audio type, in the order of the list, with the
    path and its guessed type; it is never called for another path. *)
Theorem X6_uploads_are_the_audio_paths fuel paths prompt out model_name st st' :
  extract_json_from_audio E fuel paths prompt out model_name st = (Ret tt, st') ->
  uploads_of (trace st') = uploads_of (trace st) ++ audio_uploads E paths.
Proof.
  unfold extract_json_from_audio, bind, on_fs.
  destruct (os_makedirs out true (fs st)) as [[[]|e|] fs1]; try discriminate.
  intros H. apply files_uploads in H. exact H.
Qed.

End LoopMore.

(** ** The script as a whole *)

Section ScriptMore.
Context {FM : FloatModel}.
Variable E : Env.

Lemma audio_uploads_of_entries fs l :
  Forall (fun p => audio_entry E fs p = true) l ->
  map fst (audio_uploads E l) = l.
Proof.
  induction 1 as [|p l Hp _ IH]; [reflexivity|].
  unfold audio_uploads. cbn [flat_map]. fold (audio_uploads E l).
  apply audio_entry_spec in Hp. destruct Hp as (_ & t & G & A).
  unfold audio_type at 1. rewrite G, A. cbn [app map fst]. rewrite IH. reflexivity.
Qed.

(** X7: when the script as a whole ends normally, the paths it uploaded
    are exactly the entries of [AudioData] that are regular files of an
    audio type, each once and in the order of the listing. *)
Theorem X7_script_uploads_the_discovered_files fuel st st' :
  main E fuel st = (Ret tt, st') ->
  exists names,
    os_listdir (fs st) (py "AudioData") = Ret names
    /\ map fst (uploads_of (trace st'))
       = map fst (uploads_of (trace st))
         ++ filter (audio_entry E (fs st)) (map (join (py "AudioData")) names).
Proof.
  unfold main. intros H.
  destruct (get_audio_file_paths E (py "AudioData") (fs st)) as [paths|e|] eqn:D;
    try discriminate.
  unfold get_audio_file_paths in D.
  destruct (os_listdir (fs st) (py "AudioData")) as [names| |] eqn:L; try discriminate.
  pose proof (audio_files_loop_returns E _ _ _ _ _ D) as T.
  rewrite (audio_files_loop_typed E _ _ names [] T) in D. injection D as <-.
  exists names. split; [reflexivity|].
  unfold extract_json_from_audio, bind, on_fs in H.
  destruct (os_makedirs (py "TextOutput") true (fs st)) as [[[]|e|] fs1]; try discriminate.
  apply files_uploads in H. cbn [trace] in H.
  rewrite H, map_app. f_equal.
  apply (audio_uploads_of_entries (fs st)).
  apply Forall_forall. intros p Hp. apply filter_In in Hp. apply Hp.
Qed.

(** X8: one regular file of undeterminable type among the entries of
    [AudioData] ends the script before anything is done: it raises
    [AttributeError], the output directory is not created, nothing is
    uploaded and nothing is logged. *)
Theorem X8_script_stops_at_an_untyped_file fuel st names :
  os_listdir (fs st) (py "AudioData") = Ret names ->
  Exists (fun name => untyped_file E (fs st) (join (py "AudioData") name)) names ->
  exists e, main E fuel st = (Raise e, st) /\ class_of e = AttributeError.
Proof.
  intros L X. unfold main, get_audio_file_paths. rewrite L.
  destruct (audio_files_loop_untyped E _ _ _ [] X) as (e & -> & C).
  exists e. auto.
Qed.

End ScriptMore.

Section ScriptScenario.
#[local] Existing Instance half_floats.

Lemma X5_witness :
  process_file demo_env 5 (the_model default_model_name) user_prompt (py "TextOutput")
    (py "AudioData/notes.txt") demo_state
  = (Ret tt,
     mk_state (fs demo_state)
       (log demo_state ++ [(WARNING, py "Skipping non-audio file: AudioData/notes.txt")])
       (trace demo_state) (remote demo_state)).
Proof.
  refine (@X5_non_audio_path_is_passed_over half_floats demo_env 5
            (the_model default_model_name) user_prompt (py "TextOutput")
            (py "AudioData/notes.txt") demo_state _).
  vm_compute. reflexivity.
Defined.

Lemma X6_witness :
  uploads_of
    (trace (snd (extract_json_from_audio demo_env 5
                   [py "AudioData/call1.wav"; py "AudioData/notes.txt";
                    py "AudioData/call2.mp3"]
                   user_prompt (py "TextOutput") default_model_name demo_state)))
  = [(py "AudioData/call1.wav", py "audio/x-wav");
     (py "AudioData/call2.mp3", py "audio/mpeg")].
Proof.
  refine (@X6_uploads_are_the_audio_paths half_floats demo_env 5
            [py "AudioData/call1.wav"; py "AudioData/notes.txt"; py "AudioData/call2.mp3"]
            user_prompt (py "TextOutput") default_model_name demo_state _ _).
  vm_compute. reflexivity.
Defined.

Lemma X7_witness :
  exists names,
    os_listdir (fs demo_state) (py "AudioData") = Ret names
    /\ map fst (uploads_of (trace (snd (main demo_env 5 demo_state))))
       = map fst (uploads_of (trace demo_state))
         ++ filter (audio_entry demo_env (fs demo_state))
              (map (join (py "AudioData")) names).
Proof.
  refine (@X7_script_uploads_the_discovered_files half_floats demo_env 5 demo_state _ _).
  vm_compute. reflexivity.
Defined.

Lemma X8_witness :
  exists e, main demo_env 5 stray_state = (Raise e, stray_state)
            /\ class_of e = AttributeError.
Proof.
  refine (@X8_script_stops_at_an_untyped_file half_floats demo_env 5 stray_state
            [py "call1.wav"; py "README"] _ _).
  - vm_compute. reflexivity.
  - apply Exists_cons_tl, Exists_cons_hd. split; vm_compute; reflexivity.
Defined.

End ScriptScenario.

(** ** An output directory that is a regular file *)

(** [os.makedirs(name, exist_ok=True)] on a regular file: [FileExistsError],
    and nothing changes. *)
Lemma makedirs_on_file fuel name fs :
  isfile fs name = true ->
  makedirs_rec fuel name true fs = (Raise (os_error FileExistsError name), fs).
Proof.
  intros Hf.
  assert (Hex : path_exists fs name = true).
  { unfold isfile in Hf. unfold path_exists. destruct (resolve fs name); congruence. }
  pose proof (makedirs_head_exists fs name Hex) as Hh.
  assert (Last : mkdir_exist_ok name true fs = (Raise (os_error FileExistsError name), fs)).
  { unfold isfile in Hf.
    destruct (resolve fs name) as [k [d|es]| | |] eqn:R; try discriminate.
    unfold mkdir_exist_ok, os_mkdir. rewrite R. unfold isdir. rewrite R. reflexivity. }
  destruct fuel as [|fuel]; simpl; destruct (makedirs_parts name) as [head tail];
    destruct (is_empty head) eqn:Eh; simpl; try exact Last;
    rewrite (Hh eq_refl); simpl; rewrite andb_false_r; exact Last.
Qed.

Section Setup.
Context {FM : FloatModel}.
Variable E : Env.

(** X11: when the output directory is an existing regular file,
    [extract_json_from_audio] raises [FileExistsError] from
    [os.makedirs] ([exist_ok] passes over directories only) before the
    loop: no path is processed, nothing is uploaded or logged and the file
    system is unchanged. *)
Theorem X11_output_directory_is_a_file fuel paths prompt out model_name st :
  isfile (fs st) out = true ->
  exists e,
    extract_json_from_audio E fuel paths prompt out model_name st = (Raise e, st)
    /\ class_of e = FileExistsError.
Proof.
  intros Hf. unfold extract_json_from_audio, bind, on_fs, os_makedirs.
  rewrite (makedirs_on_file _ _ _ Hf).
  exists (os_error FileExistsError out). split; [|reflexivity]. destruct st; reflexivity.
Qed.

End Setup.

Section SetupScenario.
#[local] Existing Instance half_floats.

Lemma X11_witness :
  exists e,
    extract_json_from_audio demo_env 5 [py "AudioData/call1.wav"] user_prompt
      (py "AudioData/notes.txt") default_model_name demo_state
    = (Raise e, demo_state)
    /\ class_of e = FileExistsError.
Proof.
  refine (@X11_output_directory_is_a_file half_floats demo_env 5
            [py "AudioData/call1.wav"] user_prompt (py "AudioData/notes.txt")
            default_model_name demo_state _).
  vm_compute. reflexivity.
Defined.

End SetupScenario.

(** ** Strings in the written text *)

Lemma written_in_refl piece : written_in piece piece.
Proof. exists [], []. rewrite List.app_nil_r. reflexivity. Qed.

Lemma written_in_app piece a text b :
  written_in piece text -> written_in piece (a ++ text ++ b).
Proof.
  intros (x & y & ->). exists (a ++ x), (y ++ b).
  rewrite <- !app_assoc. reflexivity.
Qed.

Lemma written_in_cons piece c text :
  written_in piece text -> written_in piece (c :: text).
Proof.
  intros (x & y & ->). exists (c :: x), y. reflexivity.
Qed.

Lemma join_with_written sep (chunks : list pystr) chunk piece :
  In chunk chunks -> written_in piece chunk ->
  written_in piece (join_with sep chunks).
Proof.
  intros I W. induction chunks as [|y l IH]; [destruct I|].
  destruct l as [|z r].
  - destruct I as [->|[]]. exact W.
  - rewrite join_with_cons. destruct I as [->|I].
    + apply (written_in_app piece [] chunk), W.
    + specialize (IH I). apply (written_in_app piece (y ++ sep) _ []) in IH.
      rewrite List.app_nil_r, <- app_assoc in IH. exact IH.
Qed.

Section Escaped.
Context {FM : FloatModel}.

(** Every string of a value is in the text of the value, between double
    quotes and with each character replaced by its escape. *)
Lemma iterencode_writes_strings indent (o : json) : forall level s,
  In s (strings_of o) ->
  written_in (encode_basestring_ascii s) (iterencode indent level o).
Proof.
  induction o as [| b | z | f | s0 | l IH | d IH] using json_induction;
    intros level s I; cbn [strings_of] in I; try destruct I.
  - subst. apply written_in_refl.
  - destruct H.
  - apply in_flat_map in I. destruct I as (x & Hx & Hs).
    destruct l as [|y l']; [destruct Hx|].
    cbn [iterencode]. apply written_in_cons.
    apply (written_in_app _ (newline_indent indent (S level))).
    rewrite Forall_forall in IH.
    eapply join_with_written; [apply in_map, Hx|]. apply IH; assumption.
  - apply in_flat_map in I. destruct I as (kv & Hkv & Hs).
    destruct d as [|kv0 d']; [destruct Hkv|].
    cbn [iterencode]. apply written_in_cons.
    apply (written_in_app _ (newline_indent indent (S level))).
    rewrite Forall_forall in IH.
    eapply join_with_written;
      [apply (in_map (fun kv => encode_basestring_ascii (fst kv) ++ 58 :: 32
                                 :: iterencode indent (S level) (snd kv))), Hkv|].
    destruct Hs as [<-|Hs].
    + apply (written_in_app _ [] _ _ (written_in_refl _)).
    + specialize (IH kv Hkv (S level) s Hs).
      apply (written_in_app _ (encode_basestring_ascii (fst kv) ++ [58; 32]) _ []) in IH.
      rewrite List.app_nil_r, <- app_assoc in IH. exact IH.
Qed.

End Escaped.

Section WrittenReply.
Context {FM : FloatModel}.
Variable E : Env.

(** The reply a normal run of the [try] block received is the one it
    parsed and wrote. *)
Lemma saved_reply_of fuel model prompt out fp st st' t evs handles asked response txt :
  guess_type E fp = Some t ->
  startswith t (py "audio/") = true ->
  process_body E fuel model prompt out fp st = (Ret tt, st') ->
  trace st' = evs ++ [EvSendMessage handles asked (Ret response)] ->
  text response = Ret txt ->
  exists obj,
    json_loads txt = Ret obj
    /\ read_file (fs st') (json_path_of out fp) = Some (json_dump_text obj 4).
Proof.
  intros G A H T Ht.
  destruct (saved_reply E _ _ _ _ _ _ _ _ G A H)
    as (resp0 & txt0 & obj & (evs0 & h0 & T0) & Ht0 & Hj & R).
  rewrite T in T0. apply app_inj_tail in T0. destruct T0 as [_ Ev].
  injection Ev as _ _ <-. rewrite Ht in Ht0. injection Ht0 as <-.
  exists obj. auto.
Qed.

Hypothesis Hlex : float_repr_lexical.

(** C10: when the [try] block ends normally for an audio file, the output
    file holds the text [json.dump] writes for the value parsed from the
    reply that was received.  Every character of that text is an ASCII
    character, and every string of the value (string values and keys, at
    every depth) is written in it between double quotes with each of its
    characters replaced by its escape: a character from 128 up to the end of
    the basic plane by a backslash, the letter u and its four hexadecimal
    digits, a character above by the two such escapes of its surrogates.
    The floats are assumed to print as JSON numbers. *)
Theorem C10_non_ascii_is_written_escaped
    fuel model prompt out fp st st' t evs handles asked response txt :
  guess_type E fp = Some t ->
  startswith t (py "audio/") = true ->
  process_body E fuel model prompt out fp st = (Ret tt, st') ->
  trace st' = evs ++ [EvSendMessage handles asked (Ret response)] ->
  text response = Ret txt ->
  exists obj,
    json_loads txt = Ret obj
    /\ read_file (fs st') (json_path_of out fp) = Some (json_dump_text obj 4)
    /\ forallb is_ascii (json_dump_text obj 4) = true
    /\ (forall s, In s (strings_of obj) ->
          written_in (34 :: flat_map escape_ascii s ++ [34]) (json_dump_text obj 4))
    /\ (forall c, 128 <= c < 65536 -> escape_ascii c = 92 :: 117 :: hex4 c)
    /\ (forall c, 65536 <= c ->
          escape_ascii c
          = (92 :: 117 :: hex4 (high_of c)) ++ (92 :: 117 :: hex4 (low_of c))).
Proof.
  intros G A H T Ht.
  destruct (saved_reply_of _ _ _ _ _ _ _ _ _ _ _ _ _ G A H T Ht) as (obj & Hj & R).
  exists obj. split; [exact Hj|]. split; [exact R|].
  split; [apply json_dump_text_ascii, Hlex|].
  split; [intros s I; apply (iterencode_writes_strings 4 obj 0 s I)|].
  split.
  - intros c [L U]. unfold escape_ascii.
    destruct (N.eqb_spec c 92); [lia|]. destruct (N.eqb_spec c 34); [lia|].
    destruct (N.leb_spec 32 c); [|lia]. destruct (N.leb_spec c 126); [lia|]. cbn [andb].
    destruct (N.eqb_spec c 8); [lia|]. destruct (N.eqb_spec c 12); [lia|].
    destruct (N.eqb_spec c 10); [lia|]. destruct (N.eqb_spec c 13); [lia|].
    destruct (N.eqb_spec c 9); [lia|]. destruct (N.ltb_spec c 65536); [|lia]. reflexivity.
  - intros c L. unfold escape_ascii.
    destruct (N.eqb_spec c 92); [lia|]. destruct (N.eqb_spec c 34); [lia|].
    destruct (N.leb_spec 32 c); [|lia]. destruct (N.leb_spec c 126); [lia|]. cbn [andb].
    destruct (N.eqb_spec c 8); [lia|]. destruct (N.eqb_spec c 12); [lia|].
    destruct (N.eqb_spec c 10); [lia|]. destruct (N.eqb_spec c 13); [lia|].
    destruct (N.eqb_spec c 9); [lia|]. destruct (N.ltb_spec c 65536); [lia|].
    reflexivity.
Qed.

End WrittenReply.

Section WrittenReplyScenario.
#[local] Existing Instance half_floats.

(** C10 on the scenario: the reply holds an accented letter and an emoji,
    which the output file holds as three escapes. *)
Lemma C10_witness :
  read_file
    (fs (snd (process_body demo_env 5 (the_model default_model_name) user_prompt
                (py "TextOutput") (py "AudioData/memo.flac") prepared_state)))
    (py "TextOutput/memo.json")
  = Some memo_text
  /\ exists obj,
    json_loads demo_reply_other = Ret obj
    /\ read_file
         (fs (snd (process_body demo_env 5 (the_model default_model_name) user_prompt
                     (py "TextOutput") (py "AudioData/memo.flac") prepared_state)))
         (json_path_of (py "TextOutput") (py "AudioData/memo.flac"))
       = Some (json_dump_text obj 4)
    /\ forallb is_ascii (json_dump_text obj 4) = true
    /\ (forall s, In s (strings_of obj) ->
          written_in (34 :: flat_map escape_ascii s ++ [34]) (json_dump_text obj 4))
    /\ (forall c, 128 <= c < 65536 -> escape_ascii c = 92 :: 117 :: hex4 c)
    /\ (forall c, 65536 <= c ->
          escape_ascii c
          = (92 :: 117 :: hex4 (high_of c)) ++ (92 :: 117 :: hex4 (low_of c))).
Proof.
  split; [vm_compute; reflexivity|].
  refine (@C10_non_ascii_is_written_escaped half_floats demo_env half_floats_lexical 5
            (the_model default_model_name) user_prompt (py "TextOutput")
            (py "AudioData/memo.flac") prepared_state _ _
            (removelast
               (trace (snd (process_body demo_env 5 (the_model default_model_name)
                              user_prompt (py "TextOutput") (py "AudioData/memo.flac")
                              prepared_state))))
            [asset_of (py "AudioData/memo.flac") (py "audio/x-flac")] user_prompt
            (mk_response (Ret demo_reply_other)) demo_reply_other _ _ _ _ _).
  - vm_compute. reflexivity.
  - vm_compute. reflexivity.
  - vm_compute. reflexivity.
  - vm_compute. reflexivity.
  - reflexivity.
Defined.

End WrittenReplyScenario.

(** ** The indentation of the written text *)

Lemma no_control_app a b : no_control a -> no_control b -> no_control (a ++ b).
Proof. intros; apply Forall_app; auto. Qed.

Lemma indents_no_control a rest : no_control a -> indents (a ++ rest) = indents rest.
Proof.
  induction 1 as [|c a Hc _ IH]; [reflexivity|]. cbn [app indents].
  destruct (N.eqb_spec c 10); [lia|exact IH].
Qed.

Lemma leading_spaces_repeat n s :
  leading_spaces (repeat 32 n ++ s) = (n + leading_spaces s)%nat.
Proof. induction n; cbn; auto. Qed.

Lemma indents_repeat n s : indents (repeat 32 n ++ s) = indents s.
Proof. induction n; cbn; auto. Qed.

Lemma indents_newline_indent indent level s :
  leading_spaces s = O ->
  indents (newline_indent indent level ++ s) = (indent * level)%nat :: indents s.
Proof.
  intros H. unfold newline_indent. cbn [app indents N.eqb Pos.eqb].
  rewrite leading_spaces_repeat, indents_repeat, H, Nat.add_0_r. reflexivity.
Qed.

(** *** The pieces without a newline *)

Lemma hexdigit_visible d : 32 <= hexdigit d.
Proof. unfold hexdigit. destruct (d <? 10); lia. Qed.

Lemma u_escape_no_control n : no_control (u_escape n).
Proof.
  unfold u_escape, hex4. repeat constructor; try lia; apply hexdigit_visible.
Qed.

Lemma escape_ascii_no_control c : no_control (escape_ascii c).
Proof.
  unfold escape_ascii.
  repeat match goal with
         | |- context [if ?b then _ else _] => destruct b eqn:?
         end;
    try (repeat constructor; lia);
    try apply u_escape_no_control;
    try (apply no_control_app; apply u_escape_no_control).
  apply andb_true_iff in Heqb1. destruct Heqb1 as [H _]. apply N.leb_le in H.
  repeat constructor; lia.
Qed.

Lemma encode_basestring_no_control s : no_control (encode_basestring_ascii s).
Proof.
  unfold encode_basestring_ascii. constructor; [lia|].
  apply no_control_app; [|repeat constructor; lia].
  induction s as [|c s IH]; cbn [flat_map]; [constructor|].
  apply no_control_app; [apply escape_ascii_no_control|exact IH].
Qed.

Lemma digits_no_control s : Forall (fun c => is_digit c = true) s -> no_control s.
Proof.
  intros H. eapply Forall_impl; [|exact H]. intros c Hc. apply is_digit_range in Hc. lia.
Qed.

Lemma intstr_no_control z : no_control (intstr z).
Proof.
  unfold intstr, digits_of_N. destruct (z <? 0)%Z.
  - constructor; [lia|]. apply digits_no_control, uint_chars_digits.
  - apply digits_no_control, uint_chars_digits.
Qed.

Lemma match_integer_no_control s i r :
  match_integer s = Some (i, r) -> no_control i.
Proof.
  unfold match_integer. destruct s as [|c s]; [discriminate|].
  destruct (N.eqb_spec c 45) as [->|_].
  - destruct (match_natural s) as [[d rest]|] eqn:M; [|discriminate].
    apply match_natural_spec in M. destruct M as (_ & A & _). intros [= <- <-].
    constructor; [lia|apply digits_no_control, A].
  - intros M. apply match_natural_spec in M. destruct M as (_ & A & _).
    apply digits_no_control, A.
Qed.

Lemma match_frac_no_control s : no_control (fst (match_frac s)).
Proof.
  unfold match_frac. destruct s as [|c s]; [constructor|].
  destruct (N.eqb_spec c 46) as [->|_]; [|constructor].
  pose proof (span_digits_spec s) as S. destruct (span_digits s) as [[|d0 d] rest].
  - constructor.
  - destruct S as (_ & F & _). cbn [fst]. constructor; [lia|]. apply digits_no_control, F.
Qed.

Lemma match_sign_no_control s : no_control (fst (match_sign s)).
Proof.
  unfold match_sign. destruct s as [|g s']; [constructor|].
  destruct ((g =? 45) || (g =? 43)) eqn:Eg; [|constructor].
  apply orb_true_iff in Eg. cbn [fst].
  constructor; [|constructor]. destruct Eg as [Eg|Eg]; apply N.eqb_eq in Eg; lia.
Qed.

Lemma match_exp_no_control s : no_control (fst (match_exp s)).
Proof.
  unfold match_exp. destruct s as [|c s]; [constructor|].
  destruct ((c =? 101) || (c =? 69)) eqn:Ec; [|constructor].
  assert (Hc : 32 <= c).
  { apply orb_true_iff in Ec. destruct Ec as [Ec|Ec]; apply N.eqb_eq in Ec; lia. }
  pose proof (match_sign_no_control s) as Hs. destruct (match_sign s) as [sign r'].
  cbn [fst] in Hs.
  pose proof (span_digits_spec r') as S. destruct (span_digits r') as [[|d0 d] rest].
  - constructor.
  - destruct S as (_ & F & _). cbn [fst]. constructor; [exact Hc|].
    apply no_control_app; [exact Hs|apply digits_no_control, F].
Qed.

Lemma float_literal_no_control s : is_float_literal s = true -> no_control s.
Proof.
  unfold is_float_literal.
  destruct (match_number s) as [[[[i f] e] r]|] eqn:M; [|discriminate].
  pose proof (match_number_spec _ _ _ _ _ M) as (E & _).
  destruct r; [|discriminate]. intros _. rewrite List.app_nil_r in E. subst s.
  unfold match_number in M.
  destruct (match_integer (i ++ f ++ e)) as [[i0 s1]|] eqn:Mi; [|discriminate].
  pose proof (match_integer_no_control _ _ _ Mi) as Ni.
  pose proof (match_frac_no_control s1) as Nf. destruct (match_frac s1) as [f0 s2].
  pose proof (match_exp_no_control s2) as Ne. destruct (match_exp s2) as [e0 s3].
  injection M as <- <- <- _. cbn [fst] in Nf, Ne.
  repeat apply no_control_app; assumption.
Qed.

Section Indentation.
Context {FM : FloatModel}.
Hypothesis Hlex : float_repr_lexical.

Lemma floatstr_no_control f : no_control (floatstr f).
Proof.
  destruct f as [| | |x]; cbn [floatstr]; try (vm_compute; repeat constructor; discriminate).
  apply float_literal_no_control, Hlex.
Qed.

Lemma leading_spaces_encoded indent level o rest :
  leading_spaces (iterencode indent level o ++ rest) = O.
Proof.
  destruct (iterencode_head Hlex indent level o) as (c & t & -> & (W & _)).
  cbn [app leading_spaces]. unfold is_ws in W.
  destruct (N.eqb_spec c 32); [discriminate|reflexivity].
Qed.

(** the lines of a sequence of items, each on a line of its own, and of
    the closing bracket *)
Lemma indents_items {A} (enc : A -> pystr) (dep : A -> list nat)
    indent level close rest (l : list A) :
  l <> [] ->
  close <> 32 ->
  close <> 10 ->
  Forall (fun x => forall r, indents (enc x ++ r) = dep x ++ indents r) l ->
  Forall (fun x => forall r, leading_spaces (enc x ++ r) = O) l ->
  indents (newline_indent indent (S level)
           ++ join_with (44 :: newline_indent indent (S level)) (map enc l)
           ++ newline_indent indent level ++ close :: rest)
  = flat_map (fun x => (indent * S level)%nat :: dep x) l
    ++ [(indent * level)%nat] ++ indents rest.
Proof.
  intros Hl C1 C2 HI HS.
  assert (Close : indents (newline_indent indent level ++ close :: rest)
                  = (indent * level)%nat :: indents rest).
  { rewrite indents_newline_indent.
    - cbn [indents]. destruct (N.eqb_spec close 10); [contradiction|reflexivity].
    - cbn [leading_spaces]. destruct (N.eqb_spec close 32); [contradiction|reflexivity]. }
  induction l as [|x l IH]; [contradiction|].
  inversion HI as [|? ? Hx HI']; inversion HS as [|? ? Sx HS']; subst.
  destruct l as [|y l'].
  - cbn [map join_with flat_map app].
    rewrite indents_newline_indent by apply Sx.
    rewrite Hx, Close, List.app_nil_r. reflexivity.
  - rewrite (map_cons enc x), (map_cons enc y), join_with_cons.
    rewrite <- (map_cons enc y).
    rewrite <- !app_assoc.
    rewrite indents_newline_indent by apply Sx.
    rewrite Hx. cbn [app indents N.eqb Pos.eqb].
    change (flat_map (fun x0 => (indent * S level)%nat :: dep x0) (x :: y :: l'))
      with (((indent * S level)%nat :: dep x)
            ++ flat_map (fun x0 => (indent * S level)%nat :: dep x0) (y :: l')).
    rewrite <- app_assoc. cbn [app]. f_equal. f_equal.
    apply IH; [discriminate|assumption|assumption].
Qed.

(** The lines of the text of a value are indented as [line_indents]
    says. *)
Lemma indents_encoded indent (o : json) : forall level rest,
  indents (iterencode indent level o ++ rest)
  = line_indents indent level o ++ indents rest.
Proof.
  induction o as [| b | z | f | s | l IH | d IH] using json_induction;
    intros level rest.
  - reflexivity.
  - destruct b; reflexivity.
  - apply indents_no_control, intstr_no_control.
  - apply indents_no_control, floatstr_no_control.
  - apply indents_no_control, encode_basestring_no_control.
  - destruct l as [|x l]; [reflexivity|].
    cbn [iterencode line_indents]. cbn [app indents N.eqb Pos.eqb].
    rewrite <- !app_assoc. cbn [app].
    rewrite (indents_items (iterencode indent (S level))
               (line_indents indent (S level)) indent level 93 rest (x :: l));
      try discriminate.
    + try rewrite <- app_assoc; reflexivity.
    + eapply Forall_impl; [|exact IH]. intros a Ha r. apply Ha.
    + apply Forall_forall. intros a _ r. apply leading_spaces_encoded.
  - destruct d as [|kv d]; [reflexivity|].
    cbn [iterencode line_indents]. cbn [app indents N.eqb Pos.eqb].
    rewrite <- !app_assoc. cbn [app].
    etransitivity;
      [apply (indents_items
               (fun kv => encode_basestring_ascii (fst kv) ++ 58 :: 32
                          :: iterencode indent (S level) (snd kv))
               (fun kv => line_indents indent (S level) (snd kv))
               indent level 125 rest (kv :: d)); try discriminate
      | try rewrite <- app_assoc; reflexivity].
    + eapply Forall_impl; [|exact IH]. intros a Ha r. cbv beta.
      rewrite <- app_assoc. rewrite indents_no_control by apply encode_basestring_no_control.
      cbn [app indents N.eqb Pos.eqb]. apply Ha.
    + apply Forall_forall. intros a _ r. cbv beta. unfold encode_basestring_ascii.
      reflexivity.
Qed.

(** The indentation of the lines of the text that is written. *)
Lemma json_dump_text_indents (o : json) indent :
  indents (json_dump_text o indent) = line_indents indent 0 o.
Proof.
  unfold json_dump_text.
  rewrite <- (List.app_nil_r (iterencode indent 0 o)), indents_encoded.
  apply List.app_nil_r.
Qed.

End Indentation.

(** ** The output file *)

Section OutputFile.
Context {FM : FloatModel}.
Variable E : Env.
Hypothesis Hlex : float_repr_lexical.
Hypothesis Hexact : float_repr_exact.


End OutputFile.

Section OutputFileScenario.
#[local] Existing Instance half_floats.



End OutputFileScenario.

(** ** Creating a directory and its parents *)

Lemma components_no_sep name : ~ In sep name -> components name = [name].
Proof.
  induction name as [|c r IH]; intros N; [reflexivity|]. cbn [components].
  destruct (N.eqb_spec c sep) as [->|_]; [destruct N; left; reflexivity|].
  rewrite IH; [reflexivity|]. intros H. apply N. right. exact H.
Qed.

Lemma plain_name_spec n :
  plain_name n = true ->
  n <> [] /\ is_empty n = false /\ is_dot n = false /\ is_dotdot n = false /\ ~ In sep n.
Proof.
  unfold plain_name. intros H.
  apply andb_true_iff in H. destruct H as [H H4].
  apply andb_true_iff in H. destruct H as [H H3].
  apply andb_true_iff in H. destruct H as [H1 H2].
  apply negb_true_iff in H1, H2, H3, H4.
  split; [intros ->; discriminate|]. split; [exact H1|]. split; [exact H2|].
  split; [exact H3|]. intros I.
  assert (X : existsb (N.eqb sep) n = true).
  { apply existsb_exists. exists sep. split; [exact I|apply N.eqb_refl]. }
  congruence.
Qed.

Lemma plain_names_firstn k names :
  forallb plain_name names = true -> forallb plain_name (firstn k names) = true.
Proof.
  revert k. induction names as [|n r IH]; intros [|k] H; try reflexivity.
  cbn [firstn forallb] in *. apply andb_true_iff in H. destruct H as [H1 H2].
  rewrite H1, IH; auto.
Qed.

Lemma path_of_snoc ns n : ns <> [] -> path_of (ns ++ [n]) = path_of ns ++ sep :: n.
Proof.
  unfold path_of. induction ns as [|m ns IH]; [contradiction|]. intros _.
  destruct ns as [|m2 ns]; [reflexivity|].
  change (join_with [sep] ((m :: m2 :: ns) ++ [n]))
    with (m ++ [sep] ++ join_with [sep] ((m2 :: ns) ++ [n])).
  rewrite IH by discriminate.
  change (join_with [sep] (m :: m2 :: ns)) with (m ++ [sep] ++ join_with [sep] (m2 :: ns)).
  rewrite <- !app_assoc. reflexivity.
Qed.

Lemma path_of_one n : path_of [n] = n.
Proof. reflexivity. Qed.

(** the path of plain names ends with a character that is no slash *)
Lemma path_of_last ns :
  forallb plain_name ns = true -> ns <> [] ->
  exists r x, path_of ns = r ++ [x] /\ x <> sep.
Proof.
  intros P Hne. destruct (exists_last Hne) as (ms & m & ->).
  rewrite forallb_app in P. apply andb_true_iff in P. destruct P as [_ P].
  cbn [forallb] in P. rewrite andb_true_r in P.
  destruct (plain_name_spec _ P) as (Hm & _ & _ & _ & Hs).
  destruct (exists_last Hm) as (m' & x & ->).
  assert (Hx : x <> sep).
  { intros ->. apply Hs. apply in_or_app. right. left. reflexivity. }
  destruct ms as [|m0 ms].
  - exists m', x. auto.
  - rewrite path_of_snoc by discriminate.
    exists (path_of (m0 :: ms) ++ sep :: m'), x. split; [|exact Hx].
    rewrite <- app_assoc. reflexivity.
Qed.

Lemma path_of_head ns :
  forallb plain_name ns = true -> ns <> [] ->
  exists c r, path_of ns = c :: r /\ c <> sep.
Proof.
  intros P Hne. destruct ns as [|n ns]; [contradiction|].
  cbn [forallb] in P. apply andb_true_iff in P. destruct P as [P _].
  destruct (plain_name_spec _ P) as (Hn & _ & _ & _ & Hs).
  destruct n as [|c n]; [contradiction|].
  assert (Hc : c <> sep) by (intros ->; apply Hs; left; reflexivity).
  unfold path_of. destruct ns as [|m ns]; cbn [join_with app]; eauto.
Qed.

Lemma components_path_of ns :
  forallb plain_name ns = true -> ns <> [] -> components (path_of ns) = ns.
Proof.
  induction ns as [|n ns IH]; [contradiction|]. intros P _.
  cbn [forallb] in P. apply andb_true_iff in P. destruct P as [P1 P2].
  destruct (plain_name_spec _ P1) as (_ & _ & _ & _ & Hs).
  destruct ns as [|m ns].
  - rewrite path_of_one. apply components_no_sep. exact Hs.
  - change (path_of (n :: m :: ns)) with (n ++ sep :: path_of (m :: ns)).
    rewrite components_app_sep, components_no_sep by exact Hs.
    rewrite IH by (auto; discriminate). reflexivity.
Qed.

(** a relative path of plain names is resolved name by name from the
    current directory *)
Lemma resolve_path_of fs ns :
  forallb plain_name ns = true -> ns <> [] ->
  resolve fs (path_of ns) = walk (root fs) (cwd fs) ns.
Proof.
  intros P Hne. destruct (path_of_head ns P Hne) as (c & r & Hp & Hc).
  unfold resolve. rewrite <- (components_path_of ns P Hne) at 2. rewrite Hp.
  cbn [startswith]. destruct (N.eqb_spec c sep); [contradiction|]. reflexivity.
Qed.

Lemma walk_plain_found t names : forallb plain_name names = true ->
  forall cur n, lookup t (cur ++ names) = Some n -> walk t cur names = Found (cur ++ names) n.
Proof.
  induction names as [|c rest IH]; intros P cur n L.
  - rewrite List.app_nil_r in *. cbn [walk]. rewrite L. reflexivity.
  - cbn [forallb] in P. apply andb_true_iff in P. destruct P as [P1 P2].
    destruct (plain_name_spec _ P1) as (_ & He & Hd & Hdd & _).
    cbn [walk]. rewrite lookup_app in L.
    destruct (lookup t cur) as [[d|es]|] eqn:Q; cbn [lookup] in L; try discriminate.
    rewrite He, Hd, Hdd. cbn [orb].
    destruct (assoc c es) as [child|] eqn:A; [|discriminate].
    replace (cur ++ c :: rest) with ((cur ++ [c]) ++ rest)
      by (rewrite <- app_assoc; reflexivity).
    apply IH; [exact P2|].
    rewrite (lookup_app t (cur ++ [c]) rest), lookup_snoc, Q, A. exact L.
Qed.

Lemma walk_plain_key t names : forallb plain_name names = true ->
  forall cur k n, walk t cur names = Found k n -> k = cur ++ names.
Proof.
  induction names as [|c rest IH]; intros P cur k n W.
  - cbn [walk] in W. destruct (lookup t cur); [|discriminate].
    injection W as <- _. symmetry. apply List.app_nil_r.
  - cbn [forallb] in P. apply andb_true_iff in P. destruct P as [P1 P2].
    destruct (plain_name_spec _ P1) as (_ & He & Hd & Hdd & _).
    cbn [walk] in W. destruct (lookup t cur) as [[d|es]|]; try discriminate.
    rewrite He, Hd, Hdd in W. cbn [orb] in W.
    destruct (assoc c es).
    + apply IH in W; [|exact P2]. rewrite W, <- app_assoc. reflexivity.
    + destruct (forallb is_empty rest); discriminate.
Qed.

(** resolution goes on from where a first part of the path was found *)
Lemma walk_app_found t xs : forall cur ys k n,
  walk t cur xs = Found k n -> walk t cur (xs ++ ys) = walk t k ys.
Proof.
  induction xs as [|c xs IH]; intros cur ys k n W.
  - cbn [walk] in W. destruct (lookup t cur); [|discriminate].
    injection W as <- _. reflexivity.
  - cbn [walk app] in W |- *. destruct (lookup t cur) as [[d|es]|]; try discriminate.
    destruct (is_empty c || is_dot c); [eauto|].
    destruct (is_dotdot c); [eauto|].
    destruct (assoc c es); [eauto|].
    destruct (forallb is_empty xs); discriminate.
Qed.

Lemma lookup_prefix_dir t a b es :
  lookup t (a ++ b) = Some (Dir es) -> exists es', lookup t a = Some (Dir es').
Proof.
  rewrite lookup_app. destruct (lookup t a) as [[d|es']|]; [|eauto|discriminate].
  destruct b; discriminate.
Qed.

(** *** The head and the tail of a path of plain names *)

Lemma split_snoc r x b :
  x <> sep -> ~ In sep b -> split ((r ++ [x]) ++ sep :: b) = (r ++ [x], b).
Proof.
  intros Hx Hb. unfold split. rewrite (rfind_last _ _ _ Hb).
  unfold slice_to, slice_from.
  replace (Z.to_nat (Z.of_nat (List.length (r ++ [x])) + 1))
    with (List.length ((r ++ [x]) ++ [sep])) by (rewrite !length_app; simpl; lia).
  replace ((r ++ [x]) ++ sep :: b) with (((r ++ [x]) ++ [sep]) ++ b)
    by (rewrite <- !app_assoc; reflexivity).
  rewrite firstn_length_app, skipn_length_app.
  assert (F : forallb (N.eqb sep) ((r ++ [x]) ++ [sep]) = false).
  { rewrite !forallb_app. cbn [forallb].
    destruct (N.eqb_spec sep x) as [e|_]; [congruence|].
    rewrite andb_false_r. reflexivity. }
  rewrite F.
  assert (R : rstrip ((r ++ [x]) ++ [sep]) sep = r ++ [x]).
  { unfold rstrip. rewrite !rev_app_distr. cbn [rev app lstrip].
    rewrite N.eqb_refl. destruct (N.eqb_spec x sep); [contradiction|].
    cbn [rev]. rewrite rev_involutive. reflexivity. }
  destruct ((r ++ [x]) ++ [sep]) eqn:Z; [destruct r; discriminate|].
  cbn [negb]. rewrite R. reflexivity.
Qed.

Lemma split_no_sep n : ~ In sep n -> split n = ([], n).
Proof.
  intros Hn. unfold split. rewrite (rfind_absent _ _ Hn). reflexivity.
Qed.

Lemma makedirs_parts_one n : plain_name n = true -> makedirs_parts n = ([], n).
Proof.
  intros P. destruct (plain_name_spec _ P) as (_ & He & _ & _ & Hs).
  unfold makedirs_parts. rewrite (split_no_sep _ Hs), He. reflexivity.
Qed.

Lemma makedirs_parts_snoc ns n :
  forallb plain_name ns = true -> ns <> [] -> plain_name n = true ->
  makedirs_parts (path_of (ns ++ [n])) = (path_of ns, n).
Proof.
  intros P Hne Pn. destruct (plain_name_spec _ Pn) as (_ & He & _ & _ & Hs).
  destruct (path_of_last ns P Hne) as (r & x & Hp & Hx).
  rewrite path_of_snoc by exact Hne. unfold makedirs_parts.
  rewrite Hp, (split_snoc r x n Hx Hs), He. reflexivity.
Qed.

(** the tail of a path of plain names is its last name *)
Lemma makedirs_parts_tail ns n :
  forallb plain_name (ns ++ [n]) = true ->
  snd (makedirs_parts (path_of (ns ++ [n]))) = n.
Proof.
  intros P. rewrite forallb_app in P. apply andb_true_iff in P. destruct P as [P Pn].
  cbn [forallb] in Pn. rewrite andb_true_r in Pn.
  destruct ns as [|m ns].
  - cbn [app]. rewrite path_of_one, makedirs_parts_one by exact Pn. reflexivity.
  - rewrite makedirs_parts_snoc by (auto; discriminate). reflexivity.
Qed.

Lemma length_path_of ns :
  forallb plain_name ns = true -> (List.length ns <= List.length (path_of ns))%nat.
Proof.
  induction ns as [|n ns IH]; [intros; apply Nat.le_0_l|]. intros P.
  cbn [forallb] in P. apply andb_true_iff in P. destruct P as [P1 P2].
  destruct (plain_name_spec _ P1) as (Hn & _).
  specialize (IH P2).
  destruct n as [|c n]; [contradiction|].
  destruct ns as [|m ns]; [cbn; apply le_n_S, Nat.le_0_l|].
  change (path_of ((c :: n) :: m :: ns)) with ((c :: n) ++ sep :: path_of (m :: ns)).
  rewrite length_app. cbn [List.length] in *.
  apply le_n_S. eapply Nat.le_trans; [exact IH|].
  eapply Nat.le_trans; [apply Nat.le_succ_diag_r|]. 
  rewrite Nat.add_succ_r. apply le_n_S. apply Nat.le_add_l.
Qed.

(** *** The last step *)

(** [os.mkdir] of [ns/n] with [exist_ok], when [ns] is a directory and
    [ns/n] is no regular file: the directory is there or is created. *)
Lemma mkdir_last fs ns n k es :
  forallb plain_name ns = true -> plain_name n = true ->
  walk (root fs) (cwd fs) ns = Found k (Dir es) ->
  (forall d, lookup (root fs) (k ++ [n]) <> Some (File d)) ->
  exists fs', mkdir_exist_ok (path_of (ns ++ [n])) true fs = (Ret tt, fs').
Proof.
  intros P Pn W NF.
  assert (Pa : forallb plain_name (ns ++ [n]) = true).
  { rewrite forallb_app, P. cbn [forallb]. rewrite Pn. reflexivity. }
  assert (Hne : ns ++ [n] <> []) by (destruct ns; discriminate).
  pose proof (resolve_path_of fs _ Pa Hne) as R.
  rewrite (walk_app_found _ _ _ _ _ _ W) in R.
  pose proof (walk_found _ _ _ _ _ W) as L.
  destruct (plain_name_spec _ Pn) as (_ & He & Hd & Hdd & _).
  cbn [walk] in R. rewrite L, He, Hd, Hdd in R. cbn [orb forallb is_empty negb] in R.
  pose proof (lookup_snoc (root fs) k n) as S. rewrite L in S.
  unfold mkdir_exist_ok, os_mkdir.
  destruct (assoc n es) as [child|] eqn:A.
  - rewrite S in R. rewrite R.
    destruct child as [d|es'].
    + exfalso. apply (NF d). exact S.
    + unfold isdir. rewrite R. cbn. eauto.
  - rewrite R. eauto.
Qed.

(** *** The whole path *)

Lemma firstn_snoc_le {A} k (l : list A) x :
  (k <= List.length l)%nat -> firstn k (l ++ [x]) = firstn k l.
Proof.
  intros H. rewrite firstn_app. replace (k - List.length l)%nat with O by lia.
  cbn [firstn]. apply List.app_nil_r.
Qed.

(** [os.makedirs] of a relative path of plain names returns normally when
    the current directory is a directory and no part of the path is a
    regular file. *)
Lemma makedirs_plain ns :
  forallb plain_name ns = true -> ns <> [] ->
  forall fuel fs es0,
    (List.length ns <= fuel)%nat ->
    lookup (root fs) (cwd fs) = Some (Dir es0) ->
    (forall k d, lookup (root fs) (cwd fs ++ firstn k ns) <> Some (File d)) ->
    exists fs', makedirs_rec fuel (path_of ns) true fs = (Ret tt, fs').
Proof.
  induction ns as [|n ns IH] using rev_ind; [contradiction|].
  intros P _ fuel fs es0 Hf C NF.
  rewrite forallb_app in P. apply andb_true_iff in P. destruct P as [P Pn].
  cbn [forallb] in Pn. rewrite andb_true_r in Pn.
  destruct (plain_name_spec _ Pn) as (_ & He & Hd & _ & _).
  destruct (list_eq_dec (list_eq_dec N.eq_dec) ns []) as [->|Hne].
  - (* one name *)
    cbn [app]. rewrite path_of_one.
    assert (Last : exists fs', mkdir_exist_ok n true fs = (Ret tt, fs')).
    { apply (mkdir_last fs [] n (cwd fs) es0); auto.
      - cbn [walk]. rewrite C. reflexivity.
      - intros d. exact (NF 1%nat d). }
    destruct fuel; cbn [makedirs_rec]; rewrite (makedirs_parts_one _ Pn); exact Last.
  - (* the parents, then the last name *)
    assert (Last : forall fs1, same_files fs fs1 -> isdir fs1 (path_of ns) = true ->
              exists fs', mkdir_exist_ok (path_of (ns ++ [n])) true fs1 = (Ret tt, fs')).
    { intros fs1 [Hc Hfiles] Hdir. unfold isdir in Hdir.
      rewrite (resolve_path_of fs1 ns P Hne) in Hdir.
      destruct (walk (root fs1) (cwd fs1) ns) as [k [d|es]| | |] eqn:W; try discriminate.
      apply (mkdir_last fs1 ns n k es); auto.
      intros d Ld. pose proof (walk_plain_key _ _ P _ _ _ W) as K. subst k.
      rewrite Hc, <- app_assoc in Ld. apply Hfiles in Ld.
      apply (NF (List.length (ns ++ [n])) d). rewrite firstn_all. exact Ld. }
    destruct (path_of_head ns P Hne) as (c & r & Hp & _).
    assert (Hh : is_empty (path_of ns) = false) by (rewrite Hp; reflexivity).
    assert (Step : forall fl,
              makedirs_rec fl (path_of (ns ++ [n])) true fs
              = if negb (path_exists fs (path_of ns))
                then match fl with
                     | O => (NoFuel, fs)
                     | S fl' =>
                         match makedirs_rec fl' (path_of ns) true fs with
                         | (Ret _, fs1) => mkdir_exist_ok (path_of (ns ++ [n])) true fs1
                         | (Raise e, fs1) =>
                             match class_of e with
                             | FileExistsError =>
                                 mkdir_exist_ok (path_of (ns ++ [n])) true fs1
                             | _ => (Raise e, fs1)
                             end
                         | (NoFuel, fs1) => (NoFuel, fs1)
                         end
                     end
                else mkdir_exist_ok (path_of (ns ++ [n])) true fs).
    { intros fl. destruct fl; cbn [makedirs_rec];
        rewrite (makedirs_parts_snoc ns n P Hne Pn), Hh, He, ?Hd; reflexivity. }
    rewrite Step.
    destruct (path_exists fs (path_of ns)) eqn:X; cbn [negb].
    + apply Last; [apply same_files_refl|].
      unfold path_exists in X. unfold isdir.
      rewrite (resolve_path_of fs ns P Hne) in *.
      destruct (walk (root fs) (cwd fs) ns) as [k [d|es]| | |] eqn:W; try discriminate;
        [|reflexivity].
      exfalso. pose proof (walk_plain_key _ _ P _ _ _ W) as K. subst k.
      apply walk_found in W. apply (NF (List.length ns) d).
      rewrite firstn_snoc_le, firstn_all by apply Nat.le_refl. exact W.
    + destruct fuel as [|fuel].
      { rewrite length_app in Hf. cbn in Hf. lia. }
      destruct (IH P Hne fuel fs es0) as (fs1 & R); [|exact C| |].
      * rewrite length_app in Hf. cbn in Hf. lia.
      * intros k d. destruct (Nat.le_gt_cases k (List.length ns)) as [Hk|Hk].
        -- rewrite <- (firstn_snoc_le k ns n Hk). apply NF.
        -- rewrite firstn_all2 by lia. rewrite <- (firstn_all ns) at 1.
           rewrite <- (firstn_snoc_le (List.length ns) ns n (Nat.le_refl _)). apply NF.
      * rewrite R. apply Last.
        -- eapply makedirs_rec_same_files; eauto.
        -- eapply makedirs_rec_isdir; [exact R|].
           destruct (exists_last Hne) as (ms & m & Ems). clear - Ems P. subst.
           pose proof (makedirs_parts_tail ms m P) as T.
    match goal with |- is_dot ?x = false => replace x with m by (symmetry; exact T) end.
           rewrite forallb_app in P. apply andb_true_iff in P. destruct P as [_ Pm].
           cbn [forallb] in Pm. rewrite andb_true_r in Pm.
           destruct (plain_name_spec _ Pm) as (_ & _ & Hdm & _). exact Hdm.
Qed.

(** The current directory is a directory when [.] is one. *)
Lemma isdir_dot fs :
  isdir fs [extsep] = true -> exists es, lookup (root fs) (cwd fs) = Some (Dir es).
Proof.
  unfold isdir, resolve.
  change (startswith [extsep] [sep]) with false.
  change (components [extsep]) with [[extsep]]. cbn [walk].
  destruct (lookup (root fs) (cwd fs)) as [[d|es]|]; try discriminate. eauto.
Qed.

Lemma in_prefixes names p :
  In p (prefixes names) <->
  exists k, (1 <= k <= List.length names)%nat /\ p = path_of (firstn k names).
Proof.
  unfold prefixes. rewrite in_map_iff. split.
  - intros (k & <- & I). apply in_seq in I. exists k. split; [lia|reflexivity].
  - intros (k & Hk & ->). exists k. split; [reflexivity|]. apply in_seq. lia.
Qed.

Lemma firstn_nonempty {A} k (l : list A) : (1 <= k)%nat -> l <> [] -> firstn k l <> [].
Proof. destruct k; [lia|]. destruct l; [contradiction|discriminate]. Qed.

(** [os.makedirs(path, exist_ok=True)] for a relative path of plain names,
    from a current directory that is a directory, when neither the path nor
    one of its parents is a regular file: the call returns normally, and
    the path and its parents are directories afterwards. *)
Lemma os_makedirs_plain fs names :
  names <> [] -> forallb plain_name names = true ->
  isdir fs [extsep] = true ->
  (forall p, In p (prefixes names) -> isfile fs p = false) ->
  exists fs', os_makedirs (path_of names) true fs = (Ret tt, fs')
    /\ forall p, In p (prefixes names) -> isdir fs' p = true.
Proof.
  intros Hne P Hdot NF. destruct (isdir_dot fs Hdot) as (es0 & C).
  assert (NF' : forall k d, lookup (root fs) (cwd fs ++ firstn k names) <> Some (File d)).
  { intros k d L. destruct k as [|k].
    - cbn [firstn] in L. rewrite List.app_nil_r in L. congruence.
    - assert (I : In (path_of (firstn (Nat.min (S k) (List.length names)) names))
                     (prefixes names)).
      { apply in_prefixes. exists (Nat.min (S k) (List.length names)). split; [|reflexivity].
        destruct names; [contradiction|]. cbn [List.length]. lia. }
      assert (Efn : firstn (Nat.min (S k) (List.length names)) names = firstn (S k) names).
      { destruct (Nat.le_gt_cases (S k) (List.length names)) as [Hk|Hk].
        - rewrite Nat.min_l by exact Hk. reflexivity.
        - rewrite Nat.min_r by lia. rewrite firstn_all, firstn_all2 by lia. reflexivity. }
      rewrite Efn in I. specialize (NF _ I). unfold isfile in NF.
      rewrite resolve_path_of in NF;
        [|apply plain_names_firstn; exact P|apply firstn_nonempty; [lia|exact Hne]].
      rewrite (walk_plain_found _ _ (plain_names_firstn (S k) names P) _ _ L) in NF.
      discriminate. }
  destruct (makedirs_plain names P Hne (List.length (path_of names)) fs es0
              (length_path_of names P) C NF') as (fs' & R).
  exists fs'. split; [exact R|].
  assert (D : isdir fs' (path_of names) = true).
  { eapply makedirs_rec_isdir; [exact R|].
    destruct (exists_last Hne) as (ms & m & Ems). clear - Ems P. subst.
    pose proof (makedirs_parts_tail ms m P) as T.
    match goal with |- is_dot ?x = false => replace x with m by (symmetry; exact T) end.
    rewrite forallb_app in P. apply andb_true_iff in P. destruct P as [_ Pm].
    cbn [forallb] in Pm. rewrite andb_true_r in Pm.
    destruct (plain_name_spec _ Pm) as (_ & _ & Hdm & _). exact Hdm. }
  unfold isdir in D. rewrite (resolve_path_of fs' names P Hne) in D.
  destruct (walk (root fs') (cwd fs') names) as [key [d|es]| | |] eqn:W; try discriminate.
  pose proof (walk_plain_key _ _ P _ _ _ W) as K. subst key. apply walk_found in W.
  intros p I. apply in_prefixes in I. destruct I as (k & Hk & ->).
  rewrite <- (firstn_skipn k names) in W. rewrite app_assoc in W.
  apply lookup_prefix_dir in W. destruct W as (es' & W).
  unfold isdir. rewrite resolve_path_of;
    [|apply plain_names_firstn; exact P|apply firstn_nonempty; [lia|exact Hne]].
  rewrite (walk_plain_found _ _ (plain_names_firstn k names P) _ _ W). reflexivity.
Qed.

(** A directory named through a parent: the parent is a directory. *)
Lemma isdir_parent fs a b :
  a <> [] -> isdir fs (a ++ sep :: b) = true -> isdir fs a = true.
Proof.
  intros Ha H. destruct a as [|c a]; [contradiction|].
  unfold isdir, resolve in *.
  rewrite components_app_sep in H.
  cbn [app startswith] in H. cbn [startswith]. rewrite startswith_nil in *.
  pose (cur := if (c =? sep) && true then [] else cwd fs).
  change (match walk (root fs) cur (components (c :: a) ++ components b) with
          | Found _ (Dir _) => true
          | _ => false
          end = true) in H.
  change (match walk (root fs) cur (components (c :: a)) with
          | Found _ (Dir _) => true
          | _ => false
          end = true).
  clearbody cur.
  destruct (walk (root fs) cur (components (c :: a) ++ components b))
    as [k [d|es]| | |] eqn:W; try discriminate.
  destruct (walk_prefix_found _ _ _ _ _ _ W) as (k1 & n1 & W1).
  rewrite (walk_app_found _ _ _ _ _ _ W1) in W. rewrite W1.
  pose proof (walk_found _ _ _ _ _ W1) as L1.
  pose proof (components_nonempty b) as NE.
  destruct (components b) as [|y ys]; [contradiction|].
  cbn [walk] in W. rewrite L1 in W. destruct n1 as [d1|es1]; [discriminate|reflexivity].
Qed.

Section EmptyList.
Context {FM : FloatModel}.
Variable E : Env.

(** C8: for the empty list of paths, [extract_json_from_audio] is
    [os.makedirs(output_directory, exist_ok=True)] and nothing else: the log,
    the remote calls and the state of the remote service are unchanged
    (no upload, no wait, no chat), and no regular file appears, disappears
    or changes.  A directory that is there already is no error and nothing
    changes.  After a normal return the output directory is a directory
    (unless its path ends in a [.] component), and so is every parent its
    path names.  The call returns normally, creating the directory and the
    parents that are missing, when the path is a relative path
    [n1/.../nk] of plain names, the current directory is a directory and
    neither the path nor one of its parents is a regular file (the file
    system has no permissions and no links). *)
Theorem C8_empty_list_creates_directory_with_parents
    fuel prompt out model_name (st : State E) r st' :
  extract_json_from_audio E fuel [] prompt out model_name st = (r, st') ->
  (r, fs st') = os_makedirs out true (fs st)
  /\ log st' = log st
  /\ trace st' = trace st
  /\ remote st' = remote st
  /\ same_files (fs st) (fs st')
  /\ (isdir (fs st) out = true -> r = Ret tt /\ fs st' = fs st)
  /\ (r = Ret tt -> is_dot (snd (makedirs_parts out)) = false ->
      isdir (fs st') out = true
      /\ forall a b, out = a ++ sep :: b -> a <> [] -> isdir (fs st') a = true)
  /\ (forall names,
        out = path_of names -> names <> [] -> forallb plain_name names = true ->
        isdir (fs st) [extsep] = true ->
        (forall p, In p (prefixes names) -> isfile (fs st) p = false) ->
        r = Ret tt /\ forall p, In p (prefixes names) -> isdir (fs st') p = true).
Proof.
  intros H. pose proof (empty_run E fuel prompt out model_name st) as C.
  cbv zeta in C. rewrite H in C. cbn [fst snd] in C.
  destruct C as (C1 & C2 & C3 & C4 & C5 & C6 & C7).
  split; [exact C1|]. split; [exact C2|]. split; [exact C3|]. split; [exact C4|].
  split; [exact C5|]. split; [exact C6|]. split.
  - intros Hr Hdot. pose proof (C7 Hr Hdot) as D. split; [exact D|].
    intros a b -> Ha. exact (isdir_parent _ _ _ Ha D).
  - intros names -> Hne P Hdot NF.
    destruct (os_makedirs_plain (fs st) names Hne P Hdot NF) as (fs' & M & D).
    rewrite M in C1. injection C1 as -> ->. split; [reflexivity|exact D].
Qed.

End EmptyList.

(** C8 on the scenario, for the output directory [TextOutput/run1/json]:
    [TextOutput] does not exist before; the call returns normally and
    the three directories exist after it. *)
Lemma C8_witness :
  isdir demo_fs (py "TextOutput") = false
  /\ fst (extract_json_from_audio demo_env 5 [] user_prompt (py "TextOutput/run1/json")
            default_model_name demo_state) = Ret tt
  /\ isdir (fs (snd (extract_json_from_audio demo_env 5 [] user_prompt
                       (py "TextOutput/run1/json") default_model_name demo_state)))
       (py "TextOutput") = true
  /\ isdir (fs (snd (extract_json_from_audio demo_env 5 [] user_prompt
                       (py "TextOutput/run1/json") default_model_name demo_state)))
       (py "TextOutput/run1") = true
  /\ isdir (fs (snd (extract_json_from_audio demo_env 5 [] user_prompt
                       (py "TextOutput/run1/json") default_model_name demo_state)))
       (py "TextOutput/run1/json") = true
  /\ trace (snd (extract_json_from_audio demo_env 5 [] user_prompt
                   (py "TextOutput/run1/json") default_model_name demo_state)) = []
  /\ log (snd (extract_json_from_audio demo_env 5 [] user_prompt
                 (py "TextOutput/run1/json") default_model_name demo_state)) = [].
Proof.
  split; [vm_compute; reflexivity|].
  destruct (@C8_empty_list_creates_directory_with_parents half_floats demo_env 5 user_prompt
              (py "TextOutput/run1/json") default_model_name demo_state
              (fst (extract_json_from_audio demo_env 5 [] user_prompt
                      (py "TextOutput/run1/json") default_model_name demo_state))
              (snd (extract_json_from_audio demo_env 5 [] user_prompt
                      (py "TextOutput/run1/json") default_model_name demo_state)))
    as (_ & L & T & _ & _ & _ & _ & N).
  - apply surjective_pairing.
  - destruct (N [py "TextOutput"; py "run1"; py "json"]) as (R & D).
    + vm_compute. reflexivity.
    + discriminate.
    + vm_compute. reflexivity.
    + vm_compute. reflexivity.
    + intros p I. vm_compute in I.
      destruct I as [<-|[<-|[<-|[]]]]; vm_compute; reflexivity.
    + split; [exact R|].
      split; [apply D; vm_compute; left; reflexivity|].
      split; [apply D; vm_compute; right; left; reflexivity|].
      split; [apply D; vm_compute; right; right; left; reflexivity|].
      split; [exact T|exact L].
Defined.

